(** * PhaseEstimation: the VQE training engine and its loss functions

    A shallow embedding of [PhaseEstimation/losses.py] and
    [PhaseEstimation/vqe.py].

    Numbers.  The arrays of the program hold floating point numbers
    (real and complex).  They are modelled over the exact reals: a real
    array entry is an [R], a complex one a pair of reals, and every
    statement below is a statement of exact arithmetic.  The single
    non-numeric float the development keeps is NaN, which [jnp.mean]
    returns on an empty array: a value that may be NaN is a [scalar],
    [None] standing for NaN.

    Arrays.  A 1-D array is a list, a 2-D array a list of rows.  The
    shapes that the program fixes once and for all (every state has
    [2^N] amplitudes, every Hamiltonian is [2^N] by [2^N]) appear as
    [length] hypotheses of the theorems.

    Libraries.  The circuit simulator (PennyLane), the optimiser, the
    automatic differentiation and the compiler (JAX), the eigensolver
    ([jnp.linalg.eigh]) and the random number generator (NumPy) are not
    code of this repository: they are the fields of the class [Backend],
    and what the theorems need of them is stated as a hypothesis.

    Exceptions.  A function that may raise returns an [option].  The
    exceptions kept are the ones the source speaks of or cannot avoid:
    the [RuntimeError] of the four functions that are compiled for the
    whole grid, an index out of range of a Python list, a division by
    zero, [argmin] of an empty array, a missing file.  The progress bar
    is kept as the list of what it has shown at the diagnostic samples;
    printing the circuit is left out. *)

From Stdlib Require Import Reals Lra Psatz List ZArith Permutation Bool Arith Lia.
From Stdlib Require String Epsilon.
Import ListNotations.

Open Scope R_scope.

(** ** Complex numbers *)

Module Cx.

Definition C : Type := (R * R)%type.

Definition Re (z : C) : R := fst z.
Definition Im (z : C) : R := snd z.

Definition C0 : C := (0, 0).
Definition C1 : C := (1, 0).
Definition Ci : C := (0, 1).
Definition RtoC (x : R) : C := (x, 0).

Definition Cadd (z w : C) : C := (Re z + Re w, Im z + Im w).
Definition Cmul (z w : C) : C :=
  (Re z * Re w - Im z * Im w, Re z * Im w + Im z * Re w).
Definition Cconj (z : C) : C := (Re z, - Im z).

(** [|z|^2], and [jnp.abs] on a complex number. *)
Definition Cnorm2 (z : C) : R := Re z * Re z + Im z * Im z.
Definition Cabs (z : C) : R := sqrt (Cnorm2 z).

(** [jnp.square]. *)
Definition square (x : R) : R := x * x.

End Cx.
Import Cx.

Ltac cx :=
  repeat match goal with z : C |- _ => destruct z end;
  unfold Cadd, Cmul, Cconj, Cnorm2, C0, C1, Ci, RtoC, Re, Im in *;
  simpl in *.

Ltac cx_ring := cx; f_equal; ring.

(** An equation between arrays of complex numbers given entry by entry. *)
Ltac cx_list :=
  simpl; unfold Cadd, Cmul, Cconj, RtoC, C0, C1, Ci, Re, Im; simpl;
  repeat first [reflexivity | ring | f_equal].

(** ** Arrays *)

(** A value that may be NaN. *)
Definition scalar : Type := option R.

Definition NaN : scalar := None.

Definition scalar_add (x y : scalar) : scalar :=
  match x, y with
  | Some a, Some b => Some (a + b)
  | _, _ => NaN
  end.

Definition scalar_mul (x y : scalar) : scalar :=
  match x, y with
  | Some a, Some b => Some (a * b)
  | _, _ => NaN
  end.

Definition Rsum (l : list R) : R := fold_right Rplus 0 l.

(** [jnp.mean] of a 1-D real array: the mean of no number is NaN. *)
Definition mean (l : list R) : scalar :=
  match l with
  | [] => NaN
  | _ :: _ => Some (Rsum l / INR (length l))
  end.

(** [jnp.conj] of a 1-D array, and the product of an array by a number. *)
Definition conj (s : list C) : list C := map Cconj s.
Definition scale (c : C) (s : list C) : list C := map (Cmul c) s.

(** [a @ b] for two 1-D arrays. *)
Fixpoint matmul_vv (a b : list C) : C :=
  match a, b with
  | x :: a', y :: b' => Cadd (Cmul x y) (matmul_vv a' b')
  | _, _ => C0
  end.

(** [H[:, j]] and [v @ H] for a 1-D array and a 2-D one (a list of rows). *)
Definition column (j : nat) (H : list (list C)) : list C :=
  map (fun row => nth j row C0) H.

Definition ncols (H : list (list C)) : nat :=
  match H with
  | [] => 0
  | row :: _ => length row
  end.

Definition matmul_vm (v : list C) (H : list (list C)) : list C :=
  map (fun j => matmul_vv v (column j H)) (seq 0 (ncols H)).

(** [jax.vmap] of a function of two arguments, both mapped along their
    first axis. *)
Definition vmap2 {A B D : Type} (f : A -> B -> D) (xs : list A) (ys : list B)
  : list D :=
  map (fun xy => f (fst xy) (snd xy)) (combine xs ys).

(** [sum |a_i|^2]: a state is a unit vector when this is 1. *)
Definition norm2 (s : list C) : R := Rsum (map Cnorm2 s).

Definition unit_norm (s : list C) : Prop := norm2 s = 1.

(** [H[i][j]], and what it is for a matrix to be Hermitian, of
    dimension [n]. *)
Definition entry (H : list (list C)) (i j : nat) : C :=
  nth j (nth i H []) C0.

Definition hermitian (n : nat) (H : list (list C)) : Prop :=
  length H = n /\
  (forall row, In row H -> length row = n) /\
  forall i j, (i < n)%nat -> (j < n)%nat -> entry H i j = Cconj (entry H j i).

(** [sum_{i < n} f i], to speak of the products entry by entry. *)
Fixpoint Csum (n : nat) (f : nat -> C) : C :=
  match n with
  | O => C0
  | S k => Cadd (f O) (Csum k (fun i => f (S i)))
  end.

(** ** losses.py *)

Module losses.

(** The inner [vqe_fidelty(s1, s2)] of [vqe_fidelties_neighbouring]. *)
Definition vqe_fidelty (s1 s2 : list C) : R :=
  square (Cabs (matmul_vv (conj s1) s2)).

(** [vqe_fidelties_neighbouring(states)]: [states[:-1]] is [removelast],
    [states[1:]] is [tl]. *)
Definition vqe_fidelties_neighbouring (states : list (list C)) : scalar :=
  mean (vmap2 vqe_fidelty (removelast states) (tl states)).

(** [vqe_fidelties(Y, params, q_circuit)]. *)
Definition vqe_fidelties {P : Type} (Y : list (list C)) (params : list P)
    (q_circuit : P -> list C) : scalar :=
  let vqe_fidelty y p := square (Cabs (matmul_vv (conj (q_circuit p)) y)) in
  mean (vmap2 vqe_fidelty Y params).

End losses.

(** ** The libraries the engine is written against *)

(** The functions that the engine compiles with [jax.jit] and whose
    failure at run time the source speaks of. *)
Inductive jitted : Type :=
  | jv_compute_true_state_id
  | j_v_compute_vqe_E_id
  | jv_vqe_state_id
  | jv_fidelties_id.

Class Backend : Type := {
  (** PennyLane: the operations a circuit function queues, and the state
      [qml.state()] that a [default.qubit.jax] device with [wires]
      qubits returns for them. *)
  Ops : Type;
  qnode : nat -> Ops -> list C;
  (** [jax.example_libraries.optimizers.adam(lr)], on any parameter
      container, and [jax.grad]. *)
  OptState : Type -> Type;
  opt_init : forall P : Type, R -> P -> OptState P;
  opt_update : forall P : Type, R -> nat -> P -> OptState P -> OptState P;
  get_params : forall P : Type, OptState P -> P;
  grad : forall P : Type, (P -> scalar) -> P -> P;
  (** [jax.jit(f)] called for the [k]-th time (the engine numbers the
      calls by the epoch they are made in): [None] is a [RuntimeError],
      which is how the accelerator reports that it is out of memory. *)
  jit : forall A B : Type, jitted -> (A -> B) -> nat -> A -> option B;
  (** [jnp.linalg.eigh]: eigenvalues, and the 2-D array whose columns are
      the eigenvectors. *)
  eigh : list (list C) -> list R * list (list C);
  (** NumPy's global random state, and one draw of [random_sample]. *)
  Rng : Type;
  random_sample : Rng -> R * Rng
}.

Arguments opt_init {_ _} _ _.
Arguments opt_update {_ _} _ _ _ _.
Arguments get_params {_ _} _.
Arguments grad {_ _} _ _.
Arguments jit {_ _ _} _ _ _ _.

(** What the libraries promise, as far as the theorems below need it. *)

(** A jitted function that returns, returns what the function returns. *)
Definition jit_sound (B : Backend) : Prop :=
  forall (X Y : Type) (id : jitted) (f : X -> Y) (k : nat) (x : X) (y : Y),
    jit id f k x = Some y -> y = f x.

(** [random_sample] draws from the half-open interval [[0, 1)]. *)
Definition random_sample_range (B : Backend) : Prop :=
  forall g : Rng, 0 <= fst (random_sample g) < 1.

(** [eigh H] for a matrix of dimension [d]: [d] eigenvalues, a [d] by [d]
    array, column [k] a unit eigenvector of eigenvalue [k], and two
    columns orthogonal. *)
Definition matmul_mv (H : list (list C)) (v : list C) : list C :=
  map (fun row => matmul_vv row v) H.

Definition eigh_contract (B : Backend) (d : nat) (H : list (list C)) : Prop :=
  let (eigval, eigvec) := eigh H in
  length eigval = d /\
  length eigvec = d /\
  (forall row, In row eigvec -> length row = d) /\
  (forall k, (k < d)%nat ->
     unit_norm (column k eigvec) /\
     matmul_mv H (column k eigvec)
       = scale (RtoC (nth k eigval 0)) (column k eigvec)) /\
  forall k l, (k < d)%nat -> (l < d)%nat -> k <> l ->
    matmul_vv (conj (column k eigvec)) (column l eigvec) = C0.

(** ** Random arrays *)

Section Random.
Context {B : Backend}.

(** [n] draws, in order. *)
Fixpoint draws (n : nat) (g : Rng) : list R * Rng :=
  match n with
  | O => ([], g)
  | S n' =>
      let (x, g1) := random_sample g in
      let (xs, g2) := draws n' g1 in
      (x :: xs, g2)
  end.

(** [np.random.rand(n)]. *)
Definition rand (n : nat) (g : Rng) : list R * Rng := draws n g.

(** [np.random.uniform(low, high, size=n)]: each draw of [random_sample]
    is stretched to [[low, high)]. *)
Definition uniform (low high : R) (n : nat) (g : Rng) : list R * Rng :=
  let (us, g') := draws n g in
  (map (fun u => low + (high - low) * u) us, g').

(** [np.random.uniform(low, high, size=(rows, cols))]: the array is
    filled row by row. *)
Fixpoint uniform2 (low high : R) (rows cols : nat) (g : Rng)
  : list (list R) * Rng :=
  match rows with
  | O => ([], g)
  | S rows' =>
      let (r, g1) := uniform low high cols g in
      let (rs, g2) := uniform2 low high rows' cols g1 in
      (r :: rs, g2)
  end.

End Random.

(** ** Independent and uniform draws

    [Pr] gives the probability of an event, a set of states of the
    random source.  A random array [X] of [k] entries is uniform on
    [[a, b)] with independent entries when the probability that it falls
    in a box is the product of the relative lengths of the sides of the
    box. *)
Definition in_box (xs : list R) (lo hi : nat -> R) : Prop :=
  forall i, (i < length xs)%nat -> lo i <= nth i xs 0 < hi i.

Fixpoint product (k : nat) (f : nat -> R) : R :=
  match k with
  | O => 1
  | S k' => product k' f * f k'
  end.

Definition independent_uniform {G : Type} (Pr : (G -> Prop) -> R) (a b : R)
    (k : nat) (X : G -> list R) : Prop :=
  (forall g, length (X g) = k) /\
  forall (E : G -> Prop) (lo hi : nat -> R),
    (forall i, (i < k)%nat -> a <= lo i /\ lo i <= hi i /\ hi i <= b) ->
    (forall g, E g <-> in_box (X g) lo hi) ->
    Pr E = product k (fun i => (hi i - lo i) / (b - a)).

(** ** vqe.py *)

(** The fields of the Hamiltonian class that the engine reads. *)
Record hamiltonian : Type := mk_hamiltonian {
  Hs_N : nat;
  Hs_n_states : nat;
  mat_Hs : list (list (list C));
  true_e : list R;
  recycle_rule : list nat
}.

(** [jnp.argmin]: the first index of the least entry; there is none in an
    empty array ([ValueError]). *)
Fixpoint argmin_from (best : R) (besti i : nat) (l : list R) : nat :=
  match l with
  | [] => besti
  | x :: l' =>
      if Rlt_dec x best then argmin_from x i (S i) l'
      else argmin_from best besti (S i) l'
  end.

Definition argmin (l : list R) : option nat :=
  match l with
  | [] => None
  | x :: l' => Some (argmin_from x 0 1 l')
  end.

(** A function under [jax.vmap] that may raise: the first failure is the
    failure of the whole. *)
Fixpoint vmap_opt {A D : Type} (f : A -> option D) (xs : list A)
  : option (list D) :=
  match xs with
  | [] => Some []
  | x :: xs' =>
      match f x, vmap_opt f xs' with
      | Some y, Some ys => Some (y :: ys)
      | _, _ => None
      end
  end.

(** [l[i] = v] on a Python list: [IndexError] out of range. *)
Fixpoint list_set {A : Type} (l : list A) (i : nat) (v : A)
  : option (list A) :=
  match l, i with
  | [], _ => None
  | _ :: l', O => Some (v :: l')
  | x :: l', S i' =>
      match list_set l' i' v with
      | Some r => Some (x :: r)
      | None => None
      end
  end.

Section Engine.
Context {B : Backend}.

(** A circuit function: it queues operations and returns the number of
    parameters it has read, [params[0]] to [params[index - 1]]. *)
Definition circuit_t : Type := nat -> list R -> Ops * nat.

Record vqe : Type := mk_vqe {
  vqe_N : nat;
  vqe_Hs : hamiltonian;
  n_states : nat;
  n_params : nat;
  vqe_params : list (list R);
  MSE : list scalar;
  vqe_e : list R;
  recycle : bool;
  states_dist : list R;
  circuit_fun : circuit_t;
  (** attributes that exist only once [train] has run *)
  true_states : option (list (list C));
  trajectory : option (list (list (list R)));
  states : option (list (list C))
}.

(** [self.circuit = lambda p: circuit(self.N, p)] *)
Definition self_circuit (self : vqe) (p : list R) : Ops * nat :=
  circuit_fun self (vqe_N self) p.

(** The placeholder of [__init__], [[0] * 10000]. *)
Definition placeholder : list R := repeat 0 (Z.to_nat 10000).

(** [vqe.__init__(Hs, circuit)].  The number of parameters is what the
    circuit function returns on the placeholder, whatever that number
    is: the constructor does not compare it with the length of the
    placeholder.  The constructor has no failure of its own. *)
Definition vqe__init__ (Hs : hamiltonian) (circuit : circuit_t) (g : Rng)
  : option (vqe * Rng) :=
  let N := Hs_N Hs in
  let n_states := Hs_n_states Hs in
  let n_params := snd (circuit N placeholder) in
  let (vqe_params, g') := uniform2 (- PI) PI n_states n_params g in
  Some (mk_vqe N Hs n_states n_params vqe_params [] [] false []
               circuit None None None, g').

(** The parameters that the constructor allocates, entry after entry and
    row after row, as a function of the state of the random source. *)
Definition initial_parameters (Hs : hamiltonian) (circuit : circuit_t)
    (g : Rng) : list R :=
  match vqe__init__ Hs circuit g with
  | Some (self, _) => concat (vqe_params self)
  | None => []
  end.

(** *** The functions that [train] defines *)

Section Train.
Variable self : vqe.
Variables (lr reg : R) (n_epochs epochs_batch_size : Z).
Variable save_trajectories : bool.

(** [vqe_state(vqe_params)], the qnode. *)
Definition vqe_state (vqe_params : list R) : list C :=
  qnode (vqe_N self) (fst (self_circuit self vqe_params)).

Definition compute_true_state (H : list (list C)) : option (list C) :=
  let (eigval, eigvec) := eigh H in
  match argmin eigval with
  | Some k => Some (column k eigvec)
  | None => None
  end.

Definition jv_compute_true_state (Hs : list (list (list C)))
  : option (list (list C)) :=
  match jit jv_compute_true_state_id (vmap_opt compute_true_state) 0%nat Hs with
  | Some r => r
  | None => None
  end.

Definition v_vqe_state (params : list (list R)) : list (list C) :=
  map vqe_state params.

Definition jv_vqe_state (k : nat) (params : list (list R))
  : option (list (list C)) :=
  jit jv_vqe_state_id v_vqe_state k params.

(** [compute_E(state, Hmat)]: [jnp.conj(state) @ Hmat @ state]. *)
Definition compute_E (state : list C) (Hmat : list (list C)) : C :=
  matmul_vv (matmul_vm (conj state) Hmat) state.

Definition v_compute_E (states : list (list C)) (Hmats : list (list (list C)))
  : list C :=
  vmap2 compute_E states Hmats.

Definition compute_vqe_E (param : list R) (Hmat : list (list C)) : R :=
  let pred_states := vqe_state param in
  let vqe_e := compute_E pred_states Hmat in
  Re vqe_e.

(** The second [v_compute_vqe_E] of the source, which replaces the first. *)
Definition v_compute_vqe_E (params : list (list R)) : list R :=
  let pred_states := v_vqe_state params in
  let vqe_e := v_compute_E pred_states (mat_Hs (vqe_Hs self)) in
  map Re vqe_e.

Definition j_v_compute_vqe_E (k : nat) (params : list (list R))
  : option (list R) :=
  jit j_v_compute_vqe_E_id v_compute_vqe_E k params.

(** [jnp.mean(jnp.square(e - self.Hs.true_e))] *)
Definition mse (e : list R) : scalar :=
  mean (map square (vmap2 Rminus e (true_e (vqe_Hs self)))).

(** **** Independent mode *)

Definition jv_fidelties (k : nat) (true_st : list (list C))
    (pars : list (list R)) : option scalar :=
  jit jv_fidelties_id
      (fun tp => losses.vqe_fidelties (fst tp) (snd tp) vqe_state)
      k (true_st, pars).

Definition loss (params : list (list R)) : scalar :=
  let pred_states := v_vqe_state params in
  let vqe_e := v_compute_E pred_states (mat_Hs (vqe_Hs self)) in
  if Req_dec_T reg 0 then mean (map Re vqe_e)
  else scalar_add (mean (map Re vqe_e))
         (scalar_mul (Some reg) (losses.vqe_fidelties_neighbouring pred_states)).

Definition update (params : list (list R)) (opt_state : OptState (list (list R)))
  : list (list R) * OptState (list (list R)) :=
  let grads := grad loss params in
  let opt_state := opt_update lr 0%nat grads opt_state in
  (get_params opt_state, opt_state).

(** The variables of the loop over [range(n_epochs)], and what the
    progress bar has shown. *)
Record loop_state : Type := mk_loop {
  l_params : list (list R);
  l_opt : OptState (list (list R));
  l_oom : bool;
  l_MSE : list scalar;
  l_trajectory : list (list (list R));
  l_shown : list (scalar * scalar)
}.

(** The diagnostic block of iteration [it]; [None] is an exception that
    nothing catches. *)
Definition diagnostics (true_st : list (list C)) (it : nat)
    (params : list (list R)) (oom : bool) (MSE : list scalar)
    (shown : list (scalar * scalar))
  : option (bool * list scalar * list (scalar * scalar)) :=
  let '(oom, MSE) :=
    if negb oom then
      match j_v_compute_vqe_E it params with
      | Some e => (false, MSE ++ [mse e])
      | None => (true, MSE ++ [mse (v_compute_vqe_E params)])
      end
    else (true, MSE ++ [mse (v_compute_vqe_E params)]) in
  match jv_fidelties it true_st params with
  | Some f => Some (oom, MSE, shown ++ [(last MSE NaN, f)])
  | None => None
  end.

(** [it % 10 == 0] and [save_trajectories]. *)
Definition records_trajectory (it : nat) : bool :=
  (Nat.modulo it 10 =? 0)%nat && save_trajectories.

(** One iteration; [(it + 1) % 0] is a [ZeroDivisionError]. *)
Definition epoch (true_st : list (list C)) (it : nat) (st : loop_state)
  : option loop_state :=
  let (params, opt_state) := update (l_params st) (l_opt st) in
  if (epochs_batch_size =? 0)%Z then None
  else
    let after :=
      if ((Z.of_nat it + 1) mod epochs_batch_size =? 0)%Z then
        diagnostics true_st it params (l_oom st) (l_MSE st) (l_shown st)
      else Some (l_oom st, l_MSE st, l_shown st) in
    match after with
    | Some (oom, MSE, shown) =>
        let trajectory :=
          if records_trajectory it
          then l_trajectory st ++ [params] else l_trajectory st in
        Some (mk_loop params opt_state oom MSE trajectory shown)
    | None => None
    end.

Fixpoint epochs (true_st : list (list C)) (its : list nat) (st : loop_state)
  : option loop_state :=
  match its with
  | [] => Some st
  | it :: its' =>
      match epoch true_st it st with
      | Some st' => epochs true_st its' st'
      | None => None
      end
  end.

Definition train_independent (true_st : list (list C)) (params : list (list R))
  : option loop_state :=
  let oom := false in
  let MSE := [] in
  let trajectory := [] in
  let opt_state := opt_init lr params in
  epochs true_st (seq 0 (Z.to_nat n_epochs))
         (mk_loop params opt_state oom MSE trajectory []).

(** **** Recycle mode

    The branch defines a [loss] and an [update] of its own, for one state:
    they are [loss1] and [update1] here.  Nothing in this branch handles
    a failure of the compiled functions, which are taken to return. *)

Definition j_vqe_state (p : list R) : list C := vqe_state p.
Definition j_compute_E (state : list C) (Hmat : list (list C)) : C :=
  compute_E state Hmat.

Definition loss_reg (param : list R) (Hmat : list (list C)) (reg : R)
    (previous_state : list C) : R :=
  let pred_state := j_vqe_state param in
  let vqe_e := j_compute_E pred_state Hmat in
  Re vqe_e + reg * square (Cabs (matmul_vv (conj pred_state) previous_state)).

Definition loss1 (param : list R) (Hmat : list (list C)) : R :=
  let pred_state := j_vqe_state param in
  let vqe_e := j_compute_E pred_state Hmat in
  Re vqe_e.

Definition update1 (param : list R) (opt_state : OptState (list R))
    (Hmat : list (list C)) : list R * OptState (list R) :=
  let grads := grad (fun p => Some (loss1 p Hmat)) param in
  let opt_state := opt_update lr 0%nat grads opt_state in
  (get_params opt_state, opt_state).

Definition update_reg (param : list R) (opt_state : OptState (list R))
    (Hmat : list (list C)) (reg : R) (previous_state : list C)
  : list R * OptState (list R) :=
  let grads := grad (fun p => Some (loss_reg p Hmat reg previous_state)) param in
  let opt_state := opt_update lr 0%nat grads opt_state in
  (get_params opt_state, opt_state).

(** [for it in range(n): x = step(x, self.Hs.mat_Hs[idx])].  The matrix is
    looked up in the body, so an index out of range only matters when the
    body runs. *)
Definition epochs_at {X : Type} (n : nat) (idx : nat)
    (step : list (list C) -> X -> X) (x : X) : option X :=
  match n with
  | O => Some x
  | S _ =>
      match nth_error (mat_Hs (vqe_Hs self)) idx with
      | Some Hmat => Some (Nat.iter n (step Hmat) x)
      | None => None
      end
  end.

(** The loop [for idx in progress], over [recycle_rule[1:]]. *)
Fixpoint recycle_loop (rule : list nat) (param : list R)
    (previous_state : list C) (params : list (list R))
  : option (list (list R)) :=
  match rule with
  | [] => Some params
  | idx :: rule' =>
      let opt_state := opt_init lr param in
      match epochs_at (Z.to_nat n_epochs) idx
              (fun Hmat po => update_reg (fst po) (snd po) Hmat reg previous_state)
              (param, opt_state) with
      | Some (param, opt_state) =>
          match list_set params idx param with
          | Some params =>
              let previous_state := j_vqe_state param in
              recycle_loop rule' param previous_state params
          | None => None
          end
      | None => None
      end
  end.

Definition train_recycle (g : Rng) : option (list (list R) * Rng) :=
  let progress := tl (recycle_rule (vqe_Hs self)) in
  let params := repeat (repeat 0 (n_params self)) (n_states self) in
  let (param, g) := rand (n_params self) g in
  let idx := 0%nat in
  let opt_state := opt_init lr param in
  match epochs_at (Z.to_nat (10 * n_epochs)) idx
          (fun Hmat po => update1 (fst po) (snd po) Hmat)
          (param, opt_state) with
  | Some (param, opt_state) =>
      let previous_state := j_vqe_state param in
      match list_set params idx param with
      | Some params =>
          match recycle_loop progress param previous_state params with
          | Some params => Some (params, g)
          | None => None
          end
      | None => None
      end
  | None => None
  end.

(** **** [train] *)

(** The last lines of [train]: energies and states, batched unless the
    run has gone out of memory. *)
Definition finalize (oom : bool) (params : list (list R))
  : option (list R * list (list C)) :=
  if negb oom then
    match j_v_compute_vqe_E (Z.to_nat n_epochs) params with
    | Some e =>
        match jv_vqe_state (Z.to_nat n_epochs) params with
        | Some s => Some (e, s)
        | None => None
        end
    | None => None
    end
  else Some (v_compute_vqe_E params, v_vqe_state params).

(** What a call of [train] leaves behind: the engine, the random state,
    and what the progress bar has shown at each diagnostic sample. *)
Record trained : Type := mk_trained {
  t_self : vqe;
  t_rng : Rng;
  t_oom : bool;
  t_shown : list (scalar * scalar)
}.

Definition set_results (self : vqe) (recycle : bool)
    (true_st : list (list C)) (trajectory : option (list (list (list R))))
    (MSE : list scalar) (params : list (list R)) (e : list R)
    (s : list (list C)) : vqe :=
  mk_vqe (vqe_N self) (vqe_Hs self) (n_states self) (n_params self)
         params MSE e recycle (states_dist self) (circuit_fun self)
         (Some true_st) trajectory (Some s).

Definition train (recycle : bool) (g : Rng) : option trained :=
  match jv_compute_true_state (mat_Hs (vqe_Hs self)) with
  | None => None
  | Some true_st =>
      let params := vqe_params self in
      if negb recycle then
        match train_independent true_st params with
        | Some st =>
            match finalize (l_oom st) (l_params st) with
            | Some (e, s) =>
                Some (mk_trained
                        (set_results self false true_st
                           (Some (l_trajectory st)) (l_MSE st) (l_params st) e s)
                        g (l_oom st) (l_shown st))
            | None => None
            end
        | None => None
        end
      else
        let oom := false in
        let MSE := [] in
        match train_recycle g with
        | Some (params, g) =>
            match finalize oom params with
            | Some (e, s) =>
                Some (mk_trained
                        (set_results self true true_st (trajectory self)
                           MSE params e s)
                        g oom [])
            | None => None
            end
        | None => None
        end
  end.

End Train.

(** The defaults of [train]: [reg=0], [recycle=True],
    [save_trajectories=False], [epochs_batch_size=500]. *)
Definition default_reg : R := 0.
Definition default_recycle : bool := true.
Definition default_save_trajectories : bool := false.
Definition default_epochs_batch_size : Z := 500.

(** *** Persistence *)

(** [pickle] is taken to write a value and read the same value back: a
    file holds the list [[Hs, vqe_params, circuit_fun]] itself.  The
    files are a map from names to contents. *)
Definition blob : Type := (hamiltonian * list (list R) * circuit_t)%type.

Definition files : Type := list (String.string * blob).

Definition read_file (fs : files) (filename : String.string) : option blob :=
  match find (fun nb => String.eqb (fst nb) filename) fs with
  | Some nb => Some (snd nb)
  | None => None
  end.

Definition save (self : vqe) (filename : String.string) (fs : files) : files :=
  let things_to_save := (vqe_Hs self, vqe_params self, circuit_fun self) in
  (filename, things_to_save) :: fs.

Definition set_vqe_params (self : vqe) (params : list (list R)) : vqe :=
  mk_vqe (vqe_N self) (vqe_Hs self) (n_states self) (n_params self)
         params (MSE self) (vqe_e self) (recycle self) (states_dist self)
         (circuit_fun self) (true_states self) (trajectory self) (states self).

(** [load_vqe(filename)]: a missing file is an exception. *)
Definition load_vqe (filename : String.string) (fs : files) (g : Rng)
  : option (vqe * Rng) :=
  match read_file fs filename with
  | Some (Hs, vqe_params, circuit_fun) =>
      match vqe__init__ Hs circuit_fun g with
      | Some (loaded_vqe, g') => Some (set_vqe_params loaded_vqe vqe_params, g')
      | None => None
      end
  | None => None
  end.

(** The engines that a program can hold: built by the constructor,
    trained, or loaded from a file. *)
Inductive engine_instance : vqe -> Prop :=
  | instance_init (Hs : hamiltonian) (circuit : circuit_t) (g g' : Rng)
      (x : vqe) :
      vqe__init__ Hs circuit g = Some (x, g') -> engine_instance x
  | instance_train (x : vqe) (lr reg : R) (n_epochs epochs_batch_size : Z)
      (save_trajectories recycle : bool) (g : Rng) (out : trained) :
      engine_instance x ->
      train x lr reg n_epochs epochs_batch_size save_trajectories recycle g
        = Some out ->
      engine_instance (t_self out)
  | instance_load (filename : String.string) (fs : files) (g g' : Rng)
      (y : vqe) :
      load_vqe filename fs g = Some (y, g') -> engine_instance y.

(** What the constructor establishes and every engine keeps: the number
    of qubits is the one of the grid. *)
Definition constructible (x : vqe) : Prop :=
  vqe_N x = Hs_N (vqe_Hs x).

(** The engine on another ordering of its grid: the same engine, with
    [Hmats] for the matrices of its Hamiltonians. *)
Definition with_mat_Hs (self : vqe) (Hmats : list (list (list C))) : vqe :=
  let Hs := vqe_Hs self in
  mk_vqe (vqe_N self)
         (mk_hamiltonian (Hs_N Hs) (Hs_n_states Hs) Hmats (true_e Hs)
                         (recycle_rule Hs))
         (n_states self) (n_params self) (vqe_params self) (MSE self)
         (vqe_e self) (recycle self) (states_dist self) (circuit_fun self)
         (true_states self) (trajectory self) (states self).

(** The engine with another record of diagnostics, to speak of what a
    run does with the record of the run before. *)
Definition with_MSE (self : vqe) (old : list scalar) : vqe :=
  mk_vqe (vqe_N self) (vqe_Hs self) (n_states self) (n_params self)
         (vqe_params self) old (vqe_e self) (recycle self) (states_dist self)
         (circuit_fun self) (true_states self) (trajectory self) (states self).

End Engine.

(** ** The variables of the independent loop, epoch by epoch

    What each variable of the loop holds once [k] epochs are done, as a
    function of [k]: the loop is proved below to compute exactly these. *)

Section LoopVariables.
Context {B : Backend}.
Variable self : vqe.
Variables (lr reg : R) (epochs_batch_size : Z).
Variable save_trajectories : bool.
Variable true_st : list (list C).
Variable params0 : list (list R).

Definition after_epochs (k : nat)
  : list (list R) * OptState (list (list R)) :=
  Nat.iter k (fun po => update self lr reg (fst po) (snd po))
           (params0, opt_init lr params0).

Definition params_after (k : nat) : list (list R) := fst (after_epochs k).

(** The epochs [it] at whose end a sample is taken: [(it + 1) %
    epochs_batch_size == 0]. *)
Definition is_sample_epoch (it : nat) : bool :=
  ((Z.of_nat it + 1) mod epochs_batch_size =? 0)%Z.

Definition sample_epochs (k : nat) : list nat :=
  filter is_sample_epoch (seq 0 k).

(** The batched energies raise at the sample of epoch [it]. *)
Definition batched_fails (it : nat) : bool :=
  match j_v_compute_vqe_E self it (params_after (S it)) with
  | Some _ => false
  | None => true
  end.

Definition oom_after (k : nat) : bool :=
  existsb (fun it => is_sample_epoch it && batched_fails it) (seq 0 k).

(** The sample that the sequential path computes at epoch [it], and the
    sample that the loop records. *)
Definition sequential_sample (it : nat) : scalar :=
  mse self (v_compute_vqe_E self (params_after (S it))).

Definition sample (it : nat) : scalar :=
  match j_v_compute_vqe_E self it (params_after (S it)) with
  | Some e => if oom_after it then sequential_sample it else mse self e
  | None => sequential_sample it
  end.

Definition MSE_after (k : nat) : list scalar := map sample (sample_epochs k).

Definition fidelity_shown (it : nat) : scalar :=
  match jv_fidelties self it true_st (params_after (S it)) with
  | Some f => f
  | None => NaN
  end.

Definition shown_after (k : nat) : list (scalar * scalar) :=
  map (fun it => (sample it, fidelity_shown it)) (sample_epochs k).

Definition trajectory_after (k : nat) : list (list (list R)) :=
  map (fun it => params_after (S it))
      (filter (records_trajectory save_trajectories) (seq 0 k)).

Definition loop_after (k : nat) : loop_state :=
  mk_loop (params_after k) (snd (after_epochs k)) (oom_after k)
          (MSE_after k) (trajectory_after k) (shown_after k).

End LoopVariables.

(** A file name to save to. *)
Module FileNames.
Import String.
Definition vqe_pkl : string := "vqe.pkl"%string.
End FileNames.

(** ** A small backend to run the engine on

    One qubit, circuits made of RX rotations, an optimiser with learning
    rate zero, a jit that fails exactly where it is told to, an
    eigensolver for 2 by 2 diagonal matrices, and a random source that
    reads its draws (0 or 1/2) from a list. *)

Module OneQubit.

(** [RX(theta)] applied to the state [|0>]. *)
Definition rx_state (theta : R) : list C :=
  [(cos (theta / 2), 0); (0, - sin (theta / 2))].

Definition eigh_diag2 (H : list (list C)) : list R * list (list C) :=
  match H with
  | [[a; _]; [_; d]] =>
      if Rle_dec (Re a) (Re d)
      then ([Re a; Re d], [[C1; C0]; [C0; C1]])
      else ([Re d; Re a], [[C0; C1]; [C1; C0]])
  | _ => ([], [])
  end.

Definition backend (fails : jitted -> nat -> bool) : Backend := {|
  Ops := list R;
  qnode := fun _ ops => rx_state (Rsum ops);
  OptState := fun P => P;
  opt_init := fun _ _ p => p;
  opt_update := fun _ _ _ _ st => st;
  get_params := fun _ st => st;
  grad := fun _ _ p => p;
  jit := fun _ _ id f k x => if fails id k then None else Some (f x);
  eigh := eigh_diag2;
  Rng := list bool;
  random_sample := fun g =>
    (match g with true :: _ => 1 / 2 | _ => 0 end, tl g)
|}.

Definition never : jitted -> nat -> bool := fun _ _ => false.

(** The batched energies fail at epoch [k], and nothing else does. *)
Definition energies_fail_at (k : nat) : jitted -> nat -> bool :=
  fun id i =>
    match id with
    | j_v_compute_vqe_E_id => Nat.eqb i k
    | _ => false
    end.

(** A wall of RX gates on the single wire: one parameter. *)
Definition wall_RX : nat -> list R -> list R * nat :=
  fun _ params => ([nth 0 params 0], 1%nat).

Definition diag (a d : R) : list (list C) :=
  [[RtoC a; C0]; [C0; RtoC d]].

(** An engine on one grid point per row of [params], as [__init__]
    leaves it but for the parameters, which are given. *)
Definition hamiltonians (Hmats : list (list (list C))) (e : list R)
    (rule : list nat) : hamiltonian :=
  mk_hamiltonian 1 (length Hmats) Hmats e rule.

Definition engine (fails : jitted -> nat -> bool) (Hs : hamiltonian)
    (params : list (list R)) : @vqe (backend fails) :=
  @mk_vqe (backend fails) (Hs_N Hs) Hs (Hs_n_states Hs) 1 params [] [] false []
          wall_RX None None None.

(** An engine on a grid of one point whose Hamiltonian is zero: every
    state has energy 0 there. *)
Definition flat (theta : R) : @vqe (backend never) :=
  engine never (hamiltonians [diag 0 0] [0] [0%nat]) [[theta]].

End OneQubit.

(** ** More ways for the compiled functions to fail *)

Module Failures.

(** The mean fidelity of the progress bar fails at epoch [k], and
    nothing else does. *)
Definition fidelities_fail_at (k : nat) : jitted -> nat -> bool :=
  fun id i =>
    match id with
    | jv_fidelties_id => Nat.eqb i k
    | _ => false
    end.

(** The accelerator is out of memory at epoch [k]: every function
    compiled for the whole grid that is called in that epoch fails. *)
Definition out_of_memory_at (k : nat) : jitted -> nat -> bool :=
  fun id i =>
    match id with
    | jv_compute_true_state_id => false
    | _ => Nat.eqb i k
    end.

(** The engine of [OneQubit.flat], on a backend that fails as told. *)
Definition flat_on (fails : jitted -> nat -> bool) (theta : R)
  : @vqe (OneQubit.backend fails) :=
  OneQubit.engine fails (OneQubit.hamiltonians [OneQubit.diag 0 0] [0] [0%nat])
    [[theta]].

End Failures.

(** A grid of four flat points, visited in the order [rule]. *)
Definition four_points (rule : list nat) : @vqe (OneQubit.backend OneQubit.never) :=
  OneQubit.engine OneQubit.never
    (OneQubit.hamiltonians
       [OneQubit.diag 0 0; OneQubit.diag 0 0; OneQubit.diag 0 0; OneQubit.diag 0 0]
       [0; 0; 0; 0] rule)
    [[0]; [0]; [0]; [0]].
(** A grid of two points. *)
Definition two_points : @vqe (OneQubit.backend OneQubit.never) :=
  OneQubit.engine OneQubit.never
    (OneQubit.hamiltonians [OneQubit.diag 0 0; OneQubit.diag 1 (-1)]
       [0; -1] [0; 1]%nat)
    [[0]; [PI]].

(** ** A random source that is uniform

    The state of the source is a number and a draw returns it (0 when it
    is not in [[0, 1)]); the probability of an event is the length of
    the interval of [[0, 1)] that the event is, when it is one. *)

Module UniformSource.

Definition sample (g : R) : R :=
  if Rle_dec 0 g then if Rlt_dec g 1 then g else 0 else 0.

Definition backend : Backend := {|
  Ops := list R;
  qnode := fun _ ops => OneQubit.rx_state (Rsum ops);
  OptState := fun P => P;
  opt_init := fun _ _ p => p;
  opt_update := fun _ _ _ _ st => st;
  get_params := fun _ st => st;
  grad := fun _ _ p => p;
  jit := fun _ _ _ f _ x => Some (f x);
  eigh := OneQubit.eigh_diag2;
  Rng := R;
  random_sample := fun g => (sample g, g)
|}.

Definition interval_of (E : R -> Prop) (r : R) : Prop :=
  exists a b,
    0 <= a /\ a <= b /\ b <= 1 /\
    (forall g, 0 <= g < 1 -> (E g <-> a <= g < b)) /\
    r = b - a.

Definition Pr (E : R -> Prop) : R :=
  Epsilon.epsilon (inhabits 0) (interval_of E).

(** A grid of one point, for a circuit of one parameter. *)
Definition grid : hamiltonian :=
  OneQubit.hamiltonians [OneQubit.diag 0 0] [0] [0%nat].

End UniformSource.

(** A circuit function that says it reads one parameter more than the
    placeholder holds. *)
Definition greedy_circuit : nat -> list R -> list R * nat :=
  fun _ _ => ([], S (length placeholder)).
(** ** losses.py: the losses of the classifier

    The classifier's circuit measures one qubit: for an input it returns
    the two probabilities of the classes 0 and 1. *)

Module qcnn_losses.

(** Two 1-D arrays combined entry by entry under broadcasting: they have
    one length, or one of them has length one and is repeated; any other
    pair of lengths is an error. *)
Definition broadcast2 {A B D : Type} (f : A -> B -> D) (xs : list A)
    (ys : list B) : option (list D) :=
  if (length xs =? length ys)%nat then Some (vmap2 f xs ys)
  else
    match xs, ys with
    | [x], _ => Some (map (f x) ys)
    | _, [y] => Some (map (fun x => f x y) xs)
    | _, _ => None
    end.

(** [hinge(X, Y, params, q_circuit)]: [predictions[:,1]] is the second
    column, the rescaled probability of class 1. *)
Definition hinge {V P : Type} (X : list V) (Y : list R) (params : P)
    (q_circuit : V -> P -> R * R) : option scalar :=
  let v_qcnn_prob := map (fun v => q_circuit v params) in
  let predictions :=
    map (fun p => (2 * fst p - 1, 2 * snd p - 1)) (v_qcnn_prob X) in
  let Y_hinge := map (fun y => 2 * y - 1) Y in
  match broadcast2 Rmult (map snd predictions) Y_hinge with
  | Some products => Some (mean (map (fun z => 1 - z) products))
  | None => None
  end.

(** A float that is a number, or [None] for one that is not: an infinity
    or NaN. *)
Definition extended : Type := option R.

(** [jnp.log]: minus infinity at 0 and NaN below. *)
Definition log (p : R) : extended :=
  if Rlt_dec 0 p then Some (ln p) else None.

Fixpoint finite_all (l : list extended) : option (list R) :=
  match l with
  | [] => Some []
  | Some x :: l' =>
      match finite_all l' with
      | Some xs => Some (x :: xs)
      | None => None
      end
  | None :: _ => None
  end.

(** [jnp.mean] of logarithms: no logarithm is plus infinity, so the mean
    is a number exactly when every entry is one and there is an entry. *)
Definition mean_ext (l : list extended) : extended :=
  match finite_all l with
  | Some xs => mean xs
  | None => None
  end.

Definition neg_ext (x : extended) : extended :=
  match x with
  | Some v => Some (- v)
  | None => None
  end.

(** [jnp.take_along_axis(logprobs, jnp.expand_dims(Y, axis=1), axis=1)]
    for labels 0 ([false]) and 1 ([true]): the entry of each row that
    its label names. *)
Definition take_along_axis (logprobs : list (extended * extended))
    (Y : list bool) : option (list extended) :=
  broadcast2 (fun row (y : bool) => if y then snd row else fst row) logprobs Y.

Definition cross_entropy {V P : Type} (X : list V) (Y : list bool) (params : P)
    (q_circuit : V -> P -> R * R) : option extended :=
  let v_qcnn_prob := map (fun v => q_circuit v params) in
  let predictions := v_qcnn_prob X in
  let logprobs := map (fun p => (log (fst p), log (snd p))) predictions in
  match take_along_axis logprobs Y with
  | Some nll =>
      let ce := neg_ext (mean_ext nll) in
      Some ce
  | None => None
  end.

(** [jnp.reshape(a, (m, 2))] of a flat array: an error unless the array
    has [2 * m] entries. *)
Fixpoint pairs {A : Type} (l : list A) : list (A * A) :=
  match l with
  | x :: y :: l' => (x, y) :: pairs l'
  | _ => []
  end.

Definition reshape2 {A : Type} (l : list A) (m : nat) : option (list (A * A)) :=
  if (length l =? 2 * m)%nat then Some (pairs l) else None.

(** [cross_entropy_multiclass(X, Y, params, q_circuit)]: the circuit
    returns an array for each input and [Y] has a row of labels for
    each; both are flattened. *)
Definition cross_entropy_multiclass {V P : Type} (X : list V)
    (Y : list (list bool)) (params : P) (q_circuit : V -> P -> list R)
  : option extended :=
  let v_qcnn_prob := map (fun v => q_circuit v params) in
  let predictions := v_qcnn_prob X in
  let logprobs := map (map log) predictions in
  let Y := concat Y in
  match reshape2 (concat logprobs) (length Y) with
  | Some logprobs =>
      match take_along_axis logprobs Y with
      | Some nll =>
          let ce := neg_ext (mean_ext nll) in
          Some ce
      | None => None
      end
  | None => None
  end.

End qcnn_losses.
(** ** visualization.py: what the plots compute *)

Module visualization.

(** [create_confusion_matrix(vectors)] of [VQE_fidelity_slice]: the
    matrix it returns, entry [i, j] being
    [np.square(np.real(vectors[i] @ np.conj(vectors[j])))]. *)
Definition create_confusion_matrix (vectors : list (list C)) : list (list R) :=
  map (fun vi => map (fun vj => square (Re (matmul_vv vi (conj vj)))) vectors)
      vectors.

(** The position of the mark of the training point in
    [ENC_show_compression_ANNNI], for an integer [trainingpoint]:
    [//] and [%] are the floor division and its remainder, and raise on
    a zero divisor. *)
Definition training_mark (sidey trainingpoint : Z) : option (Z * Z) :=
  if (sidey =? 0)%Z then None
  else
    let train_x := (trainingpoint / sidey)%Z in
    let train_y := (sidey - trainingpoint mod sidey)%Z in
    let train_x := if (train_x =? 0)%Z then (train_x + 1)%Z else train_x in
    let train_y := if (train_y =? sidey)%Z then (train_y - 2)%Z else train_y in
    Some (train_x, train_y).

(** [QCNN_classification_ising]: the loop that sorts the predictions
    into training and test samples and colours them. *)
Inductive colour : Type := green | red.

(** [np.round(prediction) == 0]: halves are rounded to the even
    integer. *)
Definition rounds_to_zero (prediction : R) : bool :=
  if Rle_dec (- (1 / 2)) prediction then
    if Rle_dec prediction (1 / 2) then true else false
  else false.

Definition colour_of (prediction : R) (label : Z) : colour :=
  if rounds_to_zero prediction then
    if (label =? 0)%Z then green else red
  else
    if (label =? 0)%Z then red else green.

Record split : Type := mk_split {
  predictions_train : list R;
  colors_train : list colour;
  predictions_test : list R;
  colors_test : list colour
}.

(** [for i, prediction in enumerate(predictions)], from index [i] on;
    [labels[i]] raises past the end of the labels. *)
Fixpoint classify (train_index : list nat) (labels : list Z) (i : nat)
    (predictions : list R) (acc : split) : option split :=
  match predictions with
  | [] => Some acc
  | prediction :: predictions' =>
      match nth_error labels i with
      | None => None
      | Some label =>
          let acc' :=
            if existsb (Nat.eqb i) train_index then
              mk_split (predictions_train acc ++ [prediction])
                       (colors_train acc ++ [colour_of prediction label])
                       (predictions_test acc) (colors_test acc)
            else
              mk_split (predictions_train acc) (colors_train acc)
                       (predictions_test acc ++ [prediction])
                       (colors_test acc ++ [colour_of prediction label]) in
          classify train_index labels (S i) predictions' acc'
      end
  end.

Definition QCNN_classification_ising (train_index : list nat)
    (labels : list Z) (predictions : list R) : option split :=
  classify train_index labels 0 predictions (mk_split [] [] [] []).

(** [np.setdiff1d(np.arange(n), train_index)]: the indices below [n]
    that are not training indices, in increasing order. *)
Definition test_index (n : nat) (train_index : list nat) : list nat :=
  filter (fun i => negb (existsb (Nat.eqb i) train_index)) (seq 0 n).

End visualization.

(** * Properties *)

(** ** Complex arithmetic *)

Lemma Cmul_comm (z w : C) : Cmul z w = Cmul w z.
Proof. cx_ring. Qed.

Lemma Cmul_assoc (x y z : C) : Cmul x (Cmul y z) = Cmul (Cmul x y) z.
Proof. cx_ring. Qed.

Lemma Cadd_comm (z w : C) : Cadd z w = Cadd w z.
Proof. cx_ring. Qed.

Lemma Cadd_assoc (x y z : C) : Cadd x (Cadd y z) = Cadd (Cadd x y) z.
Proof. cx_ring. Qed.

Lemma Cadd_0_l (z : C) : Cadd C0 z = z.
Proof. cx_ring. Qed.

Lemma Cadd_0_r (z : C) : Cadd z C0 = z.
Proof. cx_ring. Qed.

Lemma Cmul_0_l (z : C) : Cmul C0 z = C0.
Proof. cx_ring. Qed.

Lemma Cmul_0_r (z : C) : Cmul z C0 = C0.
Proof. cx_ring. Qed.

Lemma Cmul_add_distr_l (x y z : C) :
  Cmul x (Cadd y z) = Cadd (Cmul x y) (Cmul x z).
Proof. cx_ring. Qed.

Lemma Cmul_add_distr_r (x y z : C) :
  Cmul (Cadd x y) z = Cadd (Cmul x z) (Cmul y z).
Proof. cx_ring. Qed.

Lemma Cconj_add (z w : C) : Cconj (Cadd z w) = Cadd (Cconj z) (Cconj w).
Proof. cx_ring. Qed.

Lemma Cconj_mul (z w : C) : Cconj (Cmul z w) = Cmul (Cconj z) (Cconj w).
Proof. cx_ring. Qed.

Lemma Cconj_conj (z : C) : Cconj (Cconj z) = z.
Proof. cx_ring. Qed.

Lemma Cconj_0 : Cconj C0 = C0.
Proof. cx_ring. Qed.

Lemma Cnorm2_nonneg (z : C) : 0 <= Cnorm2 z.
Proof. cx. nra. Qed.

Lemma Cnorm2_conj (z : C) : Cnorm2 (Cconj z) = Cnorm2 z.
Proof. cx. ring. Qed.

Lemma Cnorm2_mul (z w : C) : Cnorm2 (Cmul z w) = Cnorm2 z * Cnorm2 w.
Proof. cx. ring. Qed.

Lemma Cmul_conj_self (z : C) : Cmul (Cconj z) z = RtoC (Cnorm2 z).
Proof. cx_ring. Qed.

(** [jnp.square(jnp.abs(z))] is [|z|^2]. *)
Lemma square_Cabs (z : C) : square (Cabs z) = Cnorm2 z.
Proof. unfold square, Cabs. apply sqrt_sqrt, Cnorm2_nonneg. Qed.

(** A number fixed by conjugation is real. *)
Lemma Cconj_fixed_Im (z : C) : Cconj z = z -> Im z = 0.
Proof. destruct z as [a b]. unfold Cconj, Im. simpl. intros E. injection E. lra. Qed.

(** ** Dot products *)

Lemma matmul_vv_nil_r (a : list C) : matmul_vv a [] = C0.
Proof. destruct a; reflexivity. Qed.

Lemma matmul_vv_conj (a b : list C) :
  Cconj (matmul_vv a b) = matmul_vv (conj a) (conj b).
Proof.
  revert b. induction a as [|x a IH]; intros [|y b]; simpl;
    try apply Cconj_0.
  rewrite Cconj_add, Cconj_mul, IH. reflexivity.
Qed.

Lemma matmul_vv_comm (a b : list C) : matmul_vv a b = matmul_vv b a.
Proof.
  revert b. induction a as [|x a IH]; intros [|y b]; simpl; try reflexivity.
  rewrite IH, Cmul_comm. reflexivity.
Qed.

Lemma conj_conj (a : list C) : conj (conj a) = a.
Proof.
  unfold conj. rewrite map_map. rewrite <- (map_id a) at 2.
  apply map_ext. intros z. apply Cconj_conj.
Qed.

Lemma matmul_vv_scale_l (c : C) (a b : list C) :
  matmul_vv (scale c a) b = Cmul c (matmul_vv a b).
Proof.
  revert b. induction a as [|x a IH]; intros [|y b]; simpl;
    try (symmetry; apply Cmul_0_r).
  rewrite IH, Cmul_add_distr_l, Cmul_assoc. reflexivity.
Qed.

Lemma matmul_vv_scale_r (c : C) (a b : list C) :
  matmul_vv a (scale c b) = Cmul c (matmul_vv a b).
Proof.
  rewrite matmul_vv_comm, matmul_vv_scale_l, (matmul_vv_comm b a). reflexivity.
Qed.

Lemma conj_scale (c : C) (a : list C) : conj (scale c a) = scale (Cconj c) (conj a).
Proof.
  unfold conj, scale. rewrite !map_map. apply map_ext. intros z. apply Cconj_mul.
Qed.

Lemma norm2_nonneg (a : list C) : 0 <= norm2 a.
Proof.
  unfold norm2. induction a as [|x a IH]; simpl; [lra|].
  pose proof (Cnorm2_nonneg x). lra.
Qed.

Lemma matmul_vv_conj_self (a : list C) : matmul_vv (conj a) a = RtoC (norm2 a).
Proof.
  unfold norm2. induction a as [|x a IH]; simpl; [reflexivity|].
  rewrite IH, Cmul_conj_self. unfold RtoC, Cadd. simpl. f_equal. ring.
Qed.

(** The Cauchy-Schwarz inequality, for the dot product of the program. *)
Lemma cauchy_schwarz_step (P Q p q A B a b : R) :
  0 <= A -> 0 <= B -> 0 <= a -> 0 <= b ->
  P * P + Q * Q <= A * B -> p * p + q * q = a * b ->
  (p + P) * (p + P) + (q + Q) * (q + Q) <= (a + A) * (b + B).
Proof.
  intros HA HB Ha Hb HPQ Hpq.
  pose proof (Rle_0_sqr (P * q - Q * p)) as S1.
  pose proof (Rle_0_sqr (A * b - a * B)) as S2.
  unfold Rsqr in S1, S2.
  assert (Hab : 0 <= a * b) by (apply Rmult_le_pos; assumption).
  assert (HAB : 0 <= A * B) by (apply Rmult_le_pos; assumption).
  assert (H1 : (P * p + Q * q) * (P * p + Q * q) <= (A * B) * (a * b)).
  { assert (E : (P * p + Q * q) * (P * p + Q * q)
               = (P * P + Q * Q) * (p * p + q * q) - (P * q - Q * p) * (P * q - Q * p))
      by ring.
    rewrite E, Hpq.
    assert ((P * P + Q * Q) * (a * b) <= (A * B) * (a * b))
      by (apply Rmult_le_compat_r; assumption).
    lra. }
  assert (H2 : 4 * ((A * B) * (a * b)) <= (A * b + a * B) * (A * b + a * B)).
  { assert (E : (A * b + a * B) * (A * b + a * B)
               = (A * b - a * B) * (A * b - a * B) + 4 * ((A * B) * (a * b))) by ring.
    rewrite E. lra. }
  assert (H3 : 0 <= A * b + a * B).
  { assert (0 <= A * b) by (apply Rmult_le_pos; assumption).
    assert (0 <= a * B) by (apply Rmult_le_pos; assumption). lra. }
  assert (H4 : 2 * (P * p + Q * q) <= A * b + a * B).
  { destruct (Rle_dec (2 * (P * p + Q * q)) (A * b + a * B)) as [L|L]; [exact L|].
    exfalso. apply Rnot_le_lt in L.
    assert ((A * b + a * B) * (A * b + a * B)
            < (2 * (P * p + Q * q)) * (2 * (P * p + Q * q))).
    { apply Rmult_le_0_lt_compat; lra. }
    lra. }
  assert (E : (p + P) * (p + P) + (q + Q) * (q + Q)
            = (p * p + q * q) + (P * P + Q * Q) + 2 * (P * p + Q * q)) by ring.
  rewrite E, Hpq.
  assert (E2 : (a + A) * (b + B) = a * b + A * B + (A * b + a * B)) by ring.
  rewrite E2. lra.
Qed.

Lemma cauchy_schwarz (a b : list C) :
  length a = length b ->
  Cnorm2 (matmul_vv (conj a) b) <= norm2 a * norm2 b.
Proof.
  revert b. induction a as [|x a IH]; intros [|y b] L; simpl in L; try discriminate.
  - unfold norm2. simpl. unfold Cnorm2, C0. simpl. lra.
  - injection L as L. specialize (IH b L).
    pose proof (norm2_nonneg a) as Ha. pose proof (norm2_nonneg b) as Hb.
    pose proof (Cnorm2_nonneg x) as Hx. pose proof (Cnorm2_nonneg y) as Hy.
    pose proof (Cnorm2_mul (Cconj x) y) as Hxy. rewrite Cnorm2_conj in Hxy.
    simpl. unfold norm2 in *. simpl.
    set (A := Rsum (map Cnorm2 a)) in *. set (Bs := Rsum (map Cnorm2 b)) in *.
    destruct (matmul_vv (conj a) b) as [P Q].
    destruct (Cmul (Cconj x) y) as [p q].
    unfold Cnorm2, Cadd, Re, Im in *. simpl in *.
    apply cauchy_schwarz_step; assumption.
Qed.

(** ** Fidelity *)

Import losses.

Lemma vqe_fidelty_norm2 (a b : list C) :
  vqe_fidelty a b = Cnorm2 (matmul_vv (conj a) b).
Proof. unfold vqe_fidelty. apply square_Cabs. Qed.

Lemma vqe_fidelty_sym (a b : list C) : vqe_fidelty a b = vqe_fidelty b a.
Proof.
  rewrite !vqe_fidelty_norm2.
  rewrite <- (Cnorm2_conj (matmul_vv (conj b) a)).
  rewrite matmul_vv_conj, conj_conj, matmul_vv_comm. reflexivity.
Qed.

Lemma vqe_fidelty_range (a b : list C) :
  length a = length b -> unit_norm a -> unit_norm b ->
  0 <= vqe_fidelty a b <= 1.
Proof.
  intros L Ha Hb. rewrite vqe_fidelty_norm2. split.
  - apply Cnorm2_nonneg.
  - pose proof (cauchy_schwarz a b L) as H.
    unfold unit_norm in *. rewrite Ha, Hb in H. lra.
Qed.

Lemma vqe_fidelty_self (a : list C) : unit_norm a -> vqe_fidelty a a = 1.
Proof.
  intros Ha. rewrite vqe_fidelty_norm2, matmul_vv_conj_self.
  unfold unit_norm in Ha. rewrite Ha. unfold Cnorm2, RtoC. simpl. ring.
Qed.

Lemma unit_modulus_norm2 (c : C) : Cabs c = 1 -> Cnorm2 c = 1.
Proof. intros H. rewrite <- square_Cabs, H. unfold square. ring. Qed.

Lemma vqe_fidelty_phase_l (c : C) (a b : list C) :
  Cabs c = 1 -> vqe_fidelty (scale c a) b = vqe_fidelty a b.
Proof.
  intros Hc. rewrite !vqe_fidelty_norm2, conj_scale, matmul_vv_scale_l.
  rewrite Cnorm2_mul, Cnorm2_conj, (unit_modulus_norm2 c Hc). ring.
Qed.

Lemma vqe_fidelty_phase_r (c : C) (a b : list C) :
  Cabs c = 1 -> vqe_fidelty a (scale c b) = vqe_fidelty a b.
Proof.
  intros Hc. rewrite (vqe_fidelty_sym a), vqe_fidelty_phase_l by assumption.
  apply vqe_fidelty_sym.
Qed.

(** The fidelity that [vqe_fidelties] maps over the grid is the same
    function, applied to the state of the circuit and the reference. *)
Lemma vqe_fidelties_fidelty {P : Type} (Y : list (list C)) (params : list P)
    (q_circuit : P -> list C) :
  vqe_fidelties Y params q_circuit
  = mean (vmap2 (fun y p => vqe_fidelty (q_circuit p) y) Y params).
Proof. reflexivity. Qed.

(** C5.  For unit states [a] and [b] of the same dimension, the fidelity
    [|conj(a) . b|^2] of [losses.py] is a real number between 0 and 1, it
    is symmetric, the fidelity of a state with itself is 1, and it does
    not change when [a] or [b] is multiplied by a complex number of
    modulus 1. *)
Theorem fidelity_properties (a b : list C) (c : C) :
  length a = length b -> unit_norm a -> unit_norm b -> Cabs c = 1 ->
  vqe_fidelty a b = Cnorm2 (matmul_vv (conj a) b) /\
  0 <= vqe_fidelty a b <= 1 /\
  vqe_fidelty a b = vqe_fidelty b a /\
  vqe_fidelty a a = 1 /\
  vqe_fidelty (scale c a) b = vqe_fidelty a b /\
  vqe_fidelty a (scale c b) = vqe_fidelty a b.
Proof.
  intros L Ha Hb Hc. repeat split.
  - apply vqe_fidelty_norm2.
  - apply vqe_fidelty_range; assumption.
  - apply vqe_fidelty_range; assumption.
  - apply vqe_fidelty_sym.
  - apply vqe_fidelty_self; assumption.
  - apply vqe_fidelty_phase_l; assumption.
  - apply vqe_fidelty_phase_r; assumption.
Qed.

Lemma unit_norm_ket0 : unit_norm [C1; C0].
Proof. unfold unit_norm, norm2, Cnorm2, C1, C0. simpl. ring. Qed.

Lemma unit_norm_ket1 : unit_norm [C0; C1].
Proof. unfold unit_norm, norm2, Cnorm2, C1, C0. simpl. ring. Qed.

Lemma Cabs_Ci : Cabs Ci = 1.
Proof.
  unfold Cabs, Cnorm2, Ci. simpl.
  replace (0 * 0 + 1 * 1) with 1 by ring. apply sqrt_1.
Qed.

Lemma fidelity_properties_witness :
  0 <= vqe_fidelty [C1; C0] [C0; C1] <= 1 /\
  vqe_fidelty (scale Ci [C1; C0]) [C0; C1] = vqe_fidelty [C1; C0] [C0; C1].
Proof.
  pose proof (fidelity_properties [C1; C0] [C0; C1] Ci eq_refl
                unit_norm_ket0 unit_norm_ket1 Cabs_Ci) as H.
  split; [apply H | apply H].
Defined.

(** ** The neighbouring penalty *)

Lemma neighbours_cons {A D : Type} (f : A -> A -> D) (a b : A) (l : list A) :
  vmap2 f (removelast (a :: b :: l)) (tl (a :: b :: l))
  = f a b :: vmap2 f (removelast (b :: l)) (tl (b :: l)).
Proof. reflexivity. Qed.

Lemma neighbours_single {A D : Type} (f : A -> A -> D) (a : A) :
  vmap2 f (removelast [a]) (tl [a]) = [].
Proof. reflexivity. Qed.

(** The pairs are the consecutive ones, [(i, i + 1)] for [i < n - 1]. *)
Lemma neighbours_index {A D : Type} (f : A -> A -> D) (d : A) (l : list A) :
  vmap2 f (removelast l) (tl l)
  = map (fun i => f (nth i l d) (nth (S i) l d)) (seq 0 (length l - 1)).
Proof.
  destruct l as [|a l]; [reflexivity|].
  revert a. induction l as [|b l IH]; intros a; [reflexivity|].
  rewrite neighbours_cons, IH.
  replace (length (a :: b :: l) - 1)%nat with (S (length (b :: l) - 1))
    by (simpl; lia).
  rewrite <- cons_seq, <- seq_shift, map_cons, map_map. reflexivity.
Qed.

Lemma Rsum_bounds (l : list R) :
  (forall x, In x l -> 0 <= x <= 1) -> 0 <= Rsum l <= INR (length l).
Proof.
  induction l as [|x l IH]; intros H.
  - simpl. lra.
  - assert (Hx : 0 <= x <= 1) by (apply H; left; reflexivity).
    assert (Hl : 0 <= Rsum l <= INR (length l))
      by (apply IH; intros y Hy; apply H; right; exact Hy).
    change (length (x :: l)) with (S (length l)). rewrite S_INR.
    simpl. lra.
Qed.

Lemma mean_bounds (l : list R) :
  l <> [] -> (forall x, In x l -> 0 <= x <= 1) ->
  exists v, mean l = Some v /\ 0 <= v <= 1.
Proof.
  intros Hne H. destruct l as [|x l]; [congruence|].
  eexists. split; [reflexivity|].
  pose proof (Rsum_bounds (x :: l) H) as Hs.
  assert (Hpos : 0 < INR (length (x :: l))) by (apply lt_0_INR; simpl; lia).
  split.
  - apply Rmult_le_pos; [lra|]. left. apply Rinv_0_lt_compat. exact Hpos.
  - apply Rmult_le_reg_r with (INR (length (x :: l))); [exact Hpos|].
    unfold Rdiv. rewrite Rmult_assoc, Rinv_l by lra. lra.
Qed.

(** C10.  The neighbouring penalty is the mean of the fidelities of the
    [n - 1] pairs of consecutive states [(i, i + 1)].  For unit states of
    one dimension it is a real number between 0 and 1 as soon as there
    are two states; for a single state it is the mean of an empty array,
    NaN. *)
Theorem neighbouring_penalty (d : nat) (states : list (list C)) :
  (forall s, In s states -> length s = d /\ unit_norm s) ->
  let pairs :=
    map (fun i => vqe_fidelty (nth i states []) (nth (S i) states []))
        (seq 0 (length states - 1)) in
  length pairs = (length states - 1)%nat /\
  vqe_fidelties_neighbouring states = mean pairs /\
  ((2 <= length states)%nat ->
     exists v, vqe_fidelties_neighbouring states = Some v /\
               v = Rsum pairs / INR (length states - 1) /\ 0 <= v <= 1) /\
  (length states = 1%nat -> vqe_fidelties_neighbouring states = NaN).
Proof.
  intros Hst pairs.
  assert (E : vqe_fidelties_neighbouring states = mean pairs)
    by (unfold vqe_fidelties_neighbouring; rewrite (neighbours_index _ [] states);
        reflexivity).
  assert (Lp : length pairs = (length states - 1)%nat)
    by (unfold pairs; rewrite length_map, length_seq; reflexivity).
  repeat split; try assumption.
  - intros Hn. rewrite E.
    destruct (mean_bounds pairs) as [v [Hv Hr]].
    + intros Hnil. rewrite Hnil in Lp. simpl in Lp. lia.
    + intros x Hx. unfold pairs in Hx. apply in_map_iff in Hx.
      destruct Hx as [i [<- Hi]]. apply in_seq in Hi.
      assert (Ha : In (nth i states []) states) by (apply nth_In; lia).
      assert (Hb : In (nth (S i) states []) states) by (apply nth_In; lia).
      destruct (Hst _ Ha) as [La Ua]. destruct (Hst _ Hb) as [Lb Ub].
      apply vqe_fidelty_range; congruence.
    + exists v. split; [exact Hv|]. split; [|exact Hr].
      destruct pairs as [|x l]; [discriminate|].
      simpl in Hv. injection Hv as <-. rewrite <- Lp. reflexivity.
  - intros H1. rewrite E. destruct pairs; [reflexivity|].
    rewrite H1 in Lp. discriminate.
Qed.

Lemma neighbouring_penalty_witness :
  (exists v, vqe_fidelties_neighbouring [[C1; C0]; [C0; C1]] = Some v /\ 0 <= v <= 1) /\
  vqe_fidelties_neighbouring [[C1; C0]] = NaN.
Proof.
  split.
  - destruct (neighbouring_penalty 2 [[C1; C0]; [C0; C1]]) as [_ [_ [H _]]].
    + intros s [<-|[<-|[]]]; split;
        [reflexivity | apply unit_norm_ket0 | reflexivity | apply unit_norm_ket1].
    + destruct (H (le_n 2)) as [v [Hv [_ Hr]]]. exists v. split; assumption.
  - destruct (neighbouring_penalty 2 [[C1; C0]]) as [_ [_ [_ H]]].
    + intros s [<-|[]]; split; [reflexivity | apply unit_norm_ket0].
    + apply H. reflexivity.
Defined.

(** ** Expected energy *)

Lemma Csum_ext (n : nat) (f g : nat -> C) :
  (forall i, (i < n)%nat -> f i = g i) -> Csum n f = Csum n g.
Proof.
  revert f g. induction n as [|n IH]; intros f g H; simpl; [reflexivity|].
  rewrite (H O) by lia. f_equal. apply IH. intros i Hi. apply H. lia.
Qed.

Lemma Csum_zero (n : nat) : Csum n (fun _ => C0) = C0.
Proof. induction n as [|n IH]; simpl; [reflexivity|]. rewrite IH. apply Cadd_0_l. Qed.

Lemma Csum_add (n : nat) (f g : nat -> C) :
  Csum n (fun i => Cadd (f i) (g i)) = Cadd (Csum n f) (Csum n g).
Proof.
  revert f g. induction n as [|n IH]; intros f g; simpl.
  - symmetry. apply Cadd_0_l.
  - rewrite IH. cx_ring.
Qed.

Lemma Csum_conj (n : nat) (f : nat -> C) :
  Cconj (Csum n f) = Csum n (fun i => Cconj (f i)).
Proof.
  revert f. induction n as [|n IH]; intros f; simpl; [apply Cconj_0|].
  rewrite Cconj_add, IH. reflexivity.
Qed.

Lemma Csum_mul_r (n : nat) (f : nat -> C) (c : C) :
  Cmul (Csum n f) c = Csum n (fun i => Cmul (f i) c).
Proof.
  revert f. induction n as [|n IH]; intros f; simpl; [apply Cmul_0_l|].
  rewrite Cmul_add_distr_r, IH. reflexivity.
Qed.

Lemma Csum_swap (n m : nat) (f : nat -> nat -> C) :
  Csum n (fun i => Csum m (fun j => f i j))
  = Csum m (fun j => Csum n (fun i => f i j)).
Proof.
  revert f. induction n as [|n IH]; intros f; simpl.
  - symmetry. apply Csum_zero.
  - rewrite IH, <- Csum_add. reflexivity.
Qed.

Lemma matmul_vv_Csum (a b : list C) :
  length a = length b ->
  matmul_vv a b = Csum (length a) (fun i => Cmul (nth i a C0) (nth i b C0)).
Proof.
  revert b. induction a as [|x a IH]; intros [|y b] L; simpl in L; try discriminate.
  - reflexivity.
  - injection L as L. simpl. rewrite (IH b L). reflexivity.
Qed.

Lemma nth_conj (s : list C) (i : nat) : nth i (conj s) C0 = Cconj (nth i s C0).
Proof.
  unfold conj. rewrite <- Cconj_0 at 1. apply map_nth.
Qed.

Lemma nth_column (H : list (list C)) (i j : nat) :
  nth i (column j H) C0 = entry H i j.
Proof.
  unfold column, entry.
  assert (E : C0 = (fun row : list C => nth j row C0) []) by (destruct j; reflexivity).
  rewrite E at 1. apply (map_nth (fun row : list C => nth j row C0)).
Qed.

Lemma nth_map_seq {A : Type} (f : nat -> A) (d : A) (n j : nat) :
  (j < n)%nat -> nth j (map f (seq 0 n)) d = f j.
Proof.
  intros Hj. rewrite (nth_indep _ d (f O)) by (rewrite length_map, length_seq; exact Hj).
  rewrite (map_nth f), seq_nth by exact Hj. reflexivity.
Qed.

Lemma ncols_hermitian (n : nat) (H : list (list C)) :
  hermitian n H -> ncols H = n.
Proof.
  intros [L [Hrow _]]. destruct H as [|row H]; simpl in *; [exact L|].
  apply Hrow. left. reflexivity.
Qed.

(** [conj(s) @ H @ s], entry by entry. *)
Lemma compute_E_Csum (n : nat) (H : list (list C)) (s : list C) :
  hermitian n H -> length s = n ->
  compute_E s H
  = Csum n (fun j => Csum n (fun i =>
      Cmul (Cmul (Cconj (nth i s C0)) (entry H i j)) (nth j s C0))).
Proof.
  intros Hh Ls. pose proof (ncols_hermitian n H Hh) as Hc.
  destruct Hh as [LH _].
  unfold compute_E, matmul_vm. rewrite Hc.
  rewrite matmul_vv_Csum by (rewrite length_map, length_seq; congruence).
  rewrite length_map, length_seq.
  apply Csum_ext. intros j Hj.
  rewrite nth_map_seq by exact Hj.
  rewrite matmul_vv_Csum
    by (unfold conj, column; rewrite !length_map; congruence).
  unfold conj at 1. rewrite length_map, Ls, Csum_mul_r.
  apply Csum_ext. intros i Hi. rewrite nth_conj, nth_column. reflexivity.
Qed.

Lemma compute_E_conj (n : nat) (H : list (list C)) (s : list C) :
  hermitian n H -> length s = n -> Cconj (compute_E s H) = compute_E s H.
Proof.
  intros Hh Ls. rewrite (compute_E_Csum n H s Hh Ls).
  destruct Hh as [_ [_ Hherm]].
  rewrite Csum_conj.
  rewrite (Csum_ext n _ (fun j => Csum n (fun i =>
             Cmul (Cmul (Cconj (nth j s C0)) (entry H j i)) (nth i s C0)))).
  - apply Csum_swap.
  - intros j Hj. rewrite Csum_conj. apply Csum_ext. intros i Hi.
    rewrite !Cconj_mul, Cconj_conj, <- (Hherm j i Hj Hi).
    generalize (nth i s C0) (entry H j i) (nth j s C0). intros x y z. cx_ring.
Qed.

(** C6.  For a Hermitian matrix [H] and a state [s] of its dimension,
    [compute_E] computes [conj(s)^T . H . s], the expected energy that
    the engine uses ([compute_vqe_E]) is its real part, the imaginary
    part is zero, and so the energy is the whole inner product. *)
Theorem expected_energy_hermitian {B : Backend} (self : vqe) (param : list R)
    (n : nat) (H : list (list C)) (s : list C) :
  hermitian n H -> length s = n ->
  compute_E s H
    = Csum n (fun j => Csum n (fun i =>
        Cmul (Cmul (Cconj (nth i s C0)) (entry H i j)) (nth j s C0))) /\
  Im (compute_E s H) = 0 /\
  RtoC (Re (compute_E s H)) = compute_E s H /\
  compute_vqe_E self param H = Re (compute_E (vqe_state self param) H) /\
  (s = vqe_state self param ->
   RtoC (compute_vqe_E self param H) = compute_E s H).
Proof.
  intros Hh Ls.
  assert (Him : Im (compute_E s H) = 0)
    by (apply Cconj_fixed_Im, (compute_E_conj n); assumption).
  assert (Hre : RtoC (Re (compute_E s H)) = compute_E s H).
  { destruct (compute_E s H) as [x y]. unfold RtoC, Re, Im in *. simpl in *.
    rewrite Him. reflexivity. }
  repeat split; try assumption.
  - apply compute_E_Csum; assumption.
  - intros ->. exact Hre.
Qed.

Lemma hermitian_diag (a d : R) : hermitian 2 (OneQubit.diag a d).
Proof.
  split; [reflexivity|]. split.
  - intros row [<-|[<-|[]]]; reflexivity.
  - intros i j Hi Hj.
    destruct i as [|[|i]]; destruct j as [|[|j]]; try lia;
      unfold entry, OneQubit.diag, Cconj, RtoC, C0; simpl; f_equal; ring.
Qed.

Lemma expected_energy_hermitian_witness :
  Im (compute_E [C1; C0] (OneQubit.diag 1 (-1))) = 0.
Proof.
  apply (expected_energy_hermitian
           (OneQubit.engine OneQubit.never
              (OneQubit.hamiltonians [OneQubit.diag 1 (-1)] [-1] [0%nat]) [[0]])
           [0] 2 (OneQubit.diag 1 (-1)) [C1; C0]
           (hermitian_diag 1 (-1)) eq_refl).
Defined.

(** ** The loss of the independent mode *)

Lemma Rsum_Permutation (l l' : list R) : Permutation l l' -> Rsum l = Rsum l'.
Proof.
  unfold Rsum. induction 1; simpl; lra.
Qed.

Lemma mean_Permutation (l l' : list R) : Permutation l l' -> mean l = mean l'.
Proof.
  intros HP. pose proof (Rsum_Permutation l l' HP) as Hs.
  pose proof (Permutation_length HP) as Hl.
  destruct l as [|x l]; destruct l' as [|y l']; try discriminate; [reflexivity|].
  unfold mean. rewrite Hs, Hl. reflexivity.
Qed.

Lemma vmap2_map_l {A A' B D : Type} (f : A' -> B -> D) (g : A -> A')
    (xs : list A) (ys : list B) :
  vmap2 f (map g xs) ys = vmap2 (fun x y => f (g x) y) xs ys.
Proof.
  unfold vmap2. revert ys. induction xs as [|x xs IH]; intros [|y ys]; simpl;
    try reflexivity.
  f_equal. apply IH.
Qed.

Section Loss.
Context {B : Backend}.

(** The energies of the grid, point by point. *)
Lemma v_compute_vqe_E_combine (self : vqe) (params : list (list R)) :
  v_compute_vqe_E self params
  = map (fun ph => compute_vqe_E self (fst ph) (snd ph))
        (combine params (mat_Hs (vqe_Hs self))).
Proof.
  unfold v_compute_vqe_E, v_compute_E, v_vqe_state.
  rewrite vmap2_map_l. unfold vmap2. rewrite map_map. reflexivity.
Qed.

Lemma loss_reg0 (self : vqe) (params : list (list R)) :
  loss self 0 params = mean (v_compute_vqe_E self params).
Proof.
  unfold loss. destruct (Req_dec_T 0 0) as [_|N]; [reflexivity|].
  exfalso. apply N. reflexivity.
Qed.

Lemma loss_regn0 (self : vqe) (reg : R) (params : list (list R)) :
  reg <> 0 ->
  loss self reg params
  = scalar_add (mean (v_compute_vqe_E self params))
      (scalar_mul (Some reg)
         (vqe_fidelties_neighbouring (v_vqe_state self params))).
Proof.
  intros N. unfold loss. destruct (Req_dec_T reg 0) as [E|_]; [contradiction|].
  reflexivity.
Qed.

Lemma energies_reordered (self : vqe) (params params' : list (list R))
    (Hmats' : list (list (list C))) :
  Permutation (combine params (mat_Hs (vqe_Hs self))) (combine params' Hmats') ->
  mean (v_compute_vqe_E self params)
  = mean (v_compute_vqe_E (with_mat_Hs self Hmats') params').
Proof.
  intros HP. rewrite !v_compute_vqe_E_combine. apply mean_Permutation.
  change (mat_Hs (vqe_Hs (with_mat_Hs self Hmats'))) with Hmats'.
  apply (Permutation_map (fun ph => compute_vqe_E self (fst ph) (snd ph))).
  exact HP.
Qed.

(** Two orderings of one grid whose penalties differ. *)
Lemma penalty_reordered (f : list C -> list C -> R) (sp sq : list C)
    (rest : list (list C)) :
  f sp sp <> f sp sq ->
  exists u v,
    mean (vmap2 f (removelast (sq :: sp :: sp :: rest)) (tl (sq :: sp :: sp :: rest)))
      = Some u /\
    mean (vmap2 f (removelast (sp :: sq :: sp :: rest)) (tl (sp :: sq :: sp :: rest)))
      = Some v /\
    u <> v.
Proof.
  intros Hne. rewrite !neighbours_cons.
  set (T := vmap2 f (removelast (sp :: rest)) (tl (sp :: rest))).
  eexists. eexists. split; [reflexivity|]. split; [reflexivity|].
  simpl length. set (k := INR (S (S (length T)))).
  assert (Hk : k <> 0) by (apply not_0_INR; discriminate).
  simpl Rsum. fold (Rsum T). intros E.
  apply Hne. apply (Rmult_eq_compat_r k) in E.
  unfold Rdiv in E. rewrite !Rmult_assoc, !Rinv_l, !Rmult_1_r in E by exact Hk.
  lra.
Qed.

(** With a regulariser two orderings of one grid have the same loss
    exactly when they have the same penalty. *)
Lemma loss_reordered (self : vqe) (reg : R) (params params' : list (list R))
    (Hmats' : list (list (list C))) :
  reg <> 0 ->
  length params = length (mat_Hs (vqe_Hs self)) ->
  length params' = length Hmats' ->
  Permutation (combine params (mat_Hs (vqe_Hs self))) (combine params' Hmats') ->
  (loss self reg params = loss (with_mat_Hs self Hmats') reg params' <->
   vqe_fidelties_neighbouring (v_vqe_state self params)
   = vqe_fidelties_neighbouring (v_vqe_state self params')).
Proof.
  intros Hreg Hlen Hlen' HP.
  rewrite !loss_regn0 by exact Hreg.
  rewrite <- (energies_reordered self _ _ _ HP).
  change (v_vqe_state (with_mat_Hs self Hmats')) with (v_vqe_state self).
  destruct params as [|p params].
  - assert (E : params' = []).
    { cbn [combine] in HP. apply Permutation_nil in HP.
      destruct params' as [|p' params']; [reflexivity|].
      destruct Hmats'; discriminate. }
    subst params'. split; reflexivity.
  - destruct (mat_Hs (vqe_Hs self)) as [|H0 Hmats] eqn:EH; [discriminate|].
    rewrite v_compute_vqe_E_combine, EH. cbn [combine map mean scalar_add].
    destruct (vqe_fidelties_neighbouring (v_vqe_state self (p :: params)))
      as [u|];
      destruct (vqe_fidelties_neighbouring (v_vqe_state self params'))
        as [v|]; cbn [scalar_mul scalar_add NaN];
      split; intros E; try discriminate; try reflexivity.
    + injection E as E. f_equal.
      apply Rmult_eq_reg_l with reg; [lra | exact Hreg].
    + injection E as ->. reflexivity.
Qed.

(** A grid of two points or fewer has one loss, whatever the order and
    the regulariser. *)
Lemma loss_small_grid (self : vqe) (reg : R) (params params' : list (list R))
    (Hmats' : list (list (list C))) :
  (length (mat_Hs (vqe_Hs self)) <= 2)%nat ->
  length params = length (mat_Hs (vqe_Hs self)) ->
  length params' = length Hmats' ->
  Permutation (combine params (mat_Hs (vqe_Hs self))) (combine params' Hmats') ->
  loss self reg params = loss (with_mat_Hs self Hmats') reg params'.
Proof.
  intros Hsmall Hlen Hlen' HP.
  destruct (Req_dec_T reg 0) as [->|Hreg].
  - rewrite !loss_reg0. apply energies_reordered, HP.
  - apply loss_reordered; try assumption.
    destruct (mat_Hs (vqe_Hs self)) as [|H0 [|H1 [|H2 Hmats]]];
      cbn [length] in Hsmall; try lia.
    + destruct params; [|discriminate]. cbn [combine] in HP.
      apply Permutation_nil in HP.
      destruct params' as [|p' params']; [reflexivity|].
      destruct Hmats'; discriminate.
    + destruct params as [|p0 [|p1 params]]; try discriminate.
      cbn [combine] in HP. apply Permutation_length_1_inv in HP.
      destruct params' as [|a [|b params']]; destruct Hmats' as [|A [|A' Hmats']];
        try discriminate.
      injection HP as -> ->. reflexivity.
    + destruct params as [|p0 [|p1 [|p2 params]]]; try discriminate.
      cbn [combine] in HP. apply Permutation_length_2_inv in HP.
      destruct params' as [|a [|b [|c params']]];
        destruct Hmats' as [|A [|A' [|A'' Hmats']]];
        try discriminate; destruct HP as [HP|HP]; try discriminate.
      * injection HP as -> -> -> ->. reflexivity.
      * injection HP as -> -> -> ->.
        unfold vqe_fidelties_neighbouring, v_vqe_state, vmap2.
        cbn [map removelast tl combine fst snd].
        rewrite (vqe_fidelty_sym (vqe_state self p0) (vqe_state self p1)).
        reflexivity.
Qed.

End Loss.

(** C3.  The loss of the independent mode is the mean energy of the grid,
    plus [reg] times the neighbouring penalty exactly when [reg] is not
    zero.  With [reg = 0] it has the same value on any reordering of the
    grid, parameters and Hamiltonians reordered together.  With [reg]
    not zero two orderings have different losses exactly when they have
    different penalties.  That is the case of no parameter tensor on a
    grid of two points or fewer; on a grid of three points or more it is
    the case of some parameter tensor and some reordering, whenever the
    circuit can prepare two states [sp], [sq] whose fidelity is not that
    of [sp] with itself. *)
Theorem independent_loss {B : Backend} (self : vqe) (reg : R) :
  (forall params,
     loss self reg params
     = if Req_dec_T reg 0 then mean (v_compute_vqe_E self params)
       else scalar_add (mean (v_compute_vqe_E self params))
              (scalar_mul (Some reg)
                 (vqe_fidelties_neighbouring (v_vqe_state self params)))) /\
  (forall params params' Hmats',
     length params = length (mat_Hs (vqe_Hs self)) ->
     length params' = length Hmats' ->
     Permutation (combine params (mat_Hs (vqe_Hs self))) (combine params' Hmats') ->
     loss self 0 params = loss (with_mat_Hs self Hmats') 0 params') /\
  (reg <> 0 ->
   forall params params' Hmats',
     length params = length (mat_Hs (vqe_Hs self)) ->
     length params' = length Hmats' ->
     Permutation (combine params (mat_Hs (vqe_Hs self))) (combine params' Hmats') ->
     (loss self reg params <> loss (with_mat_Hs self Hmats') reg params' <->
      vqe_fidelties_neighbouring (v_vqe_state self params)
      <> vqe_fidelties_neighbouring (v_vqe_state self params'))) /\
  ((length (mat_Hs (vqe_Hs self)) <= 2)%nat ->
   forall params params' Hmats',
     length params = length (mat_Hs (vqe_Hs self)) ->
     length params' = length Hmats' ->
     Permutation (combine params (mat_Hs (vqe_Hs self))) (combine params' Hmats') ->
     loss self reg params = loss (with_mat_Hs self Hmats') reg params') /\
  (reg <> 0 ->
   (3 <= length (mat_Hs (vqe_Hs self)))%nat ->
   forall p q,
     vqe_fidelty (vqe_state self p) (vqe_state self p)
       <> vqe_fidelty (vqe_state self p) (vqe_state self q) ->
     exists params params' Hmats',
       length params = length (mat_Hs (vqe_Hs self)) /\
       length params' = length Hmats' /\
       Permutation (combine params (mat_Hs (vqe_Hs self))) (combine params' Hmats') /\
       loss self reg params <> loss (with_mat_Hs self Hmats') reg params').
Proof.
  split; [|split; [|split; [|split]]].
  - intros params. unfold loss. destruct (Req_dec_T reg 0); reflexivity.
  - intros params params' Hmats' _ _ HP.
    rewrite !loss_reg0. apply energies_reordered. exact HP.
  - intros Hreg params params' Hmats' Hlen Hlen' HP.
    pose proof (loss_reordered self reg params params' Hmats' Hreg Hlen Hlen' HP)
      as Hiff.
    split; intros Hne E; apply Hne; apply Hiff; exact E.
  - intros Hsmall params params' Hmats' Hlen Hlen' HP.
    apply loss_small_grid; assumption.
  - intros Hreg Hlen p q Hpq.
    destruct (mat_Hs (vqe_Hs self)) as [|H0 [|H1 [|H2 Hrest]]] eqn:EH;
      simpl in Hlen; try lia.
    set (rest := repeat p (length Hrest)).
    exists (q :: p :: p :: rest), (p :: q :: p :: rest), (H1 :: H0 :: H2 :: Hrest).
    assert (Lr : length rest = length Hrest) by apply repeat_length.
    split; [simpl; congruence|]. split; [simpl; congruence|].
    assert (HP : Permutation (combine (q :: p :: p :: rest) (H0 :: H1 :: H2 :: Hrest))
                   (combine (p :: q :: p :: rest) (H1 :: H0 :: H2 :: Hrest)))
      by (simpl; apply perm_swap).
    split; [exact HP|].
    rewrite !loss_regn0 by exact Hreg.
    rewrite <- EH in HP.
    rewrite <- (energies_reordered self _ _ _ HP).
    destruct (penalty_reordered vqe_fidelty (vqe_state self p) (vqe_state self q)
                (map (vqe_state self) rest) Hpq) as [u [v [Eu [Ev Huv]]]].
    unfold vqe_fidelties_neighbouring.
    change (v_vqe_state (with_mat_Hs self (H1 :: H0 :: H2 :: Hrest)))
      with (v_vqe_state self).
    unfold v_vqe_state. simpl map. rewrite Eu, Ev.
    rewrite v_compute_vqe_E_combine, EH. simpl combine. simpl map.
    simpl. intros E. injection E as E. apply Huv.
    apply Rmult_eq_reg_l with reg; [lra | exact Hreg].
Qed.

(** C3 as it is stated fails: with [reg > 0] it is not for every
    parameter tensor and grid that some ordering changes the loss.  On
    the grid of two points, with [reg = 1], the loss is a number and
    every reordering of the grid has that same loss. *)
Lemma independent_loss_counterexample :
  0 < 1 /\
  (exists v, loss two_points 1 (vqe_params two_points) = Some v) /\
  forall params' Hmats',
    length params' = length Hmats' ->
    Permutation
      (combine (vqe_params two_points) (mat_Hs (vqe_Hs two_points)))
      (combine params' Hmats') ->
    loss (with_mat_Hs two_points Hmats') 1 params'
    = loss two_points 1 (vqe_params two_points).
Proof.
  split; [lra|]. split.
  - rewrite loss_regn0 by lra. eexists. reflexivity.
  - intros params' Hmats' Hlen' HP. symmetry.
    apply loss_small_grid; [cbn; lia | reflexivity | exact Hlen' | exact HP].
Qed.

Lemma rx_state_0 : OneQubit.rx_state (0 + 0) = [(1, 0); (0, - 0)].
Proof.
  unfold OneQubit.rx_state. replace ((0 + 0) / 2) with 0 by lra.
  rewrite cos_0, sin_0. reflexivity.
Qed.

Lemma rx_state_PI : OneQubit.rx_state (PI + 0) = [(0, 0); (0, - 1)].
Proof.
  unfold OneQubit.rx_state. replace ((PI + 0) / 2) with (PI / 2) by lra.
  rewrite cos_PI2, sin_PI2. reflexivity.
Qed.

Lemma rx_states_differ :
  vqe_fidelty (OneQubit.rx_state (0 + 0)) (OneQubit.rx_state (0 + 0))
  <> vqe_fidelty (OneQubit.rx_state (0 + 0)) (OneQubit.rx_state (PI + 0)).
Proof.
  rewrite rx_state_0, rx_state_PI, !vqe_fidelty_norm2.
  unfold Cnorm2, conj, Cconj, Cmul, Cadd, C0, Re, Im. simpl. lra.
Qed.

Lemma independent_loss_witness :
  let self :=
    OneQubit.engine OneQubit.never
      (OneQubit.hamiltonians
         [OneQubit.diag 1 (-1); OneQubit.diag 1 (-1); OneQubit.diag 0 0]
         [-1; -1; 0] [0; 1; 2]%nat)
      [[0]; [0]; [0]] in
  (exists params params' Hmats',
     length params = 3%nat /\
     length params' = length Hmats' /\
     Permutation (combine params (mat_Hs (vqe_Hs self))) (combine params' Hmats') /\
     loss self 0 params = loss (with_mat_Hs self Hmats') 0 params' /\
     loss self 1 params <> loss (with_mat_Hs self Hmats') 1 params' /\
     vqe_fidelties_neighbouring (v_vqe_state self params)
     <> vqe_fidelties_neighbouring (v_vqe_state self params')) /\
  loss two_points 1 [[0]; [PI]]
  = loss (with_mat_Hs two_points [OneQubit.diag 1 (-1); OneQubit.diag 0 0]) 1
      [[PI]; [0]].
Proof.
  intros self. split.
  - destruct (independent_loss self 1) as [_ [_ [Hiff [_ Hc]]]].
    destruct (Hc R1_neq_R0 (le_n 3) [0] [PI] rx_states_differ)
      as [params [params' [Hmats' [L [L' [HP Hne]]]]]].
    exists params, params', Hmats'.
    split; [exact L|]. split; [exact L'|]. split; [exact HP|].
    split; [|split; [exact Hne|]].
    + destruct (independent_loss self 0) as [_ [Hb _]].
      apply Hb; assumption.
    + apply (Hiff R1_neq_R0 params params' Hmats' L L' HP). exact Hne.
  - destruct (independent_loss two_points 1) as [_ [_ [_ [Hsmall _]]]].
    apply Hsmall.
    + cbn. lia.
    + reflexivity.
    + reflexivity.
    + cbn [combine two_points OneQubit.engine OneQubit.hamiltonians vqe_Hs
           mat_Hs]. apply perm_swap.
Defined.

(** ** Reference states *)

Lemma argmin_from_spec (l : list R) (best : R) (besti i : nat) :
  let r := argmin_from best besti i l in
  (r = besti /\ forall x, In x l -> best <= x) \/
  (exists j, (j < length l)%nat /\ r = (i + j)%nat /\ nth j l 0 < best /\
             (forall x, In x l -> nth j l 0 <= x) /\
             (forall j', (j' < j)%nat -> nth j l 0 < nth j' l 0)).
Proof.
  revert best besti i. induction l as [|x l IH]; intros best besti i; simpl.
  - left. split; [reflexivity|]. intros x [].
  - destruct (Rlt_dec x best) as [Hlt|Hge].
    + right. destruct (IH x i (S i)) as [[Hr Hall]|[j [Hj [Hr [Hb [Hall Hfirst]]]]]].
      * exists O. split; [lia|]. split; [lia|]. split; [exact Hlt|]. split.
        -- intros y [<-|Hy]; [lra | apply Hall, Hy].
        -- intros j' Hj'. lia.
      * exists (S j). split; [lia|]. split; [lia|]. split; [simpl; lra|]. split.
        -- intros y [<-|Hy]; [simpl; lra | apply Hall, Hy].
        -- intros [|j'] Hj'; simpl; [lra | apply Hfirst; lia].
    + destruct (IH best besti (S i)) as [[Hr Hall]|[j [Hj [Hr [Hb [Hall Hfirst]]]]]].
      * left. split; [exact Hr|]. intros y [<-|Hy]; [lra | apply Hall, Hy].
      * right. exists (S j). split; [lia|]. split; [lia|]. split; [exact Hb|]. split.
        -- intros y [<-|Hy]; [simpl; lra | apply Hall, Hy].
        -- intros [|j'] Hj'; simpl; [lra | apply Hfirst; lia].
Qed.

(** [argmin] of a non-empty array is the first index of a least entry. *)
Lemma argmin_spec (l : list R) :
  l <> [] ->
  exists k, argmin l = Some k /\ (k < length l)%nat /\
    (forall j, (j < length l)%nat -> nth k l 0 <= nth j l 0) /\
    (forall j, (j < k)%nat -> nth k l 0 < nth j l 0).
Proof.
  intros Hne. destruct l as [|x l]; [congruence|]. simpl.
  destruct (argmin_from_spec l x 0 1) as [[Hr Hall]|[j [Hj [Hr [Hb [Hall Hfirst]]]]]].
  - exists O. split; [f_equal; exact Hr|]. split; [lia|]. split.
    + intros [|j] Hj; simpl; [lra|]. apply Hall, nth_In. lia.
    + intros j Hj. lia.
  - exists (S j). split; [f_equal; rewrite Hr; reflexivity|]. split; [lia|]. split.
    + intros [|j'] Hj'; simpl; [lra|]. apply Hall, nth_In. lia.
    + intros [|j'] Hj'; simpl; [lra | apply Hfirst; lia].
Qed.

Lemma vmap_opt_length {A D : Type} (f : A -> option D) (xs : list A) (ys : list D) :
  vmap_opt f xs = Some ys -> length ys = length xs.
Proof.
  revert ys. induction xs as [|x xs IH]; intros ys; simpl.
  - intros E. injection E as <-. reflexivity.
  - destruct (f x); [|discriminate]. destruct (vmap_opt f xs); [|discriminate].
    intros E. injection E as <-. simpl. f_equal. apply IH. reflexivity.
Qed.

Lemma vmap_opt_nth {A D : Type} (f : A -> option D) (xs : list A) (ys : list D) :
  vmap_opt f xs = Some ys ->
  forall i x, nth_error xs i = Some x ->
    exists y, nth_error ys i = Some y /\ f x = Some y.
Proof.
  revert ys. induction xs as [|x0 xs IH]; intros ys; simpl.
  - intros _ [|i] x E; discriminate.
  - destruct (f x0) as [y0|] eqn:E0; [|discriminate].
    destruct (vmap_opt f xs) as [ys'|]; [|discriminate].
    intros E. injection E as <-. intros [|i] x Hx; simpl in *.
    + injection Hx as <-. exists y0. split; [reflexivity | exact E0].
    + apply (IH ys' eq_refl). exact Hx.
Qed.

Lemma vmap_opt_total {A D : Type} (f : A -> option D) (xs : list A) :
  (forall x, In x xs -> f x <> None) -> exists ys, vmap_opt f xs = Some ys.
Proof.
  induction xs as [|x xs IH]; intros H; simpl.
  - eexists. reflexivity.
  - destruct (f x) as [y|] eqn:E; [|exfalso; apply (H x); [left; reflexivity | exact E]].
    destruct IH as [ys ->]; [intros z Hz; apply H; right; exact Hz|].
    eexists. reflexivity.
Qed.

Section Reference.
Context {B : Backend}.

(** The state that [compute_true_state] returns for one matrix. *)
Lemma compute_true_state_spec (d : nat) (H : list (list C)) :
  (0 < d)%nat -> eigh_contract B d H ->
  exists k, argmin (fst (eigh H)) = Some k /\ (k < d)%nat /\
    compute_true_state H = Some (column k (snd (eigh H))) /\
    (forall j, (j < d)%nat -> nth k (fst (eigh H)) 0 <= nth j (fst (eigh H)) 0) /\
    (forall j, (j < k)%nat -> nth k (fst (eigh H)) 0 < nth j (fst (eigh H)) 0) /\
    unit_norm (column k (snd (eigh H))) /\
    matmul_mv H (column k (snd (eigh H)))
      = scale (RtoC (nth k (fst (eigh H)) 0)) (column k (snd (eigh H))).
Proof.
  intros Hd Hc. unfold eigh_contract, compute_true_state in *.
  destruct (eigh H) as [eigval eigvec]. simpl.
  destruct Hc as [Lval [Lvec [Hrows [Hcol Horth]]]].
  destruct (argmin_spec eigval) as [k [Ek [Hk [Hmin Hfirst]]]].
  { intros E. rewrite E in Lval. simpl in Lval. lia. }
  rewrite Lval in Hk, Hmin.
  exists k. rewrite Ek. destruct (Hcol k Hk) as [Hu He].
  repeat split; assumption.
Qed.

End Reference.

(** The eigenvectors of [diag(1, -1)]: whatever orthonormal eigenbasis
    [eigh] returns, the column of the least eigenvalue is [[0, x]] with
    [|x| = 1], and that eigenvalue is [-1]. *)
Lemma eigen_entry_zero (l s x : R) : s * x = l * x -> l <> s -> x = 0.
Proof.
  intros E N. assert (E' : (s - l) * x = 0) by lra.
  apply Rmult_integral in E'. destruct E' as [E'|E']; [exfalso; lra | exact E'].
Qed.

Lemma ground_state_diag (l0 l1 : R) (a b c e : C) (k : nat) :
  unit_norm [a; c] -> unit_norm [b; e] ->
  matmul_mv (OneQubit.diag 1 (-1)) [a; c] = scale (RtoC l0) [a; c] ->
  matmul_mv (OneQubit.diag 1 (-1)) [b; e] = scale (RtoC l1) [b; e] ->
  matmul_vv (conj [a; c]) [b; e] = C0 ->
  argmin [l0; l1] = Some k ->
  exists x, Cnorm2 x = 1 /\ column k [[a; b]; [c; e]] = [C0; x] /\ nth k [l0; l1] 0 = -1.
Proof.
  intros Ua Ub Ea Eb Ho Hk.
  unfold unit_norm, norm2 in Ua, Ub. 
  destruct a as [a1 a2], b as [b1 b2], c as [c1 c2], e as [e1 e2].
  unfold matmul_mv, OneQubit.diag, scale, conj, Cnorm2, Cmul, Cadd, Cconj, RtoC,
    C0, Re, Im in *.
  simpl in *.
  injection Ea as Ea1 Ea2 Ea3 Ea4. injection Eb as Eb1 Eb2 Eb3 Eb4.
  injection Ho as Ho1 Ho2.
  assert (A1 : 1 * a1 = l0 * a1) by lra. assert (A2 : 1 * a2 = l0 * a2) by lra.
  assert (C1' : -1 * c1 = l0 * c1) by lra. assert (C2' : -1 * c2 = l0 * c2) by lra.
  assert (B1 : 1 * b1 = l1 * b1) by lra. assert (B2 : 1 * b2 = l1 * b2) by lra.
  assert (E1 : -1 * e1 = l1 * e1) by lra. assert (E2 : -1 * e2 = l1 * e2) by lra.
  clear Ea1 Ea2 Ea3 Ea4 Eb1 Eb2 Eb3 Eb4.
  assert (Orth : (a1 * a1 + a2 * a2) * (b1 * b1 + b2 * b2)
                 = (c1 * e1 + c2 * e2) * (c1 * e1 + c2 * e2)
                   + (c1 * e2 - c2 * e1) * (c1 * e2 - c2 * e1)).
  { assert (X : a1 * b1 + a2 * b2 = - (c1 * e1 + c2 * e2)) by lra.
    assert (Y : a1 * b2 - a2 * b1 = - (c1 * e2 - c2 * e1)) by lra.
    replace ((a1 * a1 + a2 * a2) * (b1 * b1 + b2 * b2))
      with ((a1 * b1 + a2 * b2) * (a1 * b1 + a2 * b2)
            + (a1 * b2 - a2 * b1) * (a1 * b2 - a2 * b1)) by ring.
    rewrite X, Y. ring. }
  destruct (Rlt_dec l1 l0) as [Hlt|Hge]; injection Hk as <-.
  - (* the second eigenvalue is the least *)
    destruct (Req_dec_T l1 (-1)) as [L1|L1].
    + exists (e1, e2). simpl.
      assert (b1 = 0) by (apply (eigen_entry_zero l1 1); [exact B1 | lra]).
      assert (b2 = 0) by (apply (eigen_entry_zero l1 1); [exact B2 | lra]).
      subst b1 b2. split; [lra|]. split; [reflexivity | exact L1].
    + exfalso.
      assert (e1 = 0) by (apply (eigen_entry_zero l1 (-1)); assumption).
      assert (e2 = 0) by (apply (eigen_entry_zero l1 (-1)); assumption).
      subst e1 e2.
      assert (Hl1 : l1 = 1).
      { destruct (Req_dec_T l1 1) as [E|N]; [exact E|]. exfalso.
        assert (b1 = 0) by (apply (eigen_entry_zero l1 1); assumption).
        assert (b2 = 0) by (apply (eigen_entry_zero l1 1); assumption).
        subst. lra. }
      assert (a1 = 0) by (apply (eigen_entry_zero l0 1); [exact A1 | lra]).
      assert (a2 = 0) by (apply (eigen_entry_zero l0 1); [exact A2 | lra]).
      assert (c1 = 0) by (apply (eigen_entry_zero l0 (-1)); [exact C1' | lra]).
      assert (c2 = 0) by (apply (eigen_entry_zero l0 (-1)); [exact C2' | lra]).
      subst. lra.
  - (* the first eigenvalue is the least *)
    destruct (Req_dec_T l0 (-1)) as [L0|L0].
    + exists (c1, c2). simpl.
      assert (a1 = 0) by (apply (eigen_entry_zero l0 1); [exact A1 | lra]).
      assert (a2 = 0) by (apply (eigen_entry_zero l0 1); [exact A2 | lra]).
      subst a1 a2. split; [lra|]. split; [reflexivity | exact L0].
    + exfalso.
      assert (c1 = 0) by (apply (eigen_entry_zero l0 (-1)); assumption).
      assert (c2 = 0) by (apply (eigen_entry_zero l0 (-1)); assumption).
      subst c1 c2.
      assert (Hl0 : l0 = 1).
      { destruct (Req_dec_T l0 1) as [E|N]; [exact E|]. exfalso.
        assert (a1 = 0) by (apply (eigen_entry_zero l0 1); assumption).
        assert (a2 = 0) by (apply (eigen_entry_zero l0 1); assumption).
        subst. lra. }
      assert (e1 = 0) by (apply (eigen_entry_zero l1 (-1)); [exact E1 | lra]).
      assert (e2 = 0) by (apply (eigen_entry_zero l1 (-1)); [exact E2 | lra]).
      subst e1 e2.
      assert (HA : a1 * a1 + a2 * a2 = 1) by lra.
      assert (HB : b1 * b1 + b2 * b2 = 1) by lra.
      rewrite HA, HB in Orth. lra.
Qed.

Lemma phase_ket1 (x : C) : scale x [C0; C1] = [C0; x].
Proof.
  destruct x as [x1 x2]. unfold scale, Cmul, C0, C1, Re, Im. simpl.
  f_equal; [|f_equal]; f_equal; ring.
Qed.

Lemma energy_ket1 (x : C) :
  Cnorm2 x = 1 -> Re (compute_E [C0; x] (OneQubit.diag 1 (-1))) = -1.
Proof.
  destruct x as [x1 x2].
  unfold compute_E, matmul_vm, column, conj, OneQubit.diag, Cnorm2, Cmul, Cadd,
    Cconj, RtoC, C0, Re, Im.
  simpl. intros E.
  transitivity (- (x1 * x1 + x2 * x2)); [ring | lra].
Qed.

(** C7.  When the batched diagonalisation returns, [true_states] has one
    state per Hamiltonian of the grid, in the order of the grid; the
    state of a Hamiltonian is the column of [eigh]'s eigenvectors at the
    first index of the least eigenvalue, a unit eigenvector of that
    eigenvalue, and equal eigenvalues do not make the computation fail.
    For [diag(1, -1)] it is [[0, 1]] up to a phase, of energy [-1]. *)
Theorem reference_computation {B : Backend} (d : nat)
    (Hmats : list (list (list C))) :
  jit_sound B -> (0 < d)%nat ->
  jit jv_compute_true_state_id (vmap_opt compute_true_state) 0%nat Hmats <> None ->
  (forall H, In H Hmats -> eigh_contract B d H) ->
  exists true_st,
    jv_compute_true_state Hmats = Some true_st /\
    length true_st = length Hmats /\
    (forall i H, nth_error Hmats i = Some H ->
       exists k,
         argmin (fst (eigh H)) = Some k /\ (k < d)%nat /\
         nth_error true_st i = Some (column k (snd (eigh H))) /\
         (forall j, (j < d)%nat ->
            nth k (fst (eigh H)) 0 <= nth j (fst (eigh H)) 0) /\
         (forall j, (j < k)%nat ->
            nth k (fst (eigh H)) 0 < nth j (fst (eigh H)) 0) /\
         unit_norm (column k (snd (eigh H))) /\
         matmul_mv H (column k (snd (eigh H)))
           = scale (RtoC (nth k (fst (eigh H)) 0)) (column k (snd (eigh H)))) /\
    (d = 2%nat ->
     forall i, nth_error Hmats i = Some (OneQubit.diag 1 (-1)) ->
       exists c k,
         Cabs c = 1 /\
         nth_error true_st i = Some (scale c [C0; C1]) /\
         argmin (fst (eigh (OneQubit.diag 1 (-1)))) = Some k /\
         nth k (fst (eigh (OneQubit.diag 1 (-1)))) 0 = -1 /\
         Re (compute_E (scale c [C0; C1]) (OneQubit.diag 1 (-1))) = -1).
Proof.
  intros Hjit Hd Hrun Hc.
  assert (Hall : forall H, In H Hmats -> compute_true_state H <> None).
  { intros H HH. destruct (compute_true_state_spec d H Hd (Hc H HH))
      as [k [_ [_ [E _]]]]. rewrite E. discriminate. }
  destruct (vmap_opt_total _ _ Hall) as [true_st Et].
  unfold jv_compute_true_state.
  destruct (jit jv_compute_true_state_id (vmap_opt compute_true_state) 0%nat Hmats)
    as [r|] eqn:Ej; [|contradiction].
  apply Hjit in Ej. subst r. exists true_st.
  split; [exact Et|]. split; [apply (vmap_opt_length _ _ _ Et)|].
  assert (Hpoint : forall i H, nth_error Hmats i = Some H ->
            exists k,
              argmin (fst (eigh H)) = Some k /\ (k < d)%nat /\
              nth_error true_st i = Some (column k (snd (eigh H))) /\
              (forall j, (j < d)%nat ->
                 nth k (fst (eigh H)) 0 <= nth j (fst (eigh H)) 0) /\
              (forall j, (j < k)%nat ->
                 nth k (fst (eigh H)) 0 < nth j (fst (eigh H)) 0) /\
              unit_norm (column k (snd (eigh H))) /\
              matmul_mv H (column k (snd (eigh H)))
                = scale (RtoC (nth k (fst (eigh H)) 0)) (column k (snd (eigh H)))).
  { intros i H Hi.
    destruct (vmap_opt_nth _ _ _ Et i H Hi) as [g [Hg Eg]].
    destruct (compute_true_state_spec d H Hd (Hc H (nth_error_In _ _ Hi)))
      as [k [Ek [Hk [E [Hmin [Hfirst [Hu He]]]]]]].
    exists k. rewrite Hg. rewrite E in Eg. injection Eg as <-.
    repeat split; assumption. }
  split; [exact Hpoint|].
  intros -> i Hi.
  destruct (Hpoint i _ Hi) as [k [Ek [Hk [Hg _]]]].
  pose proof (Hc _ (nth_error_In _ _ Hi)) as Hcon.
  unfold eigh_contract in Hcon.
  destruct (eigh (OneQubit.diag 1 (-1))) as [eigval eigvec]. cbn [fst snd] in *.
  destruct Hcon as [Lval [Lvec [Hrows [Hcol Horth]]]].
  destruct eigval as [|l0 [|l1 [|? ?]]]; try discriminate.
  destruct eigvec as [|r0 [|r1 [|? ?]]]; try discriminate.
  assert (L0 : length r0 = 2%nat) by (apply Hrows; left; reflexivity).
  assert (L1 : length r1 = 2%nat) by (apply Hrows; right; left; reflexivity).
  destruct r0 as [|a [|b [|? ?]]]; try discriminate.
  destruct r1 as [|c [|e [|? ?]]]; try discriminate.
  destruct (Hcol 0%nat ltac:(lia)) as [U0 E0].
  destruct (Hcol 1%nat ltac:(lia)) as [U1 E1].
  pose proof (Horth 0%nat 1%nat ltac:(lia) ltac:(lia) ltac:(lia)) as Ho.
  destruct (ground_state_diag l0 l1 a b c e k U0 U1 E0 E1 Ho Ek)
    as [x [Hx [Ecol Hval]]].
  exists x, k. rewrite phase_ket1.
  split; [unfold Cabs; rewrite Hx; apply sqrt_1|].
  split; [rewrite Hg, Ecol; reflexivity|].
  split; [exact Ek|]. split; [exact Hval|].
  apply energy_ket1, Hx.
Qed.

(** The one-qubit backend keeps what the libraries promise. *)
Lemma OneQubit_jit_sound (fails : jitted -> nat -> bool) :
  jit_sound (OneQubit.backend fails).
Proof.
  intros X Y id f k x y. simpl. destruct (fails id k); [discriminate|].
  intros E. injection E as <-. reflexivity.
Qed.

Lemma OneQubit_random_sample_range (fails : jitted -> nat -> bool) :
  random_sample_range (OneQubit.backend fails).
Proof.
  intros g. simpl. destruct g as [|[|] g]; lra.
Qed.

Lemma OneQubit_eigh_ground (fails : jitted -> nat -> bool) :
  eigh_contract (OneQubit.backend fails) 2 (OneQubit.diag 1 (-1)).
Proof.
  unfold eigh_contract. simpl eigh. unfold OneQubit.eigh_diag2, OneQubit.diag.
  simpl Re. destruct (Rle_dec 1 (-1)) as [H|_]; [exfalso; lra|].
  split; [reflexivity|]. split; [reflexivity|]. split.
  - intros row [<-|[<-|[]]]; reflexivity.
  - split.
    + intros k Hk. destruct k as [|[|k]]; try lia; split;
        try (unfold unit_norm, norm2, Cnorm2, C0, C1; simpl; ring);
        unfold matmul_mv, scale, column; cx_list.
    + intros k l Hk Hl Hkl.
      destruct k as [|[|k]]; destruct l as [|[|l]]; try lia;
        unfold column, conj; cx_list.
Qed.

Lemma reference_computation_witness :
  exists true_st,
    @jv_compute_true_state (OneQubit.backend OneQubit.never)
      [OneQubit.diag 1 (-1)] = Some true_st /\
    length true_st = 1%nat /\
    exists c, Cabs c = 1 /\ nth_error true_st 0 = Some (scale c [C0; C1]).
Proof.
  destruct (@reference_computation (OneQubit.backend OneQubit.never) 2
              [OneQubit.diag 1 (-1)]
              (OneQubit_jit_sound OneQubit.never) (le_S 1 1 (le_n 1)))
    as [true_st [E [L [_ Hd]]]].
  - simpl. discriminate.
  - intros H [<-|[]]. apply OneQubit_eigh_ground.
  - exists true_st. split; [exact E|]. split; [exact L|].
    destruct (Hd eq_refl 0%nat eq_refl) as [c [k [Hc [Hn _]]]].
    exists c. split; assumption.
Defined.

(** ** Initialisation *)

Section Init.
Context {B : Backend}.

Lemma draws_length (n : nat) (g : Rng) : length (fst (draws n g)) = n.
Proof.
  revert g. induction n as [|n IH]; intros g; simpl; [reflexivity|].
  destruct (random_sample g) as [x g1]. specialize (IH g1).
  destruct (draws n g1) as [xs g2]. simpl in *. f_equal. exact IH.
Qed.

Lemma draws_range (n : nat) (g : Rng) :
  random_sample_range B -> forall u, In u (fst (draws n g)) -> 0 <= u < 1.
Proof.
  intros HR. revert g. induction n as [|n IH]; intros g u; simpl; [intros []|].
  pose proof (HR g) as Hx.
  destruct (random_sample g) as [x g1]. specialize (IH g1).
  destruct (draws n g1) as [xs g2]. simpl in *.
  intros [<-|Hu]; [exact Hx | apply IH, Hu].
Qed.

Lemma draws_add (n m : nat) (g : Rng) :
  draws (n + m) g
  = (fst (draws n g) ++ fst (draws m (snd (draws n g))),
     snd (draws m (snd (draws n g)))).
Proof.
  revert g. induction n as [|n IH]; intros g; simpl.
  - destruct (draws m g); reflexivity.
  - destruct (random_sample g) as [x g1]. rewrite (IH g1).
    destruct (draws n g1) as [xs g2]. simpl.
    destruct (draws m g2); reflexivity.
Qed.

Lemma uniform_draws (low high : R) (n : nat) (g : Rng) :
  uniform low high n g
  = (map (fun u => low + (high - low) * u) (fst (draws n g)), snd (draws n g)).
Proof. unfold uniform. destruct (draws n g); reflexivity. Qed.

(** The array is filled row by row from consecutive draws. *)
Lemma uniform2_draws (low high : R) (rows cols : nat) (g : Rng) :
  concat (fst (uniform2 low high rows cols g))
    = map (fun u => low + (high - low) * u) (fst (draws (rows * cols) g)) /\
  snd (uniform2 low high rows cols g) = snd (draws (rows * cols) g).
Proof.
  revert g. induction rows as [|rows IH]; intros g; simpl.
  - split; reflexivity.
  - rewrite uniform_draws. specialize (IH (snd (draws cols g))).
    destruct (uniform2 low high rows cols (snd (draws cols g))) as [rs g2].
    simpl in *. rewrite draws_add. simpl. rewrite map_app.
    destruct IH as [-> ->]. split; reflexivity.
Qed.

Lemma uniform2_shape (low high : R) (rows cols : nat) (g : Rng) :
  length (fst (uniform2 low high rows cols g)) = rows /\
  forall row, In row (fst (uniform2 low high rows cols g)) -> length row = cols.
Proof.
  revert g. induction rows as [|rows IH]; intros g; simpl.
  - split; [reflexivity | intros row []].
  - rewrite uniform_draws. specialize (IH (snd (draws cols g))).
    destruct (uniform2 low high rows cols (snd (draws cols g))) as [rs g2].
    simpl in *. destruct IH as [L Hrow]. split; [f_equal; exact L|].
    intros row [<-|Hin]; [|apply Hrow, Hin].
    rewrite length_map. apply draws_length.
Qed.

Lemma uniform2_range (low high : R) (rows cols : nat) (g : Rng) :
  random_sample_range B -> low <= high ->
  forall row x, In row (fst (uniform2 low high rows cols g)) -> In x row ->
    low <= x <= high.
Proof.
  intros HR Hlh. revert g. induction rows as [|rows IH]; intros g row x; simpl.
  - intros [].
  - rewrite uniform_draws. specialize (IH (snd (draws cols g))).
    destruct (uniform2 low high rows cols (snd (draws cols g))) as [rs g2].
    simpl in *. intros [<-|Hin] Hx; [|apply (IH row x Hin Hx)].
    apply in_map_iff in Hx. destruct Hx as [u [<- Hu]].
    apply (draws_range cols g HR) in Hu. nra.
Qed.

Lemma vqe__init__returns (Hs : hamiltonian) (circuit : circuit_t) (g : Rng) :
  vqe__init__ Hs circuit g
  = Some (mk_vqe (Hs_N Hs) Hs (Hs_n_states Hs)
            (snd (circuit (Hs_N Hs) placeholder))
            (fst (uniform2 (- PI) PI (Hs_n_states Hs)
                    (snd (circuit (Hs_N Hs) placeholder)) g))
            [] [] false [] circuit None None None,
          snd (uniform2 (- PI) PI (Hs_n_states Hs)
                 (snd (circuit (Hs_N Hs) placeholder)) g)).
Proof.
  unfold vqe__init__.
  destruct (uniform2 (- PI) PI (Hs_n_states Hs)
              (snd (circuit (Hs_N Hs) placeholder)) g); reflexivity.
Qed.

Lemma initial_parameters_draws (Hs : hamiltonian) (circuit : circuit_t)
    (g : Rng) :
  initial_parameters Hs circuit g
  = map (fun u => - PI + (PI - - PI) * u)
        (fst (draws (Hs_n_states Hs * snd (circuit (Hs_N Hs) placeholder)) g)).
Proof.
  unfold initial_parameters. rewrite vqe__init__returns. cbn [vqe_params].
  apply uniform2_draws.
Qed.

Lemma product_ext (k : nat) (f h : nat -> R) :
  (forall i, (i < k)%nat -> f i = h i) -> product k f = product k h.
Proof.
  induction k as [|k IH]; intros H; [reflexivity|].
  cbn [product]. rewrite IH by (intros i Hi; apply H; lia).
  rewrite (H k) by lia. reflexivity.
Qed.

Lemma affine_entry (low high lo hi u : R) :
  low < high ->
  (lo <= low + (high - low) * u < hi <->
   (lo - low) / (high - low) <= u < (hi - low) / (high - low)).
Proof.
  intros Hlh. assert (Hpos : 0 < high - low) by lra.
  assert (E1 : (lo - low) / (high - low) * (high - low) = lo - low)
    by (field; lra).
  assert (E2 : (hi - low) / (high - low) * (high - low) = hi - low)
    by (field; lra).
  split; intros [H1 H2]; split.
  - apply (Rmult_le_reg_r (high - low)); [exact Hpos|]. rewrite E1. lra.
  - apply (Rmult_lt_reg_r (high - low)); [exact Hpos|]. rewrite E2. lra.
  - apply (Rmult_le_compat_r (high - low)) in H1; [|lra].
    rewrite E1 in H1. lra.
  - apply (Rmult_lt_compat_r (high - low)) in H2; [|lra].
    rewrite E2 in H2. lra.
Qed.

(** A box of images under an increasing affine map is the image of a
    box. *)
Lemma in_box_affine (low high : R) (us : list R) (lo hi : nat -> R) :
  low < high ->
  (in_box (map (fun u => low + (high - low) * u) us) lo hi <->
   in_box us (fun i => (lo i - low) / (high - low))
             (fun i => (hi i - low) / (high - low))).
Proof.
  intros Hlh. unfold in_box. rewrite length_map.
  assert (En : forall i, (i < length us)%nat ->
            nth i (map (fun u => low + (high - low) * u) us) 0
            = low + (high - low) * nth i us 0).
  { intros i Hi.
    rewrite (nth_indep _ 0 (low + (high - low) * 0))
      by (rewrite length_map; exact Hi).
    apply (map_nth (fun u => low + (high - low) * u) us 0 i). }
  split; intros H i Hi; specialize (H i Hi).
  - rewrite (En i Hi) in H. apply affine_entry; assumption.
  - rewrite (En i Hi). apply affine_entry; assumption.
Qed.

(** The image of independent uniform draws on [[0, 1)] under the affine
    map onto [[low, high)]. *)
Lemma independent_uniform_affine (Pr : (Rng -> Prop) -> R) (low high : R)
    (k : nat) (X : Rng -> list R) :
  low < high ->
  independent_uniform Pr 0 1 k X ->
  independent_uniform Pr low high k
    (fun g => map (fun u => low + (high - low) * u) (X g)).
Proof.
  intros Hlh [Hlen Hbox]. assert (Hpos : 0 < high - low) by lra.
  pose proof (Rinv_0_lt_compat _ Hpos) as Hinv. split.
  - intros g. rewrite length_map. apply Hlen.
  - intros E lo hi Hb HE.
    rewrite (Hbox E (fun i => (lo i - low) / (high - low))
               (fun i => (hi i - low) / (high - low))).
    + apply product_ext. intros i Hi. field. lra.
    + intros i Hi. destruct (Hb i Hi) as [H1 [H2 H3]].
      split; [apply Rmult_le_pos; lra|].
      split; [apply Rmult_le_compat_r; lra|].
      apply (Rmult_le_reg_r (high - low)); [exact Hpos|].
      replace ((hi i - low) / (high - low) * (high - low)) with (hi i - low)
        by (field; lra).
      lra.
    + intros g. rewrite (HE g). apply in_box_affine, Hlh.
Qed.


End Init.

(** The uniform source keeps what the generator promises. *)
Lemma UniformSource_range : random_sample_range UniformSource.backend.
Proof.
  intros g. cbn [random_sample UniformSource.backend fst].
  unfold UniformSource.sample.
  destruct (Rle_dec 0 g); [destruct (Rlt_dec g 1)|]; lra.
Qed.

Lemma UniformSource_sample (g : R) : 0 <= g < 1 -> UniformSource.sample g = g.
Proof.
  intros [H0 H1]. unfold UniformSource.sample.
  destruct (Rle_dec 0 g); [destruct (Rlt_dec g 1)|]; try reflexivity; lra.
Qed.

Lemma UniformSource_interval (E : R -> Prop) (L H r : R) :
  0 <= L -> L <= H -> H <= 1 ->
  (forall g, 0 <= g < 1 -> (E g <-> L <= g < H)) ->
  UniformSource.interval_of E r -> r = H - L.
Proof.
  intros HL HLH HH HE [a [b [Ha [Hab [Hb [Hab' ->]]]]]].
  assert (Hsame : forall g, 0 <= g < 1 -> (a <= g < b <-> L <= g < H)).
  { intros g Hg. rewrite <- (HE g Hg). symmetry. apply Hab', Hg. }
  destruct (Rlt_le_dec L H) as [Hlt|Hge].
  - assert (HaL : a <= L < b) by (apply Hsame; lra).
    assert (HLa : L <= a < H) by (apply Hsame; lra).
    assert (Ea : a = L) by lra. subst a.
    destruct (Rtotal_order b H) as [Hlt'|[->|Hgt]]; [|reflexivity|].
    + exfalso.
      assert (Hm : L <= (b + H) / 2 < b) by (apply Hsame; lra). lra.
    + exfalso.
      assert (Hm : L <= (H + b) / 2 < H) by (apply Hsame; lra). lra.
  - assert (EL : L = H) by lra. subst H.
    destruct (Rlt_le_dec a b) as [Hlt|Hge'].
    + exfalso. assert (Hm : L <= a < L) by (apply Hsame; lra). lra.
    + lra.
Qed.

Lemma UniformSource_uniform :
  independent_uniform UniformSource.Pr 0 1 1
    (fun g => fst (@draws UniformSource.backend 1 g)).
Proof.
  split; [intros g; reflexivity|].
  intros E lo hi Hb HE.
  destruct (Hb 0%nat (le_n 1)) as [H0 [H01 H1]].
  assert (HE' : forall g, 0 <= g < 1 -> (E g <-> lo 0%nat <= g < hi 0%nat)).
  { intros g Hg. rewrite (HE g). unfold in_box.
    cbn [draws random_sample UniformSource.backend fst length].
    rewrite (UniformSource_sample g Hg). split.
    - intros H. apply (H 0%nat). lia.
    - intros H i Hi. assert (i = 0%nat) by lia. subst i. exact H. }
  assert (Hex : exists r, UniformSource.interval_of E r).
  { exists (hi 0%nat - lo 0%nat), (lo 0%nat), (hi 0%nat).
    split; [exact H0|]. split; [exact H01|]. split; [exact H1|].
    split; [exact HE' | reflexivity]. }
  pose proof (Epsilon.epsilon_spec (inhabits 0) (UniformSource.interval_of E) Hex)
    as Hspec.
  fold (UniformSource.Pr E) in Hspec.
  rewrite (UniformSource_interval E (lo 0%nat) (hi 0%nat) _ H0 H01 H1 HE' Hspec).
  cbn [product]. field.
Qed.



(** ** The independent loop, epoch by epoch *)

Section Loop.
Context {B : Backend}.
Variable self : vqe.
Variables (lr reg : R) (epochs_batch_size : Z).
Variable save_trajectories : bool.
Variable true_st : list (list C).
Variable params0 : list (list R).

Local Abbreviation run_epoch :=
  (epoch self lr reg epochs_batch_size save_trajectories true_st).
Local Abbreviation run_epochs :=
  (epochs self lr reg epochs_batch_size save_trajectories true_st).
Local Abbreviation state_at :=
  (loop_after self lr reg epochs_batch_size save_trajectories true_st params0).
Local Abbreviation after := (after_epochs self lr reg params0).
Local Abbreviation params_at := (params_after self lr reg params0).
Local Abbreviation is_sample := (is_sample_epoch epochs_batch_size).
Local Abbreviation samples := (sample_epochs epochs_batch_size).
Local Abbreviation fails_at := (batched_fails self lr reg params0).
Local Abbreviation oom_at := (oom_after self lr reg epochs_batch_size params0).
Local Abbreviation sample_at := (sample self lr reg epochs_batch_size params0).
Local Abbreviation sequential_at := (sequential_sample self lr reg params0).
Local Abbreviation fidelity_at := (fidelity_shown self lr reg true_st params0).
Local Abbreviation MSE_at := (MSE_after self lr reg epochs_batch_size params0).
Local Abbreviation shown_at :=
  (shown_after self lr reg epochs_batch_size true_st params0).
Local Abbreviation trajectory_at :=
  (trajectory_after self lr reg save_trajectories params0).
Local Abbreviation records := (records_trajectory save_trajectories).

Lemma epochs_app (its its' : list nat) (st : loop_state) :
  run_epochs (its ++ its') st
  = match run_epochs its st with
    | Some st' => run_epochs its' st'
    | None => None
    end.
Proof.
  revert st. induction its as [|it its IH]; intros st; simpl; [reflexivity|].
  destruct (run_epoch it st); [apply IH | reflexivity].
Qed.

Lemma sample_epochs_S (k : nat) :
  samples (S k) = samples k ++ (if is_sample k then [k] else []).
Proof.
  unfold sample_epochs. rewrite seq_S, filter_app. cbn [filter Nat.add].
  destruct (is_sample k); reflexivity.
Qed.

Lemma oom_after_S (k : nat) :
  oom_at (S k) = oom_at k || (is_sample k && fails_at k).
Proof.
  unfold oom_after. rewrite seq_S, existsb_app. cbn [existsb Nat.add].
  rewrite orb_false_r. reflexivity.
Qed.

Lemma MSE_after_S (k : nat) :
  MSE_at (S k) = MSE_at k ++ (if is_sample k then [sample_at k] else []).
Proof.
  unfold MSE_after. rewrite sample_epochs_S, map_app.
  destruct (is_sample k); reflexivity.
Qed.

Lemma shown_after_S (k : nat) :
  shown_at (S k)
  = shown_at k ++ (if is_sample k then [(sample_at k, fidelity_at k)] else []).
Proof.
  unfold shown_after. rewrite sample_epochs_S, map_app.
  destruct (is_sample k); reflexivity.
Qed.

Lemma trajectory_after_S (k : nat) :
  trajectory_at (S k)
  = trajectory_at k ++ (if records k then [params_at (S k)] else []).
Proof.
  unfold trajectory_after. rewrite seq_S, filter_app, map_app. cbn [filter Nat.add].
  destruct (records k); reflexivity.
Qed.

(** The diagnostic block, run on the variables of epoch [k]. *)
Lemma diagnostics_step (k : nat) :
  jv_fidelties self k true_st (params_at (S k)) <> None ->
  diagnostics self true_st k (params_at (S k)) (oom_at k) (MSE_at k) (shown_at k)
  = Some (oom_at k || fails_at k,
          MSE_at k ++ [sample_at k],
          shown_at k ++ [(sample_at k, fidelity_at k)]).
Proof.
  intros Hfid.
  unfold diagnostics, sample, fidelity_shown, batched_fails, sequential_sample.
  destruct (jv_fidelties self k true_st (params_at (S k))) as [f|];
    [|contradiction].
  destruct (oom_at k); cbn [negb orb].
  - destruct (j_v_compute_vqe_E self k (params_at (S k)));
      rewrite last_last; reflexivity.
  - destruct (j_v_compute_vqe_E self k (params_at (S k)));
      rewrite last_last; reflexivity.
Qed.

Lemma epoch_step (k : nat) :
  epochs_batch_size <> 0%Z ->
  (is_sample k = true -> jv_fidelties self k true_st (params_at (S k)) <> None) ->
  run_epoch k (state_at k) = Some (state_at (S k)).
Proof.
  intros Hebs Hfid. unfold loop_after at 2.
  rewrite oom_after_S, MSE_after_S, shown_after_S, trajectory_after_S.
  unfold epoch, loop_after.
  cbn [l_params l_opt l_oom l_MSE l_trajectory l_shown].
  change (update self lr reg (params_at k) (snd (after k))) with (after (S k)).
  destruct (Z.eqb_spec epochs_batch_size 0) as [E0|_]; [contradiction|].
  rewrite (surjective_pairing (after (S k))).
  fold (params_at (S k)). fold (is_sample k).
  destruct (is_sample k) eqn:Es.
  - rewrite (diagnostics_step k (Hfid eq_refl)). cbn [andb].
    destruct (records k); rewrite ?app_nil_r; reflexivity.
  - cbn [andb]. rewrite !app_nil_r, orb_false_r.
    destruct (records k); rewrite ?app_nil_r; reflexivity.
Qed.

(** After [k] epochs the variables of the loop are the ones above, as long
    as the division is defined and the progress bar could be updated. *)
Lemma epochs_loop_after (k : nat) :
  epochs_batch_size <> 0%Z ->
  (forall it, (it < k)%nat -> is_sample it = true ->
     jv_fidelties self it true_st (params_at (S it)) <> None) ->
  run_epochs (seq 0 k) (state_at 0) = Some (state_at k).
Proof.
  intros Hebs. induction k as [|k IH]; intros Hfid; [reflexivity|].
  rewrite seq_S, epochs_app, IH by (intros it Hit; apply Hfid; lia).
  cbn [Nat.add epochs].
  rewrite epoch_step by (try assumption; apply Hfid; lia). reflexivity.
Qed.

(** An epoch that is completed has updated the progress bar. *)
Lemma epoch_step_inv (k : nat) (st : loop_state) :
  run_epoch k (state_at k) = Some st ->
  epochs_batch_size <> 0%Z /\
  (is_sample k = true -> jv_fidelties self k true_st (params_at (S k)) <> None).
Proof.
  unfold epoch.
  cbn [loop_after l_params l_opt l_oom l_MSE l_trajectory l_shown].
  change (update self lr reg (params_at k) (snd (after k))) with (after (S k)).
  rewrite (surjective_pairing (after (S k))).
  fold (params_at (S k)). fold (is_sample k).
  destruct (Z.eqb_spec epochs_batch_size 0) as [E0|N0]; [discriminate|].
  intros E. split; [exact N0|]. intros Hs Hfid. rewrite Hs in E.
  unfold diagnostics in E. rewrite Hfid in E.
  destruct (negb (oom_at k)); [|discriminate].
  destruct (j_v_compute_vqe_E self k (params_at (S k))); discriminate.
Qed.

Lemma epochs_loop_after_inv (k : nat) (st : loop_state) :
  run_epochs (seq 0 k) (state_at 0) = Some st ->
  st = state_at k /\
  ((0 < k)%nat -> epochs_batch_size <> 0%Z) /\
  (forall it, (it < k)%nat -> is_sample it = true ->
     jv_fidelties self it true_st (params_at (S it)) <> None).
Proof.
  revert st. induction k as [|k IH]; intros st.
  - cbn [seq epochs]. intros E. injection E as <-.
    split; [reflexivity|]. split; intros; lia.
  - rewrite seq_S, epochs_app. cbn [Nat.add].
    destruct (run_epochs (seq 0 k) (state_at 0)) as [st'|]; [|discriminate].
    destruct (IH st' eq_refl) as [-> [_ Hfid]].
    cbn [epochs].
    destruct (run_epoch k (state_at k)) as [st''|] eqn:E; [|discriminate].
    destruct (epoch_step_inv k st'' E) as [Hebs Hk].
    rewrite (epoch_step k Hebs Hk) in E.
    injection E as <-. intros E. injection E as <-.
    split; [reflexivity|]. split; [intros _; exact Hebs|].
    intros it Hit. destruct (Nat.eq_dec it k) as [->|Hne]; [exact Hk|].
    apply Hfid. lia.
Qed.

(** With the first failure of the batched energies at the sample of epoch
    [it0], the flag is down until then and up ever after. *)
Lemma oom_after_first_failure (it0 k : nat) :
  is_sample it0 = true -> fails_at it0 = true ->
  (forall it, (it < it0)%nat -> is_sample it = true -> fails_at it = false) ->
  oom_at k = (it0 <? k)%nat.
Proof.
  intros Hs Hf Hfirst. unfold oom_after.
  destruct (Nat.ltb_spec it0 k) as [Hlt|Hge].
  - apply existsb_exists. exists it0. split; [apply in_seq; lia|].
    rewrite Hs, Hf. reflexivity.
  - destruct (existsb _ (seq 0 k)) eqn:E; [|reflexivity].
    apply existsb_exists in E. destruct E as [it [Hin Hit]].
    apply in_seq in Hin. apply andb_true_iff in Hit. destruct Hit as [H1 H2].
    rewrite (Hfirst it) in H2 by (try assumption; lia). discriminate.
Qed.

Lemma sample_after_failure (it0 it : nat) :
  is_sample it0 = true -> fails_at it0 = true ->
  (forall i, (i < it0)%nat -> is_sample i = true -> fails_at i = false) ->
  (it0 <= it)%nat ->
  sample_at it = sequential_at it.
Proof.
  intros Hs Hf Hfirst Hle. unfold sample.
  rewrite (oom_after_first_failure it0 it Hs Hf Hfirst).
  destruct (j_v_compute_vqe_E self it (params_at (S it))) as [e|] eqn:E;
    [|reflexivity].
  destruct (Nat.ltb_spec it0 it) as [_|Hge]; [reflexivity|].
  assert (it = it0) by lia. subst it.
  unfold batched_fails in Hf. rewrite E in Hf. discriminate.
Qed.

(** When the batched path returns what the sequential one computes, the
    two record the same samples. *)
Lemma sample_sound (it : nat) : jit_sound B -> sample_at it = sequential_at it.
Proof.
  intros Hjit. unfold sample, sequential_sample.
  destruct (j_v_compute_vqe_E self it (params_at (S it))) as [e|] eqn:E;
    [|reflexivity].
  apply Hjit in E. subst e. destruct (oom_at it); reflexivity.
Qed.

End Loop.

Lemma is_sample_epoch_nat (e k : nat) :
  is_sample_epoch (Z.of_nat e) k = (Nat.modulo (S k) e =? 0)%nat.
Proof.
  unfold is_sample_epoch.
  replace (Z.of_nat k + 1)%Z with (Z.of_nat (S k)) by lia.
  rewrite <- Nat2Z.inj_mod.
  destruct (Nat.eqb_spec (Nat.modulo (S k) e) 0) as [E|N].
  - rewrite E. reflexivity.
  - apply Z.eqb_neq. lia.
Qed.

(** The samples are taken at the end of the epochs [e], [2 e], ... *)
Lemma sample_epochs_multiples (e n : nat) :
  (0 < e)%nat ->
  sample_epochs (Z.of_nat e) n
  = map (fun j => (j * e - 1)%nat) (seq 1 (Nat.div n e)).
Proof.
  intros He. induction n as [|n IH].
  - rewrite Nat.Div0.div_0_l by lia. reflexivity.
  - unfold sample_epochs in *. rewrite seq_S, filter_app, IH. cbn [filter Nat.add].
    rewrite is_sample_epoch_nat.
    pose proof (Nat.div_mod_eq (S n) e) as Hdm.
    pose proof (Nat.mod_upper_bound (S n) e ltac:(lia)) as Hub.
    set (q := Nat.div (S n) e) in *. set (r := Nat.modulo (S n) e) in *.
    destruct (Nat.eqb_spec r 0) as [Hr|Hr].
    + assert (Hq : (1 <= q)%nat) by (destruct q; [nia | lia]).
      assert (Hn : Nat.div n e = (q - 1)%nat).
      { symmetry. apply (Nat.div_unique n e (q - 1) (e - 1)); [lia | nia]. }
      rewrite Hn. replace q with (S (q - 1)) at 2 by lia.
      rewrite seq_S, map_app. cbn [map]. do 2 f_equal. nia.
    + assert (Hn : Nat.div n e = q).
      { symmetry. apply (Nat.div_unique n e q (r - 1)); [lia | nia]. }
      rewrite Hn, app_nil_r. reflexivity.
Qed.

(** ** A run of [train] in the independent mode *)

Section Run.
Context {B : Backend}.
Variable self : vqe.
Variables (lr reg : R) (n_epochs epochs_batch_size : Z).
Variable save_trajectories : bool.
Variable g : Rng.

(** The number of epochs, and the variables of the loop when it starts
    from the parameters of the engine. *)
Local Abbreviation n := (Z.to_nat n_epochs).
Local Abbreviation run_epochs true_st :=
  (epochs self lr reg epochs_batch_size save_trajectories true_st).
Local Abbreviation state_at true_st :=
  (loop_after self lr reg epochs_batch_size save_trajectories true_st
     (vqe_params self)).
Local Abbreviation params_at := (params_after self lr reg (vqe_params self)).
Local Abbreviation is_sample := (is_sample_epoch epochs_batch_size).
Local Abbreviation samples := (sample_epochs epochs_batch_size).
Local Abbreviation fails_at := (batched_fails self lr reg (vqe_params self)).
Local Abbreviation oom_at :=
  (oom_after self lr reg epochs_batch_size (vqe_params self)).
Local Abbreviation sample_at :=
  (sample self lr reg epochs_batch_size (vqe_params self)).
Local Abbreviation fidelity_at true_st :=
  (fidelity_shown self lr reg true_st (vqe_params self)).
Local Abbreviation MSE_at :=
  (MSE_after self lr reg epochs_batch_size (vqe_params self)).
Local Abbreviation shown_at true_st :=
  (shown_after self lr reg epochs_batch_size true_st (vqe_params self)).
Local Abbreviation trajectory_at :=
  (trajectory_after self lr reg save_trajectories (vqe_params self)).

Lemma finalize_oom (params : list (list R)) :
  finalize self n_epochs true params
  = Some (v_compute_vqe_E self params, v_vqe_state self params).
Proof. reflexivity. Qed.

Lemma finalize_sound (oom : bool) (params : list (list R)) (e : list R)
    (s : list (list C)) :
  jit_sound B ->
  finalize self n_epochs oom params = Some (e, s) ->
  e = v_compute_vqe_E self params /\ s = v_vqe_state self params.
Proof.
  intros Hjit. unfold finalize. destruct oom; cbn [negb].
  - intros E. injection E as <- <-. split; reflexivity.
  - destruct (j_v_compute_vqe_E self n params) as [e'|] eqn:Ee; [|discriminate].
    destruct (jv_vqe_state self n params) as [s'|] eqn:Es; [|discriminate].
    intros E. injection E as <- <-.
    apply Hjit in Ee. apply Hjit in Es. split; assumption.
Qed.

(** What [train] returns in the independent mode, when it returns. *)
Lemma train_independent_inv (out : trained) :
  train self lr reg n_epochs epochs_batch_size save_trajectories false g
    = Some out ->
  exists true_st e s,
    jv_compute_true_state (mat_Hs (vqe_Hs self)) = Some true_st /\
    run_epochs true_st (seq 0 n) (state_at true_st 0)
      = Some (state_at true_st n) /\
    finalize self n_epochs (oom_at n) (params_at n) = Some (e, s) /\
    out = mk_trained
            (set_results self false true_st (Some (trajectory_at n)) (MSE_at n)
               (params_at n) e s)
            g (oom_at n) (shown_at true_st n).
Proof.
  unfold train.
  destruct (jv_compute_true_state (mat_Hs (vqe_Hs self))) as [true_st|];
    [|discriminate].
  cbn [negb]. unfold train_independent.
  change (mk_loop (vqe_params self) (opt_init lr (vqe_params self)) false [] [] [])
    with (state_at true_st 0).
  destruct (run_epochs true_st (seq 0 n) (state_at true_st 0)) as [st|] eqn:Erun;
    [|discriminate].
  destruct (epochs_loop_after_inv self lr reg epochs_batch_size save_trajectories
              true_st (vqe_params self) n st Erun) as [-> _].
  cbn [loop_after l_oom l_params l_MSE l_trajectory l_shown].
  destruct (finalize self n_epochs (oom_at n) (params_at n)) as [[e s]|] eqn:Ef;
    [|discriminate].
  intros E. injection E as <-.
  exists true_st, e, s.
  split; [reflexivity|]. split; [first [exact Erun | reflexivity]|].
  split; [first [exact Ef | reflexivity] | reflexivity].
Qed.

(** What [train] returns in the independent mode, when nothing raises
    but, possibly, the batched energies of the samples. *)
Lemma train_independent_run (true_st : list (list C)) (e : list R)
    (s : list (list C)) :
  epochs_batch_size <> 0%Z ->
  jv_compute_true_state (mat_Hs (vqe_Hs self)) = Some true_st ->
  (forall it, (it < n)%nat -> is_sample it = true ->
     jv_fidelties self it true_st (params_at (S it)) <> None) ->
  finalize self n_epochs (oom_at n) (params_at n) = Some (e, s) ->
  train self lr reg n_epochs epochs_batch_size save_trajectories false g
  = Some (mk_trained
            (set_results self false true_st (Some (trajectory_at n)) (MSE_at n)
               (params_at n) e s)
            g (oom_at n) (shown_at true_st n)).
Proof.
  intros Hebs Htrue Hfid Hfin.
  unfold train. rewrite Htrue. cbn [negb]. unfold train_independent.
  change (mk_loop (vqe_params self) (opt_init lr (vqe_params self)) false [] [] [])
    with (state_at true_st 0).
  rewrite (epochs_loop_after self lr reg epochs_batch_size save_trajectories
             true_st (vqe_params self) n Hebs Hfid).
  cbn [loop_after l_oom l_params l_MSE l_trajectory l_shown].
  rewrite Hfin. reflexivity.
Qed.


(** C2.  The fallback does not cover the mean fidelity of the progress
    bar.  Let the batched energies raise at the sample of epoch [it0],
    which the engine catches, and let [it1] be that sample or a later
    one.  The mean fidelity of the sample [it1] is still asked of the
    function compiled for the whole grid, outside the handler: if it
    raises, [train] raises and the run is aborted; and if [train]
    returns, its flag [oom] is up and what the progress bar has shown at
    [it1] is the MSE of the sequential path together with the value that
    the compiled mean fidelity returned. *)
Theorem fallback_misses_fidelity (true_st : list (list C)) (it0 it1 : nat) :
  jv_compute_true_state (mat_Hs (vqe_Hs self)) = Some true_st ->
  (it0 <= it1)%nat -> (it1 < n)%nat ->
  is_sample it0 = true -> is_sample it1 = true ->
  j_v_compute_vqe_E self it0 (params_at (S it0)) = None ->
  (jv_fidelties self it1 true_st (params_at (S it1)) = None ->
   train self lr reg n_epochs epochs_batch_size save_trajectories false g
   = None) /\
  (forall out,
     train self lr reg n_epochs epochs_batch_size save_trajectories false g
       = Some out ->
     t_oom out = true /\
     exists f,
       jv_fidelties self it1 true_st (params_at (S it1)) = Some f /\
       In (mse self (v_compute_vqe_E self (params_at (S it1))), f)
          (t_shown out)).
Proof.
  intros Htrue Hle Hit1 Hs0 Hs1 Hfail.
  assert (Hinv : forall out,
            train self lr reg n_epochs epochs_batch_size save_trajectories
              false g = Some out ->
            jv_fidelties self it1 true_st (params_at (S it1)) <> None /\
            t_oom out = oom_at n /\ t_shown out = shown_at true_st n).
  { intros out Htrain.
    destruct (train_independent_inv out Htrain)
      as [true_st' [e [s [Htrue' [Hrun [_ ->]]]]]].
    rewrite Htrue in Htrue'. injection Htrue' as <-.
    destruct (epochs_loop_after_inv self lr reg epochs_batch_size
                save_trajectories true_st (vqe_params self) n _ Hrun)
      as [_ [_ H]].
    split; [apply (H it1 Hit1 Hs1)|]. split; reflexivity. }
  assert (Hf0 : fails_at it0 = true)
    by (unfold batched_fails; rewrite Hfail; reflexivity).
  assert (Hoom : forall k, (it0 < k)%nat -> oom_at k = true).
  { intros k Hk. unfold oom_after. apply existsb_exists. exists it0.
    split; [apply in_seq; lia|]. rewrite Hs0, Hf0. reflexivity. }
  split.
  - intros Hfid.
    destruct (train self lr reg n_epochs epochs_batch_size save_trajectories
                false g) as [out|] eqn:Htrain; [|reflexivity].
    exfalso. destruct (Hinv out eq_refl) as [Hne _]. exact (Hne Hfid).
  - intros out Htrain. destruct (Hinv out Htrain) as [Hne [-> ->]].
    split; [apply Hoom; lia|].
    destruct (jv_fidelties self it1 true_st (params_at (S it1))) as [f|] eqn:Ef;
      [|congruence].
    exists f. split; [reflexivity|].
    unfold shown_after. apply in_map_iff. exists it1. split.
    + f_equal.
      * unfold sample.
        destruct (j_v_compute_vqe_E self it1 (params_at (S it1))) as [e|] eqn:Ee;
          [|reflexivity].
        assert (Hlt : (it0 < it1)%nat).
        { destruct (Nat.eq_dec it0 it1) as [->|Hne']; [congruence | lia]. }
        rewrite (Hoom it1 Hlt). reflexivity.
      * unfold fidelity_shown. rewrite Ef. reflexivity.
    + unfold sample_epochs. apply filter_In. split; [apply in_seq; lia | exact Hs1].
Qed.

(** C4, as the code has it.  In the independent mode, when [train]
    returns, a sample has been taken at the end of each of the epochs
    [epochs_batch_size], [2 * epochs_batch_size], ... (500 by default).
    At each the engine evaluates the MSE against the true energies and
    the mean fidelity against the true states; the MSE is appended to
    the record [MSE], the fidelity is shown on the progress bar and kept
    nowhere.  The record starts empty, whatever the engine held before,
    and during the run it only grows, by at most one sample per epoch. *)
Theorem diagnostics_record (out : trained) :
  (0 < epochs_batch_size)%Z ->
  train self lr reg n_epochs epochs_batch_size save_trajectories false g
    = Some out ->
  exists true_st,
    true_states (t_self out) = Some true_st /\
    default_epochs_batch_size = 500%Z /\
    samples n
      = map (fun j => (j * Z.to_nat epochs_batch_size - 1)%nat)
            (seq 1 (Nat.div n (Z.to_nat epochs_batch_size))) /\
    MSE (t_self out) = map sample_at (samples n) /\
    (forall it,
       sample_at it = mse self (v_compute_vqe_E self (params_at (S it))) \/
       exists e, j_v_compute_vqe_E self it (params_at (S it)) = Some e /\
                 sample_at it = mse self e) /\
    (jit_sound B ->
     MSE (t_self out)
       = map (fun it => mse self (v_compute_vqe_E self (params_at (S it))))
             (samples n)) /\
    t_shown out
      = map (fun it => (sample_at it, fidelity_at true_st it)) (samples n) /\
    (forall it, In it (samples n) ->
       jv_fidelties self it true_st (params_at (S it))
       = Some (fidelity_at true_st it)) /\
    (jit_sound B -> forall it, In it (samples n) ->
       fidelity_at true_st it
       = vqe_fidelties true_st (params_at (S it)) (vqe_state self)) /\
    states_dist (t_self out) = states_dist self /\
    l_MSE (state_at true_st 0) = [] /\
    (forall k, (k < n)%nat ->
       run_epochs true_st (seq 0 k) (state_at true_st 0)
         = Some (state_at true_st k) /\
       run_epochs true_st (seq 0 (S k)) (state_at true_st 0)
         = Some (state_at true_st (S k)) /\
       exists new,
         l_MSE (state_at true_st (S k)) = l_MSE (state_at true_st k) ++ new /\
         (length new <= 1)%nat) /\
    (forall old,
       train (with_MSE self old) lr reg n_epochs epochs_batch_size
         save_trajectories false g = Some out).
Proof.
  intros Hebs Htrain.
  destruct (train_independent_inv out Htrain)
    as [true_st [e [s [Htrue [Hrun [Hfin ->]]]]]].
  destruct (epochs_loop_after_inv self lr reg epochs_batch_size save_trajectories
              true_st (vqe_params self) n _ Hrun) as [_ [_ Hfid]].
  assert (Hne : epochs_batch_size <> 0%Z) by lia.
  exists true_st.
  cbn [t_self t_shown set_results true_states MSE states_dist].
  split; [reflexivity|]. split; [reflexivity|].
  split.
  { rewrite <- (Z2Nat.id epochs_batch_size) at 1 by lia.
    apply sample_epochs_multiples. lia. }
  split; [reflexivity|].
  split.
  { intros it. unfold sample, sequential_sample.
    destruct (j_v_compute_vqe_E self it (params_at (S it))) as [e'|];
      [|left; reflexivity].
    destruct (oom_at it); [left; reflexivity|].
    right. exists e'. split; reflexivity. }
  split.
  { intros Hjit. unfold MSE_after. apply map_ext. intros it.
    apply sample_sound, Hjit. }
  split; [reflexivity|].
  assert (Hshown : forall it, In it (samples n) ->
            jv_fidelties self it true_st (params_at (S it))
            = Some (fidelity_at true_st it)).
  { intros it Hin. unfold sample_epochs in Hin. apply filter_In in Hin.
    destruct Hin as [Hin His]. apply in_seq in Hin.
    unfold fidelity_shown.
    destruct (jv_fidelties self it true_st (params_at (S it))) eqn:E;
      [reflexivity|].
    exfalso. apply (Hfid it); [lia | exact His | exact E]. }
  split; [exact Hshown|].
  split.
  { intros Hjit it Hin. specialize (Hshown it Hin).
    unfold jv_fidelties in Hshown. apply Hjit in Hshown. exact Hshown. }
  split; [reflexivity|]. split; [reflexivity|].
  split.
  { intros k Hk.
    assert (Hk' : forall k', (k' <= n)%nat ->
              run_epochs true_st (seq 0 k') (state_at true_st 0)
              = Some (state_at true_st k')).
    { intros k' Hle. apply epochs_loop_after; [exact Hne|].
      intros it Hit. apply Hfid. lia. }
    split; [apply Hk'; lia|]. split; [apply Hk'; lia|].
    cbn [loop_after l_MSE]. rewrite MSE_after_S.
    eexists. split; [reflexivity|].
    destruct (is_sample k); simpl; lia. }
  intros old. exact Htrain.
Qed.

End Run.

(** ** Runs on the one-qubit backend *)

Section OneQubitRuns.
Variable fails : jitted -> nat -> bool.
Variable Hs : hamiltonian.
Variable params0 : list (list R).
Variables (lr reg : R).

(** The optimiser of the one-qubit backend leaves the parameters alone. *)
Lemma OneQubit_after_epochs (self : @vqe (OneQubit.backend fails)) (k : nat) :
  @after_epochs (OneQubit.backend fails) self lr reg params0 k
  = (params0, params0).
Proof.
  induction k as [|k IH]; [reflexivity|].
  change (@after_epochs (OneQubit.backend fails) self lr reg params0 (S k))
    with (@update (OneQubit.backend fails) self lr reg
            (fst (@after_epochs (OneQubit.backend fails) self lr reg params0 k))
            (snd (@after_epochs (OneQubit.backend fails) self lr reg params0 k))).
  rewrite IH. reflexivity.
Qed.

Lemma OneQubit_params_after (self : @vqe (OneQubit.backend fails)) (k : nat) :
  @params_after (OneQubit.backend fails) self lr reg params0 k = params0.
Proof. unfold params_after. rewrite OneQubit_after_epochs. reflexivity. Qed.

End OneQubitRuns.

Lemma OneQubit_compute_true_state_flat (fails : jitted -> nat -> bool) :
  @compute_true_state (OneQubit.backend fails) (OneQubit.diag 0 0)
  = Some [C1; C0].
Proof.
  unfold compute_true_state. simpl eigh.
  unfold OneQubit.eigh_diag2, OneQubit.diag. simpl Re.
  destruct (Rle_dec 0 0) as [_|H]; [|exfalso; lra].
  unfold argmin, argmin_from.
  destruct (Rlt_dec 0 0) as [H|_]; [exfalso; lra|]. reflexivity.
Qed.

Lemma flat_energy (theta : R) :
  @v_compute_vqe_E (OneQubit.backend OneQubit.never) (OneQubit.flat theta)
    [[theta]] = [0].
Proof.
  unfold v_compute_vqe_E, v_compute_E, v_vqe_state, vmap2, vqe_state, self_circuit.
  cbn [OneQubit.flat OneQubit.engine OneQubit.hamiltonians vqe_Hs mat_Hs vqe_N
       circuit_fun map combine fst snd OneQubit.wall_RX qnode OneQubit.backend
       Hs_N nth].
  unfold compute_E, matmul_vm, column, conj, OneQubit.rx_state, OneQubit.diag.
  cbn [ncols length seq map nth matmul_vv].
  unfold Cadd, Cmul, Cconj, RtoC, C0, Re, Im. cbn [fst snd].
  f_equal. ring.
Qed.

Lemma flat_mse (theta : R) :
  @mse (OneQubit.backend OneQubit.never) (OneQubit.flat theta) [0] = Some 0.
Proof.
  unfold mse, vmap2, mean, square, Rsum.
  cbn [OneQubit.flat OneQubit.engine OneQubit.hamiltonians vqe_Hs true_e map
       combine fst snd fold_right length INR].
  f_equal. field.
Qed.

Lemma flat_fidelity (theta : R) :
  vqe_fidelties [[C1; C0]] [[theta]]
    (@vqe_state (OneQubit.backend OneQubit.never) (OneQubit.flat theta))
  = Some (cos ((theta + 0) / 2) * cos ((theta + 0) / 2)).
Proof.
  unfold vqe_fidelties, vmap2, mean, Rsum.
  cbn [map combine fst snd fold_right length INR].
  rewrite square_Cabs.
  unfold vqe_state, self_circuit.
  cbn [OneQubit.flat OneQubit.engine OneQubit.hamiltonians vqe_N circuit_fun
       fst snd OneQubit.wall_RX qnode OneQubit.backend Hs_N nth].
  unfold OneQubit.rx_state, conj. cbn [map matmul_vv Rsum fold_right].
  unfold Cnorm2, Cadd, Cmul, Cconj, C1, C0, Re, Im. cbn [fst snd].
  f_equal. field.
Qed.

Lemma OneQubit_true_states_flat (fails : jitted -> nat -> bool) :
  fails jv_compute_true_state_id 0%nat = false ->
  @jv_compute_true_state (OneQubit.backend fails) [OneQubit.diag 0 0]
  = Some [[C1; C0]].
Proof.
  intros Hf. unfold jv_compute_true_state. simpl jit. rewrite Hf.
  cbn [vmap_opt]. rewrite OneQubit_compute_true_state_flat. reflexivity.
Qed.

Lemma never_sample (self : @vqe (OneQubit.backend OneQubit.never)) (lr reg : R)
    (ebs : Z) (params0 : list (list R)) (it : nat) :
  @sample (OneQubit.backend OneQubit.never) self lr reg ebs params0 it
  = mse self (v_compute_vqe_E self params0).
Proof.
  rewrite (sample_sound self lr reg ebs params0 it
             (OneQubit_jit_sound OneQubit.never)).
  unfold sequential_sample. rewrite OneQubit_params_after. reflexivity.
Qed.

Lemma never_oom (self : @vqe (OneQubit.backend OneQubit.never)) (lr reg : R)
    (ebs : Z) (params0 : list (list R)) (k : nat) :
  @oom_after (OneQubit.backend OneQubit.never) self lr reg ebs params0 k
  = false.
Proof.
  unfold oom_after. destruct (existsb _ (seq 0 k)) eqn:E; [|reflexivity].
  apply existsb_exists in E. destruct E as [it [_ Hit]].
  apply andb_true_iff in Hit. destruct Hit as [_ Hf].
  unfold batched_fails in Hf. simpl in Hf. discriminate.
Qed.

Lemma flat_run (theta : R) :
  exists out,
    @train (OneQubit.backend OneQubit.never) (OneQubit.flat theta)
      1 0 1 1 false false [] = Some out /\
    MSE (t_self out) = [Some 0] /\
    states_dist (t_self out) = [] /\
    t_shown out
      = [(Some 0, Some (cos ((theta + 0) / 2) * cos ((theta + 0) / 2)))].
Proof.
  eexists. split.
  - apply (@train_independent_run (OneQubit.backend OneQubit.never)
             (OneQubit.flat theta) 1 0 1%Z 1%Z false [] [[C1; C0]]).
    + discriminate.
    + apply OneQubit_true_states_flat. reflexivity.
    + intros it _ _. simpl. discriminate.
    + rewrite never_oom. unfold finalize. cbn [negb]. reflexivity.
  - cbn [t_self t_shown set_results MSE states_dist].
    unfold MSE_after, shown_after, sample_epochs.
    change (filter (is_sample_epoch 1) (seq 0 (Z.to_nat 1))) with [0%nat].
    cbn [map]. rewrite never_sample.
    change (vqe_params (OneQubit.flat theta)) with [[theta]].
    rewrite flat_energy, flat_mse.
    split; [reflexivity|]. split; [reflexivity|].
    unfold fidelity_shown, jv_fidelties. simpl jit. cbn [fst snd].
    rewrite OneQubit_params_after, flat_fidelity. reflexivity.
Qed.

(** C4 as it is stated fails: the record does not hold the fidelity.  On
    a grid of one point whose Hamiltonian is zero, a run of one epoch
    from the parameter [0] and one from the parameter [pi] leave the same
    record, the MSE [0] alone, while the mean fidelity evaluated at the
    sample is 1 in the first run and 0 in the second. *)
Lemma diagnostics_record_counterexample :
  exists out1 out2,
    @train (OneQubit.backend OneQubit.never) (OneQubit.flat 0)
      1 0 1 1 false false [] = Some out1 /\
    @train (OneQubit.backend OneQubit.never) (OneQubit.flat PI)
      1 0 1 1 false false [] = Some out2 /\
    MSE (t_self out1) = [Some 0] /\ MSE (t_self out2) = [Some 0] /\
    states_dist (t_self out1) = [] /\ states_dist (t_self out2) = [] /\
    t_shown out1 = [(Some 0, Some 1)] /\ t_shown out2 = [(Some 0, Some 0)].
Proof.
  destruct (flat_run 0) as [out1 [E1 [M1 [D1 S1]]]].
  destruct (flat_run PI) as [out2 [E2 [M2 [D2 S2]]]].
  exists out1, out2. repeat split; try assumption.
  - rewrite S1. replace ((0 + 0) / 2) with 0 by lra. rewrite cos_0.
    do 3 f_equal. ring.
  - rewrite S2. replace ((PI + 0) / 2) with (PI / 2) by lra. rewrite cos_PI2.
    do 3 f_equal. ring.
Qed.

Lemma OneQubit_compute_true_state (fails : jitted -> nat -> bool) :
  @compute_true_state (OneQubit.backend fails) (OneQubit.diag 1 (-1))
  = Some [C0; C1].
Proof.
  unfold compute_true_state. simpl eigh.
  unfold OneQubit.eigh_diag2, OneQubit.diag. simpl Re.
  destruct (Rle_dec 1 (-1)) as [H|_]; [exfalso; lra|].
  unfold argmin, argmin_from.
  destruct (Rlt_dec 1 (-1)) as [H|_]; [exfalso; lra|]. reflexivity.
Qed.

Lemma OneQubit_true_states (fails : jitted -> nat -> bool) :
  fails jv_compute_true_state_id 0%nat = false ->
  @jv_compute_true_state (OneQubit.backend fails) [OneQubit.diag 1 (-1)]
  = Some [[C0; C1]].
Proof.
  intros Hf. unfold jv_compute_true_state. simpl jit. rewrite Hf.
  cbn [vmap_opt]. rewrite OneQubit_compute_true_state. reflexivity.
Qed.


(** A run of one epoch whose batched energies fail at the sample
    returns, on the sequential path. *)
Lemma energies_fail_run :
  exists out,
    @train (OneQubit.backend (OneQubit.energies_fail_at 0))
      (Failures.flat_on (OneQubit.energies_fail_at 0) 0)
      1 0 1 1 false false [] = Some out.
Proof.
  eexists.
  eapply (@train_independent_run
            (OneQubit.backend (OneQubit.energies_fail_at 0))
            (Failures.flat_on (OneQubit.energies_fail_at 0) 0)
            1 0 1%Z 1%Z false [] [[C1; C0]]).
  - discriminate.
  - apply OneQubit_true_states_flat. reflexivity.
  - intros it _ _. simpl. discriminate.
  - replace (oom_after _ _ _ _ _ _) with true by reflexivity.
    apply finalize_oom.
Qed.

Lemma fallback_misses_fidelity_witness :
  @train (OneQubit.backend (Failures.out_of_memory_at 0))
    (Failures.flat_on (Failures.out_of_memory_at 0) 0)
    1 0 1 1 false false [] = None /\
  exists out f,
    @train (OneQubit.backend (OneQubit.energies_fail_at 0))
      (Failures.flat_on (OneQubit.energies_fail_at 0) 0)
      1 0 1 1 false false [] = Some out /\
    t_oom out = true /\
    @jv_fidelties (OneQubit.backend (OneQubit.energies_fail_at 0))
      (Failures.flat_on (OneQubit.energies_fail_at 0) 0) 0 [[C1; C0]] [[0]]
    = Some f /\
    In (mse (Failures.flat_on (OneQubit.energies_fail_at 0) 0)
          (v_compute_vqe_E (Failures.flat_on (OneQubit.energies_fail_at 0) 0)
             [[0]]), f)
       (t_shown out).
Proof.
  split.
  - apply (proj1 (@fallback_misses_fidelity
                    (OneQubit.backend (Failures.out_of_memory_at 0))
                    (Failures.flat_on (Failures.out_of_memory_at 0) 0)
                    1 0 1%Z 1%Z false [] [[C1; C0]] 0%nat 0%nat
                    (OneQubit_true_states_flat (Failures.out_of_memory_at 0)
                       eq_refl)
                    (le_n 0) (le_n 1) eq_refl eq_refl eq_refl)).
    reflexivity.
  - destruct energies_fail_run as [out E].
    destruct (proj2 (@fallback_misses_fidelity
                       (OneQubit.backend (OneQubit.energies_fail_at 0))
                       (Failures.flat_on (OneQubit.energies_fail_at 0) 0)
                       1 0 1%Z 1%Z false [] [[C1; C0]] 0%nat 0%nat
                       (OneQubit_true_states_flat (OneQubit.energies_fail_at 0)
                          eq_refl)
                       (le_n 0) (le_n 1) eq_refl eq_refl eq_refl) out E)
      as [Hoom [f [Ef Hin]]].
    rewrite OneQubit_params_after in Ef, Hin.
    exists out, f. split; [exact E|]. split; [exact Hoom|].
    split; [exact Ef | exact Hin].
Defined.

Lemma diagnostics_record_witness :
  exists out,
    @train (OneQubit.backend OneQubit.never) (OneQubit.flat 0)
      1 0 1 1 false false [] = Some out /\
    MSE (t_self out)
      = map (sample (OneQubit.flat 0) 1 0 1 (vqe_params (OneQubit.flat 0)))
            (sample_epochs 1 (Z.to_nat 1)) /\
    length (MSE (t_self out)) = length (t_shown out).
Proof.
  destruct (flat_run 0) as [out [E _]].
  destruct (diagnostics_record (OneQubit.flat 0) 1 0 1%Z 1%Z false [] out
              eq_refl E)
    as [true_st [_ [_ [_ [HM [_ [_ [Hshown _]]]]]]]].
  exists out. split; [exact E|]. split; [exact HM|].
  rewrite HM, Hshown, !length_map. reflexivity.
Defined.

(** ** The recycle mode *)

Lemma epochs_at_found {B : Backend} {X : Type} (self : vqe) (n idx : nat)
    (step : list (list C) -> X -> X) (x : X) (Hmat : list (list C)) :
  nth_error (mat_Hs (vqe_Hs self)) idx = Some Hmat ->
  epochs_at self n idx step x = Some (Nat.iter n (step Hmat) x).
Proof.
  intros E. unfold epochs_at. rewrite E. destruct n; reflexivity.
Qed.

(** C1, on the order [[2, 0, 3, 1]] of a grid of four points.  The long
    first phase, from the fresh random vector and without regulariser,
    runs on the Hamiltonian of index 0, not of index 2, and its result is
    the starting point and the target of the next point; the loop then
    visits the points 0, 3 and 1, each regularised towards the state of
    the point before; the point of index 2 is never optimised and its
    row of the result is the row of zeros it was created with. *)
Theorem recycle_first_point {B : Backend} (self : vqe) (lr reg : R)
    (n_epochs : Z) (g : Rng) (H0 H1 H2 H3 : list (list C)) :
  mat_Hs (vqe_Hs self) = [H0; H1; H2; H3] ->
  recycle_rule (vqe_Hs self) = [2; 0; 3; 1]%nat ->
  n_states self = 4%nat ->
  let fresh := fst (rand (n_params self) g) in
  let first_phase :=
    fst (Nat.iter (Z.to_nat (10 * n_epochs))
           (fun po => update1 self lr (fst po) (snd po) H0)
           (fresh, opt_init lr fresh)) in
  let regularized Hmat target start :=
    fst (Nat.iter (Z.to_nat n_epochs)
           (fun po => update_reg self lr (fst po) (snd po) Hmat reg target)
           (start, opt_init lr start)) in
  let p0 := regularized H0 (vqe_state self first_phase) first_phase in
  let p3 := regularized H3 (vqe_state self p0) p0 in
  let p1 := regularized H1 (vqe_state self p3) p3 in
  train_recycle self lr reg n_epochs g
  = Some ([p0; p1; repeat 0 (n_params self); p3], snd (rand (n_params self) g)).
Proof.
  intros HH Hrule Hn fresh first_phase regularized p0 p3 p1.
  unfold train_recycle. rewrite Hrule, Hn. cbn [tl repeat].
  rewrite (surjective_pairing (rand (n_params self) g)). fold fresh.
  rewrite (epochs_at_found self _ 0 _ _ H0) by (rewrite HH; reflexivity).
  rewrite (surjective_pairing (Nat.iter _ _ _)). fold first_phase.
  cbn [list_set recycle_loop].
  rewrite (epochs_at_found self _ 0 _ _ H0) by (rewrite HH; reflexivity).
  rewrite (surjective_pairing (Nat.iter _ _ _)).
  change (fst (Nat.iter (Z.to_nat n_epochs) _ (first_phase, opt_init lr first_phase)))
    with p0.
  cbn [list_set].
  rewrite (epochs_at_found self _ 3 _ _ H3) by (rewrite HH; reflexivity).
  rewrite (surjective_pairing (Nat.iter _ _ _)).
  change (fst (Nat.iter (Z.to_nat n_epochs) _ (p0, opt_init lr p0))) with p3.
  cbn [list_set].
  rewrite (epochs_at_found self _ 1 _ _ H1) by (rewrite HH; reflexivity).
  rewrite (surjective_pairing (Nat.iter _ _ _)).
  change (fst (Nat.iter (Z.to_nat n_epochs) _ (p3, opt_init lr p3))) with p1.
  cbn [list_set]. reflexivity.
Qed.

Lemma recycle_first_point_witness :
  exists p0 p1 p3,
    @train_recycle (OneQubit.backend OneQubit.never)
      (OneQubit.engine OneQubit.never
         (OneQubit.hamiltonians
            [OneQubit.diag 1 (-1); OneQubit.diag 0 0; OneQubit.diag (-1) 1;
             OneQubit.diag 0 0]
            [-1; 0; -1; 0] [2; 0; 3; 1]%nat)
         [[0]; [0]; [0]; [0]])
      1 1 1 [] = Some ([p0; p1; [0]; p3], []).
Proof.
  eexists. eexists. eexists.
  apply (@recycle_first_point (OneQubit.backend OneQubit.never)
           (OneQubit.engine OneQubit.never
              (OneQubit.hamiltonians
                 [OneQubit.diag 1 (-1); OneQubit.diag 0 0; OneQubit.diag (-1) 1;
                  OneQubit.diag 0 0]
                 [-1; 0; -1; 0] [2; 0; 3; 1]%nat)
              [[0]; [0]; [0]; [0]])
           1 1 1%Z [] _ _ _ _ eq_refl eq_refl eq_refl).
Defined.

(** ** Persistence *)

Section Persistence.
Context {B : Backend}.

(** What [train] leaves in the engine: the grid and the circuit it had,
    and the energies and states of the parameters it ends with. *)
Lemma train_results (self : vqe) (lr reg : R) (n_epochs epochs_batch_size : Z)
    (save_trajectories recycle : bool) (g : Rng) (out : trained) :
  train self lr reg n_epochs epochs_batch_size save_trajectories recycle g
    = Some out ->
  vqe_N (t_self out) = vqe_N self /\
  vqe_Hs (t_self out) = vqe_Hs self /\
  circuit_fun (t_self out) = circuit_fun self /\
  (jit_sound B ->
   vqe_e (t_self out) = v_compute_vqe_E self (vqe_params (t_self out)) /\
   states (t_self out) = Some (v_vqe_state self (vqe_params (t_self out)))).
Proof.
  unfold train.
  destruct (jv_compute_true_state (mat_Hs (vqe_Hs self))) as [true_st|];
    [|discriminate].
  destruct recycle; cbn [negb].
  - destruct (train_recycle self lr reg n_epochs g) as [[params g']|];
      [|discriminate].
    destruct (finalize self n_epochs false params) as [[e s]|] eqn:Ef;
      [|discriminate].
    intros E. injection E as <-.
    split; [reflexivity|]. split; [reflexivity|]. split; [reflexivity|].
    intros Hjit.
    destruct (finalize_sound self n_epochs false params e s Hjit Ef) as [-> ->].
    split; reflexivity.
  - destruct (train_independent self lr reg n_epochs epochs_batch_size
                save_trajectories true_st (vqe_params self)) as [st|];
      [|discriminate].
    destruct (finalize self n_epochs (l_oom st) (l_params st)) as [[e s]|] eqn:Ef;
      [|discriminate].
    intros E. injection E as <-.
    split; [reflexivity|]. split; [reflexivity|]. split; [reflexivity|].
    intros Hjit.
    destruct (finalize_sound self n_epochs (l_oom st) (l_params st) e s Hjit Ef)
      as [-> ->].
    split; reflexivity.
Qed.

Lemma init_constructible (Hs : hamiltonian) (circuit : circuit_t) (g g' : Rng)
    (x : vqe) :
  vqe__init__ Hs circuit g = Some (x, g') ->
  constructible x /\ vqe_Hs x = Hs /\ circuit_fun x = circuit.
Proof.
  rewrite vqe__init__returns. intros E. injection E as <- <-.
  split; [reflexivity|]. split; reflexivity.
Qed.

Lemma engine_instance_constructible (x : vqe) :
  engine_instance x -> constructible x.
Proof.
  induction 1 as [Hs circuit g g' x Hinit
                 | x lr reg n_epochs ebs sv rc g out _ IH Htrain
                 | filename fs g g' y Hload].
  - apply (init_constructible Hs circuit g g' x Hinit).
  - destruct (train_results x lr reg n_epochs ebs sv rc g out Htrain)
      as [HN [HHs [Hc _]]].
    unfold constructible in *. rewrite HN, HHs. exact IH.
  - unfold load_vqe in Hload.
    destruct (read_file fs filename) as [[[Hs params] circuit]|]; [|discriminate].
    destruct (vqe__init__ Hs circuit g) as [[y0 g2]|] eqn:Hinit; [|discriminate].
    injection Hload as <- <-.
    destruct (init_constructible Hs circuit g g2 y0 Hinit) as [Hy _].
    exact Hy.
Qed.

Lemma read_file_save (self : vqe) (filename : String.string) (fs : files) :
  read_file (save self filename fs) filename
  = Some (vqe_Hs self, vqe_params self, circuit_fun self).
Proof.
  unfold read_file, save. cbn [find fst snd].
  rewrite String.eqb_refl. reflexivity.
Qed.

(** C9.  A trained engine is saved and loaded back: the loaded engine has
    the parameters of the trained one and, the compiled functions
    returning what the functions compute, the states and energies
    computed from the loaded engine on these parameters are the final
    states and energies of the trained one. *)
Theorem save_load_round_trip (x0 : vqe) (lr reg : R)
    (n_epochs epochs_batch_size : Z) (save_trajectories recycle : bool)
    (g g2 : Rng) (out : trained) (filename : String.string) (fs : files) :
  jit_sound B ->
  engine_instance x0 ->
  train x0 lr reg n_epochs epochs_batch_size save_trajectories recycle g
    = Some out ->
  let x := t_self out in
  exists y g3,
    load_vqe filename (save x filename fs) g2 = Some (y, g3) /\
    vqe_params y = vqe_params x /\
    states x = Some (v_vqe_state y (vqe_params y)) /\
    vqe_e x = v_compute_vqe_E y (vqe_params y).
Proof.
  intros Hjit Hx0 Htrain x.
  destruct (train_results x0 lr reg n_epochs epochs_batch_size save_trajectories
              recycle g out Htrain) as [HN [HHs [Hc Hres]]].
  destruct (Hres Hjit) as [He Hst].
  pose proof (engine_instance_constructible x0 Hx0) as HN0.
  unfold constructible in HN0.
  fold x in HN, HHs, Hc, He, Hst.
  unfold load_vqe. rewrite read_file_save, HHs, Hc.
  rewrite vqe__init__returns.
  eexists. eexists. split; [reflexivity|].
  split; [reflexivity|].
  rewrite Hst, He.
  unfold v_vqe_state, v_compute_vqe_E, v_compute_E, v_vqe_state, vqe_state,
    self_circuit.
  cbn [set_vqe_params vqe_N vqe_Hs circuit_fun vqe_params].
  rewrite HN0. split; reflexivity.
Qed.

End Persistence.

Lemma save_load_round_trip_witness :
  exists out y g3,
    @train (OneQubit.backend OneQubit.never)
      (OneQubit.flat (- PI + (PI - - PI) * (1 / 2))) 1 0 1 1 false false []
      = Some out /\
    load_vqe FileNames.vqe_pkl (save (t_self out) FileNames.vqe_pkl []) []
      = Some (y, g3) /\
    vqe_params y = vqe_params (t_self out) /\
    states (t_self out) = Some (v_vqe_state y (vqe_params y)) /\
    vqe_e (t_self out) = v_compute_vqe_E y (vqe_params y).
Proof.
  destruct (flat_run (- PI + (PI - - PI) * (1 / 2))) as [out [E _]].
  assert (Einit : @vqe__init__ (OneQubit.backend OneQubit.never)
            (OneQubit.hamiltonians [OneQubit.diag 0 0] [0] [0%nat])
            OneQubit.wall_RX [true]
          = Some (OneQubit.flat (- PI + (PI - - PI) * (1 / 2)), [])).
  { unfold vqe__init__. simpl snd. reflexivity. }
  destruct (@save_load_round_trip (OneQubit.backend OneQubit.never)
              _ 1 0 1%Z 1%Z false false [] [] out FileNames.vqe_pkl []
              (OneQubit_jit_sound OneQubit.never)
              (instance_init _ _ _ _ _ Einit) E)
    as [y [g3 H]].
  exists out, y, g3. split; [exact E | exact H].
Defined.

(** ** The independent mode at its edges *)

Lemma records_trajectory_true (it : nat) :
  records_trajectory true it = (Nat.modulo it 10 =? 0)%nat.
Proof. unfold records_trajectory. apply andb_true_r. Qed.

(** The epochs [it] with [it % 10 == 0], below [k]. *)
Lemma trajectory_epochs_tens (k : nat) :
  filter (records_trajectory true) (seq 0 k)
  = map (fun j => (10 * j)%nat) (seq 0 (Nat.div (k + 9) 10)).
Proof.
  induction k as [|k IH]; [reflexivity|].
  rewrite seq_S, filter_app, IH. cbn [filter].
  change (0 + k)%nat with k. rewrite records_trajectory_true.
  pose proof (Nat.div_mod_eq k 10) as Hk.
  pose proof (Nat.mod_upper_bound k 10 ltac:(lia)) as Hub.
  set (q := Nat.div k 10) in *. set (r := Nat.modulo k 10) in *.
  destruct (Nat.eqb_spec r 0) as [Hr|Hr].
  - assert (E1 : Nat.div (k + 9) 10 = q).
    { symmetry. apply (Nat.div_unique (k + 9) 10 q 9); lia. }
    assert (E2 : Nat.div (S k + 9) 10 = S q).
    { symmetry. apply (Nat.div_unique (S k + 9) 10 (S q) 0); lia. }
    rewrite E1, E2, seq_S, map_app. cbn [map Nat.add]. do 2 f_equal. lia.
  - assert (E1 : Nat.div (k + 9) 10 = S q).
    { symmetry. apply (Nat.div_unique (k + 9) 10 (S q) (r - 1)); lia. }
    assert (E2 : Nat.div (S k + 9) 10 = S q).
    { symmetry. apply (Nat.div_unique (S k + 9) 10 (S q) r); lia. }
    rewrite E1, E2, app_nil_r. reflexivity.
Qed.

Lemma filter_none {A : Type} (f : A -> bool) (l : list A) :
  (forall x, f x = false) -> filter f l = [].
Proof.
  intros H. induction l as [|x l IH]; [reflexivity|].
  cbn [filter]. rewrite H. exact IH.
Qed.

Section RunEdges.
Context {B : Backend}.
Variable self : vqe.
Variables (lr reg : R) (n_epochs epochs_batch_size : Z).
Variable save_trajectories : bool.
Variable g : Rng.

Local Abbreviation n := (Z.to_nat n_epochs).
Local Abbreviation params_at := (params_after self lr reg (vqe_params self)).
Local Abbreviation is_sample := (is_sample_epoch epochs_batch_size).
Local Abbreviation oom_at :=
  (oom_after self lr reg epochs_batch_size (vqe_params self)).

(** No sample of the batched energies fails: the flag stays down. *)
Lemma oom_after_no_failure (k : nat) :
  (forall it, (it < k)%nat -> is_sample it = true ->
     j_v_compute_vqe_E self it (params_at (S it)) <> None) ->
  oom_at k = false.
Proof.
  intros Hok.
  unfold oom_after. destruct (existsb _ (seq 0 k)) eqn:E; [|reflexivity].
  apply existsb_exists in E. destruct E as [it [Hin Hit]].
  apply in_seq in Hin. apply andb_true_iff in Hit. destruct Hit as [H1 H2].
  unfold batched_fails in H2.
  destruct (j_v_compute_vqe_E self it (params_at (S it))) eqn:E;
    [discriminate|].
  exfalso. apply (Hok it); [lia | exact H1 | exact E].
Qed.

(** X1.  A batch size of zero with at least one epoch to run: the test
    [(it + 1) % epochs_batch_size] of the first epoch divides by zero
    and [train] raises, in the independent mode. *)
Theorem train_zero_batch_size :
  (0 < n_epochs)%Z ->
  train self lr reg n_epochs 0 save_trajectories false g = None.
Proof.
  intros Hn. unfold train.
  destruct (jv_compute_true_state (mat_Hs (vqe_Hs self))) as [true_st|];
    [|reflexivity].
  cbn [negb]. unfold train_independent.
  destruct n as [|k] eqn:E; [lia|]. reflexivity.
Qed.

(** X2.  With no epoch to run ([n_epochs <= 0]) an independent run that
    returns leaves the parameters as they were, an empty record, an
    empty trajectory, nothing shown and the flag down; and the batch
    size is never looked at, so that even zero gives the same run. *)
Theorem train_no_epochs (out : trained) :
  (n_epochs <= 0)%Z ->
  train self lr reg n_epochs epochs_batch_size save_trajectories false g
    = Some out ->
  vqe_params (t_self out) = vqe_params self /\
  MSE (t_self out) = [] /\
  trajectory (t_self out) = Some [] /\
  t_shown out = [] /\
  t_oom out = false /\
  train self lr reg n_epochs 0 save_trajectories false g = Some out.
Proof.
  intros Hn. unfold train.
  destruct (jv_compute_true_state (mat_Hs (vqe_Hs self))) as [true_st|];
    [|discriminate].
  cbn [negb]. unfold train_independent.
  replace n with 0%nat by lia.
  cbn [seq epochs l_oom l_params l_MSE l_trajectory l_shown].
  destruct (finalize self n_epochs false (vqe_params self)) as [[e s]|];
    [|discriminate].
  intros E. injection E as <-. repeat split; reflexivity.
Qed.

(** X3.  The trajectory of an independent run that returns: with
    [save_trajectories] it holds the parameters as they are at the end
    of the epochs 1, 11, 21, ... (one entry for each ten epochs begun),
    and without it it is empty. *)
Theorem train_trajectory (out : trained) :
  train self lr reg n_epochs epochs_batch_size save_trajectories false g
    = Some out ->
  trajectory (t_self out)
  = Some (if save_trajectories
          then map (fun j => params_at (10 * j + 1)%nat)
                   (seq 0 (Nat.div (n + 9) 10))
          else []).
Proof.
  intros Htrain.
  destruct (train_independent_inv self lr reg n_epochs epochs_batch_size
              save_trajectories g out Htrain)
    as [true_st [e [s [_ [_ [_ ->]]]]]].
  cbn [t_self set_results trajectory]. f_equal. unfold trajectory_after.
  destruct save_trajectories.
  - rewrite trajectory_epochs_tens, map_map. apply map_ext. intros j.
    f_equal. lia.
  - rewrite filter_none; [reflexivity|].
    intros it. unfold records_trajectory. apply andb_false_r.
Qed.

(** X4.  The fallback is chosen in the loop and nowhere else: when no
    sample has failed, the final energies are asked of the batched path
    outside any handler, and their failure is the failure of [train]. *)
Theorem train_final_failure :
  (forall it, (it < n)%nat -> is_sample it = true ->
     j_v_compute_vqe_E self it (params_at (S it)) <> None) ->
  j_v_compute_vqe_E self n (params_at n) = None ->
  train self lr reg n_epochs epochs_batch_size save_trajectories false g = None.
Proof.
  intros Hok Hfinal.
  destruct (train self lr reg n_epochs epochs_batch_size save_trajectories false g)
    as [out|] eqn:Htrain; [|reflexivity].
  exfalso.
  destruct (train_independent_inv self lr reg n_epochs epochs_batch_size
              save_trajectories g out Htrain)
    as [true_st [e [s [_ [_ [Hfin _]]]]]].
  rewrite (oom_after_no_failure n Hok) in Hfin.
  unfold finalize in Hfin. cbn [negb] in Hfin.
  rewrite Hfinal in Hfin. discriminate.
Qed.

(** X5.  The mean fidelity of the progress bar is compiled and is not
    covered by the fallback: if it raises at a sample, [train] raises,
    whether the run has gone out of memory before or not. *)
Theorem train_fidelity_failure (true_st : list (list C)) (it0 : nat) :
  jv_compute_true_state (mat_Hs (vqe_Hs self)) = Some true_st ->
  (it0 < n)%nat -> is_sample it0 = true ->
  jv_fidelties self it0 true_st (params_at (S it0)) = None ->
  train self lr reg n_epochs epochs_batch_size save_trajectories false g = None.
Proof.
  intros Htrue Hit0 Hs Hfid.
  destruct (train self lr reg n_epochs epochs_batch_size save_trajectories false g)
    as [out|] eqn:Htrain; [|reflexivity].
  exfalso.
  destruct (train_independent_inv self lr reg n_epochs epochs_batch_size
              save_trajectories g out Htrain)
    as [true_st' [e [s [Htrue' [Hrun _]]]]].
  rewrite Htrue in Htrue'. injection Htrue' as <-.
  destruct (epochs_loop_after_inv self lr reg epochs_batch_size save_trajectories
              true_st (vqe_params self) n _ Hrun) as [_ [_ H]].
  apply (H it0 Hit0 Hs Hfid).
Qed.

(** X6.  A run in which no sample fails stays on the batched path: the
    flag is still down at the end, and the energies and states of the
    engine are the ones the compiled functions returned on the final
    parameters. *)
Theorem train_without_failure (out : trained) :
  train self lr reg n_epochs epochs_batch_size save_trajectories false g
    = Some out ->
  (forall it, (it < n)%nat -> is_sample it = true ->
     j_v_compute_vqe_E self it (params_at (S it)) <> None) ->
  t_oom out = false /\
  vqe_params (t_self out) = params_at n /\
  j_v_compute_vqe_E self n (params_at n) = Some (vqe_e (t_self out)) /\
  exists s, jv_vqe_state self n (params_at n) = Some s /\
            states (t_self out) = Some s.
Proof.
  intros Htrain Hok.
  destruct (train_independent_inv self lr reg n_epochs epochs_batch_size
              save_trajectories g out Htrain)
    as [true_st [e [s [_ [_ [Hfin ->]]]]]].
  cbn [t_self t_oom set_results vqe_params vqe_e states].
  rewrite (oom_after_no_failure n Hok) in *.
  unfold finalize in Hfin. cbn [negb] in Hfin.
  destruct (j_v_compute_vqe_E self n (params_at n)) as [e'|]; [|discriminate].
  destruct (jv_vqe_state self n (params_at n)) as [s'|]; [|discriminate].
  injection Hfin as <- <-.
  split; [reflexivity|]. split; [reflexivity|]. split; [reflexivity|].
  exists s'. split; reflexivity.
Qed.

End RunEdges.

(** Every independent run of the flat engine returns, on the backend
    that never fails, whatever the number of epochs. *)
Lemma flat_train (theta lr reg : R) (n_epochs epochs_batch_size : Z)
    (save_trajectories : bool) :
  epochs_batch_size <> 0%Z ->
  exists out,
    @train (OneQubit.backend OneQubit.never) (OneQubit.flat theta)
      lr reg n_epochs epochs_batch_size save_trajectories false [] = Some out.
Proof.
  intros Hebs. eexists.
  eapply (@train_independent_run (OneQubit.backend OneQubit.never)
            (OneQubit.flat theta) lr reg n_epochs epochs_batch_size
            save_trajectories [] [[C1; C0]]).
  - exact Hebs.
  - apply OneQubit_true_states_flat. reflexivity.
  - intros it _ _. simpl. discriminate.
  - rewrite never_oom. unfold finalize. cbn [negb]. reflexivity.
Qed.

Lemma train_zero_batch_size_witness :
  @train (OneQubit.backend OneQubit.never) (OneQubit.flat 0)
    1 0 1 0 false false [] = None.
Proof.
  apply (@train_zero_batch_size (OneQubit.backend OneQubit.never)
           (OneQubit.flat 0) 1 0 1%Z false []).
  lia.
Defined.

Lemma train_no_epochs_witness :
  exists out,
    @train (OneQubit.backend OneQubit.never) (OneQubit.flat 0)
      1 0 0 1 true false [] = Some out /\
    vqe_params (t_self out) = [[0]] /\
    MSE (t_self out) = [] /\
    trajectory (t_self out) = Some [] /\
    @train (OneQubit.backend OneQubit.never) (OneQubit.flat 0)
      1 0 0 0 true false [] = Some out.
Proof.
  destruct (flat_train 0 1 0 0%Z 1%Z true ltac:(discriminate)) as [out E].
  destruct (@train_no_epochs (OneQubit.backend OneQubit.never)
              (OneQubit.flat 0) 1 0 0%Z 1%Z true [] out ltac:(lia) E)
    as [Hp [HM [Ht [_ [_ H0]]]]].
  exists out. split; [exact E|]. split; [exact Hp|]. split; [exact HM|].
  split; [exact Ht | exact H0].
Defined.

Lemma train_trajectory_witness :
  exists out,
    @train (OneQubit.backend OneQubit.never) (OneQubit.flat 0)
      1 0 11 1 true false [] = Some out /\
    trajectory (t_self out) = Some [[[0]]; [[0]]].
Proof.
  destruct (flat_train 0 1 0 11%Z 1%Z true ltac:(discriminate)) as [out E].
  exists out. split; [exact E|].
  rewrite (@train_trajectory (OneQubit.backend OneQubit.never)
             (OneQubit.flat 0) 1 0 11%Z 1%Z true [] out E).
  change (Nat.div (Z.to_nat 11 + 9) 10) with 2%nat.
  cbn [seq map]. rewrite !OneQubit_params_after. reflexivity.
Defined.

Lemma train_final_failure_witness :
  @train (OneQubit.backend (OneQubit.energies_fail_at 1))
    (Failures.flat_on (OneQubit.energies_fail_at 1) 0)
    1 0 1 1 false false [] = None.
Proof.
  apply (@train_final_failure (OneQubit.backend (OneQubit.energies_fail_at 1))
           (Failures.flat_on (OneQubit.energies_fail_at 1) 0) 1 0 1%Z 1%Z false []).
  - intros it Hit _. assert (it = 0%nat) by (simpl in Hit; lia). subst it.
    simpl. discriminate.
  - reflexivity.
Defined.

Lemma train_fidelity_failure_witness :
  @train (OneQubit.backend (Failures.fidelities_fail_at 0))
    (Failures.flat_on (Failures.fidelities_fail_at 0) 0)
    1 0 1 1 false false [] = None.
Proof.
  apply (@train_fidelity_failure (OneQubit.backend (Failures.fidelities_fail_at 0))
           (Failures.flat_on (Failures.fidelities_fail_at 0) 0) 1 0 1%Z 1%Z false []
           [[C1; C0]] 0%nat).
  - apply OneQubit_true_states_flat. reflexivity.
  - simpl. lia.
  - reflexivity.
  - reflexivity.
Defined.

Lemma train_without_failure_witness :
  exists out,
    @train (OneQubit.backend OneQubit.never) (OneQubit.flat 0)
      1 0 3 2 false false [] = Some out /\
    t_oom out = false /\
    vqe_params (t_self out) = [[0]].
Proof.
  destruct (flat_train 0 1 0 3%Z 2%Z false ltac:(discriminate)) as [out E].
  destruct (@train_without_failure (OneQubit.backend OneQubit.never)
              (OneQubit.flat 0) 1 0 3%Z 2%Z false [] out E)
    as [Hoom [Hp _]].
  - intros it _ _. simpl. discriminate.
  - exists out. split; [exact E|]. split; [exact Hoom|].
    rewrite Hp. apply OneQubit_params_after.
Defined.
(** ** The recycle mode, for any order *)

Lemma list_set_Some {A : Type} (l l' : list A) (i : nat) (v : A) :
  list_set l i v = Some l' ->
  (i < length l)%nat /\ length l' = length l /\
  nth_error l' i = Some v /\
  forall j, j <> i -> nth_error l' j = nth_error l j.
Proof.
  revert l' i. induction l as [|x l IH]; intros l' i; [destruct i; discriminate|].
  destruct i as [|i]; cbn [list_set].
  - intros E. injection E as <-. cbn. split; [lia|]. split; [reflexivity|].
    split; [reflexivity|]. intros [|j] Hj; [congruence | reflexivity].
  - destruct (list_set l i v) as [r|] eqn:Er; [|discriminate].
    intros E. injection E as <-.
    destruct (IH r i Er) as [Hi [Hl [Hn Ho]]].
    cbn. split; [lia|]. split; [lia|]. split; [exact Hn|].
    intros [|j] Hj; [reflexivity | apply Ho; lia].
Qed.

Lemma list_set_None {A : Type} (l : list A) (i : nat) (v : A) :
  list_set l i v = None <-> (length l <= i)%nat.
Proof.
  revert i. induction l as [|x l IH]; intros i.
  - destruct i; cbn; split; intros; try reflexivity; lia.
  - destruct i as [|i]; cbn [list_set length].
    + split; [discriminate | lia].
    + specialize (IH i). destruct (list_set l i v).
      * split; [discriminate|]. intros H. exfalso.
        assert (Hn : (length l <= i)%nat) by lia.
        apply IH in Hn. discriminate.
      * split; [|reflexivity]. intros _.
        assert (Hn : (length l <= i)%nat) by (apply IH; reflexivity). lia.
Qed.

Section Recycle.
Context {B : Backend}.
Variable self : vqe.
Variables (lr reg : R) (n_epochs : Z).

Lemma epochs_at_in_range {X : Type} (k idx : nat)
    (step : list (list C) -> X -> X) (x : X) :
  (idx < length (mat_Hs (vqe_Hs self)))%nat ->
  epochs_at self k idx step x <> None.
Proof.
  intros Hi. unfold epochs_at. destruct k; [discriminate|].
  destruct (nth_error (mat_Hs (vqe_Hs self)) idx) eqn:E; [discriminate|].
  apply nth_error_None in E. lia.
Qed.

Lemma recycle_loop_Some (rule : list nat) (param : list R) (prev : list C)
    (params params' : list (list R)) :
  recycle_loop self lr reg n_epochs rule param prev params = Some params' ->
  length params' = length params /\
  (forall idx, In idx rule -> (idx < length params)%nat) /\
  forall j, ~ In j rule -> nth_error params' j = nth_error params j.
Proof.
  revert param prev params. induction rule as [|idx rule IH];
    intros param prev params; cbn [recycle_loop].
  - intros E. injection E as <-.
    split; [reflexivity|]. split; [intros idx []|]. reflexivity.
  - destruct (epochs_at self (Z.to_nat n_epochs) idx _ _) as [[p o]|];
      [|discriminate].
    destruct (list_set params idx p) as [ps|] eqn:Es; [|discriminate].
    intros E. destruct (IH _ _ _ E) as [Hl [Hin Ho]].
    destruct (list_set_Some _ _ _ _ Es) as [Hi [Hl' [_ Ho']]].
    split; [congruence|]. split.
    + intros i [<-|Hi']; [exact Hi|]. rewrite <- Hl'. apply Hin, Hi'.
    + intros j Hj. rewrite Ho by (intros H; apply Hj; right; exact H).
      apply Ho'. intros ->. apply Hj. left. reflexivity.
Qed.

Lemma recycle_loop_in_range (rule : list nat) (param : list R) (prev : list C)
    (params : list (list R)) :
  (length params <= length (mat_Hs (vqe_Hs self)))%nat ->
  (forall idx, In idx rule -> (idx < length params)%nat) ->
  recycle_loop self lr reg n_epochs rule param prev params <> None.
Proof.
  intros HH. revert param prev params HH.
  induction rule as [|idx rule IH]; intros param prev params HH Hin;
    cbn [recycle_loop]; [discriminate|].
  assert (Hi : (idx < length params)%nat) by (apply Hin; left; reflexivity).
  destruct (epochs_at self (Z.to_nat n_epochs) idx
              (fun Hmat po => update_reg self lr (fst po) (snd po) Hmat reg prev)
              (param, opt_init lr param)) as [[p o]|] eqn:Ee.
  - destruct (list_set params idx p) as [ps|] eqn:Es.
    + destruct (list_set_Some _ _ _ _ Es) as [_ [Hl _]].
      apply IH; [lia|]. intros i Hi'. rewrite Hl. apply Hin. right. exact Hi'.
    + apply list_set_None in Es. lia.
  - exfalso. revert Ee. apply epochs_at_in_range. lia.
Qed.

(** What the recycle mode has done when it returns. *)
Lemma train_recycle_inv (g g' : Rng) (params : list (list R)) :
  train_recycle self lr reg n_epochs g = Some (params, g') ->
  length params = n_states self /\
  g' = snd (rand (n_params self) g) /\
  (0 < n_states self)%nat /\
  (forall idx, In idx (tl (recycle_rule (vqe_Hs self))) ->
     (idx < n_states self)%nat) /\
  forall i, i <> 0%nat -> ~ In i (tl (recycle_rule (vqe_Hs self))) ->
    (i < n_states self)%nat ->
    nth_error params i = Some (repeat 0 (n_params self)).
Proof.
  unfold train_recycle.
  destruct (rand (n_params self) g) as [fresh g1]. cbn [snd].
  destruct (epochs_at self (Z.to_nat (10 * n_epochs)) 0 _ _) as [[p o]|];
    [|discriminate].
  destruct (list_set (repeat (repeat 0 (n_params self)) (n_states self)) 0 p)
    as [ps|] eqn:Es; [|discriminate].
  destruct (recycle_loop self lr reg n_epochs (tl (recycle_rule (vqe_Hs self)))
              p (j_vqe_state self p) ps) as [ps'|] eqn:El; [|discriminate].
  intros E. injection E as <- <-.
  destruct (list_set_Some _ _ _ _ Es) as [H0 [Hl [_ Ho]]].
  destruct (recycle_loop_Some _ _ _ _ _ El) as [Hl' [Hin Ho']].
  rewrite repeat_length in H0, Hl.
  split; [congruence|]. split; [reflexivity|]. split; [exact H0|].
  split; [intros idx Hi; rewrite <- Hl; apply Hin, Hi|].
  intros i Hi0 Hnot Hi.
  rewrite (Ho' i Hnot), (Ho i Hi0).
  rewrite nth_error_repeat by exact Hi. reflexivity.
Qed.

(** The recycle mode returns when its indices are indices of the grid. *)
Lemma train_recycle_in_range (g : Rng) :
  (n_states self <= length (mat_Hs (vqe_Hs self)))%nat ->
  (0 < n_states self)%nat ->
  (forall idx, In idx (tl (recycle_rule (vqe_Hs self))) ->
     (idx < n_states self)%nat) ->
  train_recycle self lr reg n_epochs g <> None.
Proof.
  intros HH H0 Hin. unfold train_recycle.
  destruct (rand (n_params self) g) as [fresh g1].
  destruct (epochs_at self (Z.to_nat (10 * n_epochs)) 0
              (fun Hmat po => update1 self lr (fst po) (snd po) Hmat)
              (fresh, opt_init lr fresh)) as [[p o]|] eqn:Ee.
  - destruct (list_set (repeat (repeat 0 (n_params self)) (n_states self)) 0 p)
      as [ps|] eqn:Es.
    + destruct (list_set_Some _ _ _ _ Es) as [_ [Hl _]].
      rewrite repeat_length in Hl.
      destruct (recycle_loop self lr reg n_epochs
                  (tl (recycle_rule (vqe_Hs self))) p (j_vqe_state self p) ps)
        eqn:El; [discriminate|].
      exfalso. revert El. apply recycle_loop_in_range; [lia|].
      intros idx Hi. rewrite Hl. apply Hin, Hi.
    + apply list_set_None in Es. rewrite repeat_length in Es. lia.
  - exfalso. revert Ee. apply epochs_at_in_range. lia.
Qed.

(** X7.  What the recycle mode returns, for any traversal order: as many
    rows as the grid has points; the random state advanced by the one
    fresh vector; and every row other than row 0 and the rows named
    after the first entry of the order is still the row of zeros it was
    created with.  The first entry of the order is not read. *)
Theorem train_recycle_rows (g g' : Rng) (params : list (list R)) :
  train_recycle self lr reg n_epochs g = Some (params, g') ->
  length params = n_states self /\
  g' = snd (rand (n_params self) g) /\
  forall i, i <> 0%nat -> ~ In i (tl (recycle_rule (vqe_Hs self))) ->
    (i < n_states self)%nat ->
    nth_error params i = Some (repeat 0 (n_params self)).
Proof.
  intros E. destruct (train_recycle_inv g g' params E) as [Hl [Hg [_ [_ Hz]]]].
  split; [exact Hl|]. split; [exact Hg | exact Hz].
Qed.

(** X8.  When the recycle mode raises for its indices: on a grid with as
    many matrices as points, it returns exactly when the grid is not
    empty and every entry of the order after the first is the index of a
    point.  The first entry may be anything. *)
Theorem train_recycle_returns (g : Rng) :
  length (mat_Hs (vqe_Hs self)) = n_states self ->
  (train_recycle self lr reg n_epochs g <> None <->
   (0 < n_states self)%nat /\
   forall idx, In idx (tl (recycle_rule (vqe_Hs self))) ->
     (idx < n_states self)%nat).
Proof.
  intros HH. split.
  - destruct (train_recycle self lr reg n_epochs g) as [[params g']|] eqn:E;
      [|congruence].
    intros _. destruct (train_recycle_inv g g' params E) as [_ [_ [H0 [Hin _]]]].
    split; assumption.
  - intros [H0 Hin]. apply train_recycle_in_range; [lia | exact H0 | exact Hin].
Qed.

(** X9.  A run of [train] in the recycle mode that returns has recorded
    no diagnostic and shown none, has its flag [oom] down, has marked the
    engine as recycled and left its trajectory alone; its energies and
    states are the ones the compiled functions returned; and the batch
    size and [save_trajectories] play no part in it. *)
Theorem train_recycle_mode (epochs_batch_size : Z) (save_trajectories : bool)
    (g : Rng) (out : trained) :
  train self lr reg n_epochs epochs_batch_size save_trajectories true g
    = Some out ->
  MSE (t_self out) = [] /\
  t_shown out = [] /\
  t_oom out = false /\
  recycle (t_self out) = true /\
  trajectory (t_self out) = trajectory self /\
  t_rng out = snd (rand (n_params self) g) /\
  train_recycle self lr reg n_epochs g
    = Some (vqe_params (t_self out), t_rng out) /\
  j_v_compute_vqe_E self (Z.to_nat n_epochs) (vqe_params (t_self out))
    = Some (vqe_e (t_self out)) /\
  (exists s, jv_vqe_state self (Z.to_nat n_epochs) (vqe_params (t_self out))
               = Some s /\ states (t_self out) = Some s) /\
  forall epochs_batch_size' save_trajectories',
    train self lr reg n_epochs epochs_batch_size' save_trajectories' true g
    = Some out.
Proof.
  unfold train.
  destruct (jv_compute_true_state (mat_Hs (vqe_Hs self))) as [true_st|];
    [|discriminate].
  cbn [negb].
  destruct (train_recycle self lr reg n_epochs g) as [[params g']|] eqn:Er;
    [|discriminate].
  unfold finalize. cbn [negb].
  destruct (j_v_compute_vqe_E self (Z.to_nat n_epochs) params) as [e|] eqn:Ee;
    [|discriminate].
  destruct (jv_vqe_state self (Z.to_nat n_epochs) params) as [s|] eqn:Es;
    [|discriminate].
  intros E. injection E as <-.
  cbn [t_self t_shown t_oom t_rng set_results MSE recycle trajectory vqe_params
       vqe_e states].
  destruct (train_recycle_inv g g' params Er) as [_ [Hg _]].
  rewrite Ee, Es.
  repeat split; try reflexivity; try assumption.
  exists s. split; reflexivity.
Qed.

(** X10.  The regularised loss of the recycle mode on unit states, with
    [reg >= 0]: it is the plain loss plus [reg] times the fidelity with
    the state of the point before, lies between the plain loss and the
    plain loss plus [reg], and reaches this upper end when the state is
    the state of the point before. *)
Theorem loss_reg_bounds (param : list R) (Hmat : list (list C)) (r : R)
    (previous_state : list C) :
  unit_norm (vqe_state self param) -> unit_norm previous_state ->
  length (vqe_state self param) = length previous_state -> 0 <= r ->
  loss_reg self param Hmat r previous_state
    = loss1 self param Hmat
      + r * vqe_fidelty (vqe_state self param) previous_state /\
  loss1 self param Hmat <= loss_reg self param Hmat r previous_state
    <= loss1 self param Hmat + r /\
  loss_reg self param Hmat r (vqe_state self param) = loss1 self param Hmat + r.
Proof.
  intros Hu Hp Hl Hr.
  assert (E : forall prev, loss_reg self param Hmat r prev
            = loss1 self param Hmat + r * vqe_fidelty (vqe_state self param) prev)
    by reflexivity.
  split; [apply E|]. split.
  - rewrite E.
    pose proof (vqe_fidelty_range _ _ Hl Hu Hp) as [H0 H1].
    split; nra.
  - rewrite E, vqe_fidelty_self by exact Hu. ring.
Qed.

End Recycle.

Lemma four_points_recycle (rule : list nat) (lr reg : R) (n_epochs : Z) :
  (forall idx, In idx (tl rule) -> (idx < 4)%nat) ->
  exists params g',
    @train_recycle (OneQubit.backend OneQubit.never) (four_points rule)
      lr reg n_epochs [] = Some (params, g').
Proof.
  intros Hin.
  destruct (@train_recycle (OneQubit.backend OneQubit.never) (four_points rule)
              lr reg n_epochs []) as [[params g']|] eqn:E.
  - exists params, g'. reflexivity.
  - exfalso. revert E. apply train_recycle_in_range.
    + cbn. lia.
    + cbn. lia.
    + exact Hin.
Qed.

Lemma train_recycle_rows_witness :
  exists params g',
    @train_recycle (OneQubit.backend OneQubit.never)
      (four_points [2; 0; 3; 1]%nat) 1 1 1 [] = Some (params, g') /\
    length params = 4%nat /\
    nth_error params 2 = Some [0].
Proof.
  destruct (four_points_recycle [2; 0; 3; 1]%nat 1 1 1%Z) as [params [g' E]].
  - cbn. intros idx H. lia.
  - destruct (@train_recycle_rows (OneQubit.backend OneQubit.never)
                (four_points [2; 0; 3; 1]%nat) 1 1 1%Z [] g' params E)
      as [Hl [_ Hz]].
    exists params, g'. split; [exact E|]. split; [exact Hl|].
    apply (Hz 2%nat).
    + discriminate.
    + cbn. intros H. lia.
    + cbn. lia.
Defined.

Lemma train_recycle_returns_witness :
  @train_recycle (OneQubit.backend OneQubit.never)
    (four_points [7; 0; 3; 1]%nat) 1 1 1 [] <> None /\
  @train_recycle (OneQubit.backend OneQubit.never)
    (four_points [0; 1; 4]%nat) 1 1 1 [] = None.
Proof.
  split.
  - apply (@train_recycle_returns (OneQubit.backend OneQubit.never)
             (four_points [7; 0; 3; 1]%nat) 1 1 1%Z [] eq_refl).
    split; [cbn; lia|]. cbn. intros idx H. lia.
  - destruct (@train_recycle (OneQubit.backend OneQubit.never)
                (four_points [0; 1; 4]%nat) 1 1 1 []) eqn:E; [|reflexivity].
    exfalso.
    assert (Hne : @train_recycle (OneQubit.backend OneQubit.never)
                    (four_points [0; 1; 4]%nat) 1 1 1 [] <> None)
      by (rewrite E; discriminate).
    apply (@train_recycle_returns (OneQubit.backend OneQubit.never)
             (four_points [0; 1; 4]%nat) 1 1 1%Z [] eq_refl) in Hne.
    destruct Hne as [_ Hin]. specialize (Hin 4%nat). cbn in Hin. lia.
Defined.

(** The flat engine trains in the recycle mode, on the backend that
    never fails. *)
Lemma flat_train_recycle (theta lr reg : R) (n_epochs epochs_batch_size : Z)
    (save_trajectories : bool) :
  exists out,
    @train (OneQubit.backend OneQubit.never) (OneQubit.flat theta)
      lr reg n_epochs epochs_batch_size save_trajectories true [] = Some out.
Proof.
  unfold train. rewrite OneQubit_true_states_flat by reflexivity.
  cbn [negb].
  destruct (@train_recycle (OneQubit.backend OneQubit.never)
              (OneQubit.flat theta) lr reg n_epochs [])
    as [[params g']|] eqn:E.
  - unfold finalize. cbn [negb]. simpl jit. eexists. reflexivity.
  - exfalso. revert E. apply train_recycle_in_range.
    + cbn. lia.
    + cbn. lia.
    + cbn. intros idx [].
Qed.

Lemma train_recycle_mode_witness :
  exists out,
    @train (OneQubit.backend OneQubit.never) (OneQubit.flat 0)
      1 1 2 500 false true [] = Some out /\
    MSE (t_self out) = [] /\
    recycle (t_self out) = true /\
    @train (OneQubit.backend OneQubit.never) (OneQubit.flat 0)
      1 1 2 0 true true [] = Some out.
Proof.
  destruct (flat_train_recycle 0 1 1 2%Z 500%Z false) as [out E].
  destruct (@train_recycle_mode (OneQubit.backend OneQubit.never)
              (OneQubit.flat 0) 1 1 2%Z 500%Z false [] out E)
    as [HM [_ [_ [Hr [_ [_ [_ [_ [_ Hany]]]]]]]]].
  exists out. split; [exact E|]. split; [exact HM|]. split; [exact Hr|].
  apply Hany.
Defined.

Lemma rx_state_unit (theta : R) : unit_norm (OneQubit.rx_state theta).
Proof.
  unfold unit_norm, norm2, OneQubit.rx_state, Rsum, Cnorm2, Re, Im.
  cbn [map fold_right fst snd].
  pose proof (sin2_cos2 (theta / 2)) as H. unfold Rsqr in H. lra.
Qed.

Lemma loss_reg_bounds_witness :
  loss1 (OneQubit.flat 0) [0] (OneQubit.diag 0 0)
    <= loss_reg (OneQubit.flat 0) [0] (OneQubit.diag 0 0) 1 [C1; C0]
    <= loss1 (OneQubit.flat 0) [0] (OneQubit.diag 0 0) + 1.
Proof.
  apply (@loss_reg_bounds (OneQubit.backend OneQubit.never) (OneQubit.flat 0)
           [0] (OneQubit.diag 0 0) 1 [C1; C0]).
  - apply rx_state_unit.
  - unfold unit_norm, norm2, Rsum, Cnorm2, C1, C0, Re, Im.
    cbn [map fold_right fst snd]. lra.
  - reflexivity.
  - lra.
Defined.
(** ** What [train] keeps and what the batch size means *)

Lemma mod_opp_eqb (a b : Z) :
  ((a mod (- b) =? 0) = (a mod b =? 0))%Z.
Proof.
  destruct (Z.eq_dec b 0) as [->|Hb]; [reflexivity|].
  destruct (Z.eqb_spec (a mod b) 0) as [E|N].
  - apply Z.eqb_eq. apply Z.mod_divide; [lia|].
    apply Z.divide_opp_l. apply Z.mod_divide; [exact Hb | exact E].
  - apply Z.eqb_neq. intros E. apply N.
    apply Z.mod_divide; [exact Hb|].
    apply Z.divide_opp_l. rewrite <- (Z.opp_involutive b) at 1.
    apply Z.divide_opp_l. apply Z.divide_opp_l.
    apply Z.mod_divide; [lia | exact E].
Qed.

Section Frame.
Context {B : Backend}.
Variable self : vqe.
Variables (lr reg : R) (n_epochs epochs_batch_size : Z).
Variable save_trajectories : bool.

Lemma epoch_opp (true_st : list (list C)) (it : nat) (st : loop_state) :
  epoch self lr reg (- epochs_batch_size) save_trajectories true_st it st
  = epoch self lr reg epochs_batch_size save_trajectories true_st it st.
Proof.
  unfold epoch.
  destruct (update self lr reg (l_params st) (l_opt st)) as [params opt_state].
  rewrite mod_opp_eqb.
  replace (- epochs_batch_size =? 0)%Z with (epochs_batch_size =? 0)%Z;
    [reflexivity|].
  destruct (Z.eqb_spec epochs_batch_size 0) as [->|N]; [reflexivity|].
  symmetry. apply Z.eqb_neq. lia.
Qed.

Lemma epochs_opp (true_st : list (list C)) (its : list nat) (st : loop_state) :
  epochs self lr reg (- epochs_batch_size) save_trajectories true_st its st
  = epochs self lr reg epochs_batch_size save_trajectories true_st its st.
Proof.
  revert st. induction its as [|it its IH]; intros st; [reflexivity|].
  cbn [epochs]. rewrite epoch_opp.
  destruct (epoch self lr reg epochs_batch_size save_trajectories true_st it st);
    [apply IH | reflexivity].
Qed.

(** X11.  What a call of [train] that returns leaves alone, in either
    mode: the number of qubits, the grid, the numbers of points and of
    parameters, the circuit and [states_dist].  The flag [recycle] of
    the engine is the argument of the call, the reference states are the
    ones computed from the grid, and the independent mode does not draw
    from the random source. *)
Theorem train_frame (recycle_mode : bool) (g : Rng) (out : trained) :
  train self lr reg n_epochs epochs_batch_size save_trajectories recycle_mode g
    = Some out ->
  vqe_N (t_self out) = vqe_N self /\
  vqe_Hs (t_self out) = vqe_Hs self /\
  n_states (t_self out) = n_states self /\
  n_params (t_self out) = n_params self /\
  circuit_fun (t_self out) = circuit_fun self /\
  states_dist (t_self out) = states_dist self /\
  recycle (t_self out) = recycle_mode /\
  true_states (t_self out) = jv_compute_true_state (mat_Hs (vqe_Hs self)) /\
  (recycle_mode = false -> t_rng out = g).
Proof.
  unfold train.
  destruct (jv_compute_true_state (mat_Hs (vqe_Hs self))) as [true_st|];
    [|discriminate].
  destruct recycle_mode; cbn [negb].
  - destruct (train_recycle self lr reg n_epochs g) as [[params g']|];
      [|discriminate].
    destruct (finalize self n_epochs false params) as [[e s]|]; [|discriminate].
    intros E. injection E as <-.
    repeat split; try reflexivity. discriminate.
  - destruct (train_independent self lr reg n_epochs epochs_batch_size
                save_trajectories true_st (vqe_params self)) as [st|];
      [|discriminate].
    destruct (finalize self n_epochs (l_oom st) (l_params st)) as [[e s]|];
      [|discriminate].
    intros E. injection E as <-.
    repeat split; reflexivity.
Qed.

(** X12.  The sign of the batch size plays no part: [(it + 1) % b] is
    zero exactly when [(it + 1) % -b] is, so that a run with a negative
    batch size is the run with its absolute value, sample for sample. *)
Theorem train_negative_batch_size (recycle_mode : bool) (g : Rng) :
  train self lr reg n_epochs (- epochs_batch_size) save_trajectories
    recycle_mode g
  = train self lr reg n_epochs epochs_batch_size save_trajectories
      recycle_mode g.
Proof.
  unfold train, train_independent.
  destruct (jv_compute_true_state (mat_Hs (vqe_Hs self))) as [true_st|];
    [|reflexivity].
  destruct recycle_mode; cbn [negb]; [reflexivity|].
  rewrite epochs_opp. reflexivity.
Qed.

End Frame.

Lemma train_frame_witness :
  exists out,
    @train (OneQubit.backend OneQubit.never) (OneQubit.flat 0)
      1 0 3 2 false false [] = Some out /\
    n_states (t_self out) = 1%nat /\
    true_states (t_self out) = Some [[C1; C0]] /\
    t_rng out = [].
Proof.
  destruct (flat_train 0 1 0 3%Z 2%Z false ltac:(discriminate)) as [out E].
  destruct (@train_frame (OneQubit.backend OneQubit.never) (OneQubit.flat 0)
              1 0 3%Z 2%Z false false [] out E)
    as [_ [_ [Hn [_ [_ [_ [_ [Ht Hg]]]]]]]].
  exists out. split; [exact E|]. split; [exact Hn|]. split.
  - rewrite Ht. apply OneQubit_true_states_flat. reflexivity.
  - apply Hg. reflexivity.
Defined.
(** ** What a file keeps *)

Section Files.
Context {B : Backend}.

(** X13.  Loading what [save] wrote, for an engine whose circuit reads
    no more than the placeholder holds: the constructor runs again on
    the saved grid and circuit, so the numbers of points and of
    parameters are computed anew and the random source is advanced by a
    whole tensor of draws that is then thrown away for the saved
    parameters; nothing of a training is kept (record, energies, states,
    reference states, trajectory and the flag [recycle] are those of a
    new engine); and saving the loaded engine writes the same file. *)
Theorem load_vqe_saved (x : vqe) (filename : String.string) (fs : files)
    (g : Rng) :
  (snd (circuit_fun x (Hs_N (vqe_Hs x)) placeholder) <= length placeholder)%nat ->
  exists y,
    load_vqe filename (save x filename fs) g
      = Some (y, snd (draws (Hs_n_states (vqe_Hs x)
                            * snd (circuit_fun x (Hs_N (vqe_Hs x)) placeholder))
                         g)) /\
    vqe_params y = vqe_params x /\
    vqe_Hs y = vqe_Hs x /\
    circuit_fun y = circuit_fun x /\
    vqe_N y = Hs_N (vqe_Hs x) /\
    n_states y = Hs_n_states (vqe_Hs x) /\
    n_params y = snd (circuit_fun x (Hs_N (vqe_Hs x)) placeholder) /\
    MSE y = [] /\ vqe_e y = [] /\ recycle y = false /\ states_dist y = [] /\
    true_states y = None /\ trajectory y = None /\ states y = None /\
    save y filename fs = save x filename fs.
Proof.
  intros _. unfold load_vqe. rewrite read_file_save.
  unfold vqe__init__.
  pose proof (uniform2_draws (- PI) PI (Hs_n_states (vqe_Hs x))
                (snd (circuit_fun x (Hs_N (vqe_Hs x)) placeholder)) g)
    as [_ Hg].
  destruct (uniform2 (- PI) PI (Hs_n_states (vqe_Hs x))
              (snd (circuit_fun x (Hs_N (vqe_Hs x)) placeholder)) g)
    as [params g'].
  cbn [snd] in Hg. subst g'.
  eexists. split; [reflexivity|].
  cbn [set_vqe_params vqe_params vqe_Hs circuit_fun vqe_N n_states n_params
       MSE vqe_e recycle states_dist true_states trajectory states].
  repeat split; reflexivity.
Qed.

End Files.

Lemma load_vqe_saved_witness :
  exists y,
    @load_vqe (OneQubit.backend OneQubit.never) FileNames.vqe_pkl
      (save (OneQubit.flat 1) FileNames.vqe_pkl []) [true] = Some (y, []) /\
    vqe_params y = [[1]] /\
    MSE y = [] /\ states y = None.
Proof.
  destruct (@load_vqe_saved (OneQubit.backend OneQubit.never) (OneQubit.flat 1)
              FileNames.vqe_pkl [] [true])
    as (y & E & Hp & _ & _ & _ & _ & _ & HM & _ & _ & _ & _ & _ & Hs & _).
  - unfold placeholder. rewrite repeat_length. simpl. lia.
  - exists y. split; [exact E|]. split; [exact Hp|]. split; [exact HM | exact Hs].
Defined.

(** ** Energies *)

Lemma matmul_vm_scale (c : C) (v : list C) (H : list (list C)) :
  matmul_vm (scale c v) H = scale c (matmul_vm v H).
Proof.
  unfold matmul_vm, scale at 2. rewrite map_map. apply map_ext.
  intros j. apply matmul_vv_scale_l.
Qed.

Lemma nth_matmul_mv (H : list (list C)) (v : list C) (i : nat) :
  nth i (matmul_mv H v) C0 = matmul_vv (nth i H []) v.
Proof.
  unfold matmul_mv. revert i. induction H as [|row H IH]; intros [|i];
    try reflexivity.
  cbn [map nth]. apply IH.
Qed.

Lemma nth_scale (c : C) (v : list C) (i : nat) :
  nth i (scale c v) C0 = Cmul c (nth i v C0).
Proof.
  unfold scale. revert i. induction v as [|x v IH]; intros [|i]; cbn [map nth];
    try (symmetry; apply Cmul_0_r); try reflexivity.
  apply IH.
Qed.

Section Energies.
Context {B : Backend}.

(** X15.  The energy is homogeneous of degree two in the modulus of the
    state: multiplying the state by a complex number [c] multiplies
    [conj(s) @ H @ s] by [|c|^2].  So a global phase leaves the energy
    of a state unchanged, as it leaves its fidelities. *)
Theorem compute_E_scale (c : C) (s : list C) (H : list (list C)) :
  compute_E (scale c s) H = Cmul (RtoC (Cnorm2 c)) (compute_E s H) /\
  Re (compute_E (scale c s) H) = Cnorm2 c * Re (compute_E s H) /\
  (Cabs c = 1 -> compute_E (scale c s) H = compute_E s H).
Proof.
  assert (E : compute_E (scale c s) H = Cmul (RtoC (Cnorm2 c)) (compute_E s H)).
  { unfold compute_E.
    rewrite conj_scale, matmul_vm_scale, matmul_vv_scale_l, matmul_vv_scale_r.
    rewrite <- Cmul_conj_self.
    generalize (matmul_vv (matmul_vm (conj s) H) s). intros z. cx_ring. }
  split; [exact E|]. split.
  - rewrite E. generalize (compute_E s H). intros z. cx. ring.
  - intros Hc. rewrite E.
    assert (Hn : Cnorm2 c = 1).
    { rewrite <- square_Cabs, Hc. unfold square. ring. }
    rewrite Hn. generalize (compute_E s H). intros z. cx_ring.
Qed.

(** The energy of an eigenvector is its eigenvalue, times its squared
    norm. *)
Lemma compute_E_eigenvector (n : nat) (H : list (list C)) (s : list C)
    (lam : R) :
  hermitian n H -> length s = n ->
  matmul_mv H s = scale (RtoC lam) s ->
  compute_E s H = RtoC (lam * norm2 s).
Proof.
  intros HH Hs Heig.
  rewrite (compute_E_Csum n H s HH Hs). rewrite Csum_swap.
  transitivity (Csum n (fun i =>
                  Cmul (Cconj (nth i s C0)) (Cmul (RtoC lam) (nth i s C0)))).
  - apply Csum_ext. intros i Hi.
    rewrite <- nth_scale, <- Heig, nth_matmul_mv.
    destruct HH as [HlenH [Hrows _]].
    assert (Hrow : length (nth i H []) = n).
    { apply Hrows. apply nth_In. lia. }
    rewrite matmul_vv_Csum by congruence.
    rewrite Hrow.
    rewrite Cmul_comm, Csum_mul_r. apply Csum_ext. intros j Hj.
    unfold entry. generalize (nth j (nth i H []) C0) (nth j s C0) (nth i s C0).
    intros a b d. cx_ring.
  - transitivity (Cmul (RtoC lam) (matmul_vv (conj s) s)).
    + rewrite matmul_vv_Csum by (unfold conj; rewrite length_map; reflexivity).
      unfold conj at 1. rewrite length_map, Hs.
      rewrite Cmul_comm, Csum_mul_r. apply Csum_ext. intros i Hi.
      rewrite nth_conj.
      generalize (nth i s C0). intros a. cx_ring.
    + rewrite matmul_vv_conj_self. unfold RtoC, Cmul, Re, Im. cbn [fst snd].
      f_equal; ring.
Qed.

(** X16.  The reference state and the energy: for a Hermitian matrix on
    which the eigensolver keeps its contract, the state that
    [compute_true_state] returns is a unit vector whose energy, as
    [compute_E] computes it, is the least eigenvalue: no smaller than no
    other eigenvalue. *)
Theorem reference_energy (d : nat) (H : list (list C)) :
  (0 < d)%nat -> hermitian d H -> eigh_contract B d H ->
  exists gs k,
    compute_true_state H = Some gs /\
    unit_norm gs /\
    argmin (fst (eigh H)) = Some k /\
    compute_E gs H = RtoC (nth k (fst (eigh H)) 0) /\
    forall j, (j < d)%nat -> Re (compute_E gs H) <= nth j (fst (eigh H)) 0.
Proof.
  intros Hd HH Hc.
  destruct (compute_true_state_spec d H Hd Hc)
    as [k [Hk [Hkd [Hg [Hmin [_ [Hu Heig]]]]]]].
  assert (Hlen : length (column k (snd (eigh H))) = d).
  { unfold column. rewrite length_map.
    unfold eigh_contract in Hc. destruct (eigh H) as [eigval eigvec].
    cbn [snd]. destruct Hc as [_ [Hl _]]. exact Hl. }
  pose proof (compute_E_eigenvector d H _ _ HH Hlen Heig) as E.
  rewrite Hu, Rmult_1_r in E.
  exists (column k (snd (eigh H))), k.
  split; [exact Hg|]. split; [exact Hu|]. split; [exact Hk|].
  split; [exact E|].
  intros j Hj. rewrite E. cbn [RtoC Re fst]. apply Hmin, Hj.
Qed.

End Energies.
Lemma compute_E_scale_witness :
  compute_E (scale Ci [C0; C1]) (OneQubit.diag 1 (-1))
  = compute_E [C0; C1] (OneQubit.diag 1 (-1)).
Proof.
  destruct (compute_E_scale Ci [C0; C1] (OneQubit.diag 1 (-1))) as [_ [_ H]].
  apply H. apply Cabs_Ci.
Defined.

Lemma reference_energy_witness :
  exists gs k,
    @compute_true_state (OneQubit.backend OneQubit.never) (OneQubit.diag 1 (-1))
      = Some gs /\
    unit_norm gs /\
    argmin (fst (OneQubit.eigh_diag2 (OneQubit.diag 1 (-1)))) = Some k /\
    compute_E gs (OneQubit.diag 1 (-1))
      = RtoC (nth k (fst (OneQubit.eigh_diag2 (OneQubit.diag 1 (-1)))) 0).
Proof.
  destruct (@reference_energy (OneQubit.backend OneQubit.never) 2
              (OneQubit.diag 1 (-1)) (le_S 1 1 (le_n 1))
              (hermitian_diag 1 (-1)) (OneQubit_eigh_ground OneQubit.never))
    as [gs [k [Hg [Hu [Hk [E _]]]]]].
  exists gs, k. split; [exact Hg|]. split; [exact Hu|]. split; [exact Hk|].
  exact E.
Defined.

(** ** The diagnostics *)

Lemma Rsum_cons (x : R) (l : list R) : Rsum (x :: l) = x + Rsum l.
Proof. reflexivity. Qed.

Lemma Rsum_squares (a b : list R) :
  length a = length b ->
  0 <= Rsum (map square (vmap2 Rminus a b)) /\
  (Rsum (map square (vmap2 Rminus a b)) = 0 <-> a = b).
Proof.
  revert b. induction a as [|x a IH]; intros [|y b] Hlen; try discriminate.
  - split; [unfold Rsum; simpl; lra|]. split; reflexivity.
  - injection Hlen as Hlen. destruct (IH b Hlen) as [H0 Hiff].
    unfold vmap2 in *. cbn [combine map fst snd].
    rewrite Rsum_cons.
    assert (Hsq : 0 <= square (x - y)) by apply Rle_0_sqr.
    split; [lra|]. split.
    + intros E.
      assert (E1 : square (x - y) = 0) by lra.
      assert (E2 : Rsum (map square
                (map (fun xy => fst xy - snd xy) (combine a b))) = 0) by lra.
      apply Hiff in E2. subst b.
      apply Rsqr_0_uniq in E1. assert (x = y) by lra. subst y. reflexivity.
    + intros E. injection E as -> ->.
      assert (E2 : Rsum (map square
                (map (fun xy => fst xy - snd xy) (combine b b))) = 0)
        by (apply Hiff; reflexivity).
      rewrite E2. unfold square. ring.
Qed.

Lemma Rsum_ones (l : list R) :
  (forall x, In x l -> x <= 1) ->
  (Rsum l = INR (length l) <-> forall x, In x l -> x = 1).
Proof.
  induction l as [|x l IH]; intros Hle.
  - split; [intros _ y [] | reflexivity].
  - change (Rsum (x :: l)) with (x + Rsum l).
    change (length (x :: l)) with (S (length l)). rewrite S_INR.
    assert (Hx : x <= 1) by (apply Hle; left; reflexivity).
    assert (Hl : forall y, In y l -> y <= 1)
      by (intros y Hy; apply Hle; right; exact Hy).
    assert (Hs : Rsum l <= INR (length l)).
    { clear -Hl. induction l as [|y l IH]; [unfold Rsum; simpl; lra|].
      change (Rsum (y :: l)) with (y + Rsum l).
      change (length (y :: l)) with (S (length l)). rewrite S_INR.
      assert (y <= 1) by (apply Hl; left; reflexivity).
      assert (Rsum l <= INR (length l))
        by (apply IH; intros z Hz; apply Hl; right; exact Hz).
      lra. }
    specialize (IH Hl). split.
    + intros E y [<-|Hy]; [lra|]. apply IH; [lra | exact Hy].
    + intros H1.
      assert (x = 1) by (apply H1; left; reflexivity).
      assert (Rsum l = INR (length l))
        by (apply IH; intros y Hy; apply H1; right; exact Hy).
      lra.
Qed.

Section Diagnostics.
Context {B : Backend}.
Variable self : vqe.

(** X17.  The MSE of the record, on as many energies as the grid has
    true energies and at least one: a number, never negative, and zero
    exactly when every energy is the true one. *)
Theorem mse_zero (e : list R) :
  length e = length (true_e (vqe_Hs self)) -> e <> [] ->
  exists v, mse self e = Some v /\ 0 <= v /\
            (v = 0 <-> e = true_e (vqe_Hs self)).
Proof.
  intros Hlen Hne. unfold mse.
  destruct (Rsum_squares e (true_e (vqe_Hs self)) Hlen) as [H0 Hiff].
  set (l := map square (vmap2 Rminus e (true_e (vqe_Hs self)))) in *.
  assert (Hl : length l = length e).
  { unfold l, vmap2. rewrite !length_map, length_combine. lia. }
  destruct l as [|x l'] eqn:El.
  - destruct e; [congruence | discriminate].
  - cbn [mean]. eexists. split; [reflexivity|].
    assert (Hpos : 0 < INR (length (x :: l'))).
    { apply lt_0_INR. cbn. lia. }
    split.
    + apply Rmult_le_pos; [exact H0|].
      apply Rlt_le, Rinv_0_lt_compat, Hpos.
    + rewrite <- Hiff. split.
      * intros E. apply Rmult_integral in E. destruct E as [E|E]; [exact E|].
        exfalso. apply Rinv_0_lt_compat in Hpos. lra.
      * intros ->. unfold Rdiv. ring.
Qed.

(** X18.  The mean fidelity of the progress bar, on as many unit states
    as the grid has reference states and at least one: a number between
    0 and 1, which is 1 exactly when every state has fidelity 1 with its
    reference state; so it is 1 when every state is its reference state
    up to a global phase. *)
Theorem vqe_fidelties_range {P : Type} (Y : list (list C)) (params : list P)
    (q_circuit : P -> list C) :
  length Y = length params -> Y <> [] ->
  (forall y p, In (y, p) (combine Y params) ->
     length (q_circuit p) = length y /\ unit_norm (q_circuit p) /\ unit_norm y) ->
  exists v,
    vqe_fidelties Y params q_circuit = Some v /\
    0 <= v <= 1 /\
    (v = 1 <->
     forall y p, In (y, p) (combine Y params) ->
       vqe_fidelty (q_circuit p) y = 1) /\
    ((forall y p, In (y, p) (combine Y params) ->
        exists c, Cabs c = 1 /\ q_circuit p = scale c y) -> v = 1).
Proof.
  intros Hlen Hne Hunit. unfold vqe_fidelties.
  set (l := vmap2 (fun y p => square (Cabs (matmul_vv (conj (q_circuit p)) y)))
              Y params).
  assert (Hin : forall x, In x l <->
            exists y p, In (y, p) (combine Y params) /\
                        x = vqe_fidelty (q_circuit p) y).
  { intros x. unfold l, vmap2. rewrite in_map_iff. split.
    - intros [[y p] [<- H]]. exists y, p. split; [exact H | reflexivity].
    - intros [y [p [H ->]]]. exists (y, p). split; [reflexivity | exact H]. }
  assert (Hrange : forall x, In x l -> 0 <= x <= 1).
  { intros x Hx. apply Hin in Hx. destruct Hx as [y [p [H ->]]].
    destruct (Hunit y p H) as [H1 [H2 H3]].
    apply vqe_fidelty_range; assumption. }
  assert (Hl : length l = length Y).
  { unfold l, vmap2. rewrite length_map, length_combine. lia. }
  assert (Hlne : l <> []).
  { intros E. rewrite E in Hl. destruct Y; [congruence | discriminate]. }
  assert (Hall : Rsum l = INR (length l) <-> forall x, In x l -> x = 1).
  { apply Rsum_ones. intros x Hx. apply Hrange, Hx. }
  destruct (mean_bounds l Hlne Hrange) as [v [Hv Hb]].
  exists v. split; [exact Hv|]. split; [exact Hb|].
  assert (Hpos : 0 < INR (length l)).
  { apply lt_0_INR. destruct l; [congruence | cbn; lia]. }
  assert (Ev : v = Rsum l / INR (length l)).
  { destruct l as [|x l']; [congruence|]. cbn [mean] in Hv.
    injection Hv as <-. reflexivity. }
  assert (Hone : v = 1 <-> forall y p, In (y, p) (combine Y params) ->
                             vqe_fidelty (q_circuit p) y = 1).
  { split.
    - intros E y p H.
      assert (Hs : Rsum l = INR (length l)).
      { rewrite Ev in E. apply (Rmult_eq_compat_r (INR (length l))) in E.
        unfold Rdiv in E. rewrite Rmult_assoc, Rinv_l in E by lra. lra. }
      apply (proj1 Hall Hs). apply Hin. exists y, p.
      split; [exact H | reflexivity].
    - intros H.
      assert (Hs : Rsum l = INR (length l)).
      { apply Hall. intros x Hx. apply Hin in Hx.
        destruct Hx as [y [p [Hyp ->]]]. apply H, Hyp. }
      rewrite Ev, Hs. unfold Rdiv. apply Rinv_r. lra. }
  split; [exact Hone|].
  intros Hphase. apply Hone. intros y p H.
  destruct (Hphase y p H) as [c [Hc ->]].
  destruct (Hunit y p H) as [_ [_ Hy]].
  rewrite vqe_fidelty_phase_l by exact Hc. apply vqe_fidelty_self, Hy.
Qed.

End Diagnostics.

Lemma mse_zero_witness :
  @mse (OneQubit.backend OneQubit.never) (OneQubit.flat 0) [0] = Some 0.
Proof.
  destruct (@mse_zero (OneQubit.backend OneQubit.never) (OneQubit.flat 0) [0])
    as [v [E [_ Hv]]].
  - reflexivity.
  - discriminate.
  - rewrite E. f_equal. apply Hv. reflexivity.
Defined.

Lemma vqe_fidelties_range_witness :
  vqe_fidelties [[C1; C0]] [0] (fun theta => OneQubit.rx_state theta) = Some 1.
Proof.
  destruct (@vqe_fidelties_range R [[C1; C0]] [0]
              (fun theta => OneQubit.rx_state theta))
    as [v [E [_ [_ Hv]]]].
  - reflexivity.
  - discriminate.
  - intros y p [H|[]]. injection H as <- <-.
    split; [reflexivity|]. split; [apply rx_state_unit|].
    unfold unit_norm, norm2, Rsum, Cnorm2, C1, C0, Re, Im.
    cbn [map fold_right fst snd]. lra.
  - rewrite E. f_equal. apply Hv.
    intros y p [H|[]]. injection H as <- <-.
    exists C1. split.
    + unfold Cabs, Cnorm2, C1, Re, Im. cbn [fst snd].
      replace (1 * 1 + 0 * 0) with 1 by ring. apply sqrt_1.
    + unfold OneQubit.rx_state, scale. cbn [map].
      replace (0 / 2) with 0 by lra. rewrite cos_0, sin_0.
      unfold Cmul, C1, C0, Re, Im. cbn [fst snd].
      apply (f_equal2 cons); [apply (f_equal2 pair); ring|].
      apply (f_equal2 cons); [apply (f_equal2 pair); ring | reflexivity].
Defined.
(** ** The losses of the classifier *)

Section QcnnLosses.
Import qcnn_losses.

Lemma broadcast2_same {A B D : Type} (f : A -> B -> D) (xs : list A)
    (ys : list B) :
  length xs = length ys -> broadcast2 f xs ys = Some (vmap2 f xs ys).
Proof.
  intros E. unfold broadcast2. apply Nat.eqb_eq in E. rewrite E. reflexivity.
Qed.

Lemma Rsum_nonneg (l : list R) :
  (forall x, In x l -> 0 <= x) ->
  0 <= Rsum l /\ (Rsum l = 0 <-> forall x, In x l -> x = 0).
Proof.
  induction l as [|x l IH]; intros H.
  - split; [unfold Rsum; simpl; lra|]. split; [intros _ y [] | reflexivity].
  - rewrite Rsum_cons.
    assert (Hx : 0 <= x) by (apply H; left; reflexivity).
    destruct IH as [H0 Hiff]; [intros y Hy; apply H; right; exact Hy|].
    split; [lra|]. split.
    + intros E y [<-|Hy]; [lra|]. apply Hiff; [lra | exact Hy].
    + intros Hall.
      assert (x = 0) by (apply Hall; left; reflexivity).
      assert (Rsum l = 0) by (apply Hiff; intros y Hy; apply Hall; right; exact Hy).
      lra.
Qed.

Lemma Rsum_upper (l : list R) (b : R) :
  (forall x, In x l -> x <= b) -> Rsum l <= b * INR (length l).
Proof.
  induction l as [|x l IH]; intros H.
  - unfold Rsum. simpl. lra.
  - rewrite Rsum_cons. change (length (x :: l)) with (S (length l)).
    rewrite S_INR.
    assert (x <= b) by (apply H; left; reflexivity).
    assert (Rsum l <= b * INR (length l))
      by (apply IH; intros y Hy; apply H; right; exact Hy).
    lra.
Qed.

(** The mean of numbers that are not negative. *)
Lemma mean_nonneg (l : list R) :
  l <> [] -> (forall x, In x l -> 0 <= x) ->
  exists v, mean l = Some v /\ 0 <= v /\
            (v = 0 <-> forall x, In x l -> x = 0).
Proof.
  intros Hne H. destruct (Rsum_nonneg l H) as [H0 Hiff].
  destruct l as [|x l']; [congruence|]. cbn [mean].
  eexists. split; [reflexivity|].
  assert (Hpos : 0 < INR (length (x :: l'))) by (apply lt_0_INR; cbn; lia).
  pose proof (Rinv_0_lt_compat _ Hpos) as Hinv.
  split.
  - apply Rmult_le_pos; [exact H0 | lra].
  - rewrite <- Hiff. unfold Rdiv. split.
    + intros E. apply Rmult_integral in E. destruct E as [E|E]; [exact E | lra].
    + intros ->. ring.
Qed.

Lemma mean_upper (l : list R) (b v : R) :
  (forall x, In x l -> x <= b) -> mean l = Some v -> v <= b.
Proof.
  intros Hle Hv. destruct l as [|x l']; [discriminate|].
  cbn [mean] in Hv. injection Hv as <-.
  assert (Hpos : 0 < INR (length (x :: l'))) by (apply lt_0_INR; cbn; lia).
  pose proof (Rsum_upper (x :: l') b Hle) as Hs.
  apply (Rmult_le_reg_r (INR (length (x :: l')))); [exact Hpos|].
  unfold Rdiv. rewrite Rmult_assoc, Rinv_l by (apply Rgt_not_eq; exact Hpos).
  rewrite Rmult_1_r. exact Hs.
Qed.

(** X19.  The hinge loss on probabilities and labels 0 and 1, one label
    for each input and at least one input: it is twice the mean absolute
    difference between the probability of class 1 and the label, so a
    number between 0 and 2, and it is 0 exactly when every probability
    of class 1 is the label itself. *)
Theorem hinge_range {V P : Type} (X : list V) (Y : list R) (params : P)
    (q_circuit : V -> P -> R * R) :
  length X = length Y -> X <> [] ->
  (forall v, In v X -> 0 <= snd (q_circuit v params) <= 1) ->
  (forall y, In y Y -> y = 0 \/ y = 1) ->
  exists h,
    hinge X Y params q_circuit = Some (Some h) /\
    mean (map (fun vy => 2 * Rabs (snd (q_circuit (fst vy) params) - snd vy))
              (combine X Y)) = Some h /\
    0 <= h <= 2 /\
    (h = 0 <->
     forall v y, In (v, y) (combine X Y) -> snd (q_circuit v params) = y).
Proof.
  intros Hlen Hne Hp Hy. unfold hinge.
  rewrite broadcast2_same by (rewrite !length_map; exact Hlen).
  set (l := map (fun vy => 2 * Rabs (snd (q_circuit (fst vy) params) - snd vy))
              (combine X Y)).
  assert (El : map (fun z => 1 - z)
                 (vmap2 Rmult
                    (map snd (map (fun p => (2 * fst p - 1, 2 * snd p - 1))
                                (map (fun v => q_circuit v params) X)))
                    (map (fun y => 2 * y - 1) Y)) = l).
  { unfold l, vmap2. clear -Hp Hy Hlen. revert Y Hy Hlen.
    induction X as [|v X IH]; intros [|y Y] Hy Hlen; try discriminate;
      [reflexivity|].
    cbn [map combine fst snd]. f_equal.
    - assert (Hv : 0 <= snd (q_circuit v params) <= 1)
        by (apply Hp; left; reflexivity).
      destruct (Hy y (or_introl eq_refl)) as [->| ->].
      + rewrite Rminus_0_r, Rabs_right by lra. ring.
      + rewrite Rabs_left1 by lra. ring.
    - apply IH.
      + intros w Hw. apply Hp. right. exact Hw.
      + intros z Hz. apply Hy. right. exact Hz.
      + injection Hlen as Hlen. exact Hlen. }
  rewrite El.
  assert (Hin : forall x, In x l ->
            exists v y, In (v, y) (combine X Y) /\
                        x = 2 * Rabs (snd (q_circuit v params) - y)).
  { intros x Hx. unfold l in Hx. apply in_map_iff in Hx.
    destruct Hx as [[v y] [<- H]]. exists v, y. split; [exact H | reflexivity]. }
  assert (Hl : length l = length X).
  { unfold l. rewrite length_map, length_combine. lia. }
  assert (Hlne : l <> []).
  { intros E. rewrite E in Hl. destruct X; [congruence | discriminate]. }
  assert (Hnn : forall x, In x l -> 0 <= x).
  { intros x Hx. destruct (Hin x Hx) as [v [y [_ ->]]].
    pose proof (Rabs_pos (snd (q_circuit v params) - y)). lra. }
  assert (Hle : forall x, In x l -> x <= 2).
  { intros x Hx. destruct (Hin x Hx) as [v [y [H ->]]].
    assert (Hv : 0 <= snd (q_circuit v params) <= 1)
      by (apply Hp; apply (in_combine_l _ _ _ _ H)).
    destruct (Hy y (in_combine_r _ _ _ _ H)) as [->| ->].
    - rewrite Rminus_0_r, Rabs_right by lra. lra.
    - rewrite Rabs_left1 by lra. lra. }
  destruct (mean_nonneg l Hlne Hnn) as [h [Hh [H0 Hz]]].
  exists h. split; [rewrite Hh; reflexivity|]. split; [exact Hh|].
  split.
  - split; [exact H0 | exact (mean_upper l 2 h Hle Hh)].
  - rewrite Hz. split.
    + intros Hall v y H.
      assert (E : 2 * Rabs (snd (q_circuit v params) - y) = 0).
      { apply Hall. unfold l. apply in_map_iff. exists (v, y).
        split; [reflexivity | exact H]. }
      assert (E' : Rabs (snd (q_circuit v params) - y) = 0) by lra.
      destruct (Req_dec (snd (q_circuit v params) - y) 0) as [E0|N0]; [lra|].
      apply Rabs_no_R0 in N0. contradiction.
    + intros Hall x Hx. destruct (Hin x Hx) as [v [y [H ->]]].
      rewrite (Hall v y H), Rminus_diag, Rabs_R0. ring.
Qed.

Lemma finite_all_log (l : list R) :
  (forall p, In p l -> 0 < p) -> finite_all (map log l) = Some (map ln l).
Proof.
  induction l as [|p l IH]; intros H; [reflexivity|].
  cbn [map finite_all]. unfold log at 1.
  destruct (Rlt_dec 0 p) as [_|N];
    [|exfalso; apply N, H; left; reflexivity].
  rewrite IH by (intros q Hq; apply H; right; exact Hq). reflexivity.
Qed.

Lemma finite_all_log_None (l : list R) :
  finite_all (map log l) = None <-> exists p, In p l /\ p <= 0.
Proof.
  induction l as [|p l IH].
  - split; [discriminate | intros [p [[] _]]].
  - cbn [map finite_all]. unfold log at 1.
    destruct (Rlt_dec 0 p) as [Hp|N].
    + destruct (finite_all (map log l)).
      * split; [discriminate|]. intros [q [[<-|Hq] Hle]]; [lra|].
        exfalso.
        destruct IH as [_ IH].
        assert (X : Some l0 = None) by (apply IH; exists q; split; assumption).
        discriminate.
      * split; [|reflexivity]. intros _.
        destruct IH as [IH _]. destruct (IH eq_refl) as [q [Hq Hle]].
        exists q. split; [right; exact Hq | exact Hle].
    + split; [|reflexivity]. intros _. exists p.
      split; [left; reflexivity | lra].
Qed.

Lemma mean_opp (l : list R) :
  neg_ext (mean l) = mean (map Ropp l).
Proof.
  destruct l as [|x l]; [reflexivity|].
  cbn [mean neg_ext map]. f_equal.
  change (Ropp x :: map Ropp l) with (map Ropp (x :: l)).
  rewrite length_map.
  assert (E : forall l', Rsum (map Ropp l') = - Rsum l').
  { induction l' as [|y l' IH]; [unfold Rsum; simpl; ring|].
    cbn [map]. rewrite !Rsum_cons, IH. ring. }
  rewrite E. unfold Rdiv. ring.
Qed.

(** X20.  The cross entropy, with one label for each input and at least
    one input.  It is not a finite number exactly when some input gives
    its own class a probability that is not positive.  When every input
    gives its own class a probability in (0, 1], it is the mean of the
    negated logarithms of these probabilities: a number that is not
    negative, and 0 exactly when each of these probabilities is 1. *)
Theorem cross_entropy_nonneg {V P : Type} (X : list V) (Y : list bool)
    (params : P) (q_circuit : V -> P -> R * R) :
  length X = length Y -> X <> [] ->
  let own (vy : V * bool) :=
    if snd vy then snd (q_circuit (fst vy) params)
    else fst (q_circuit (fst vy) params) in
  (cross_entropy X Y params q_circuit = Some None <->
   exists vy, In vy (combine X Y) /\ own vy <= 0) /\
  ((forall vy, In vy (combine X Y) -> 0 < own vy <= 1) ->
   exists ce,
     cross_entropy X Y params q_circuit = Some (Some ce) /\
     mean (map (fun vy => - ln (own vy)) (combine X Y)) = Some ce /\
     0 <= ce /\
     (ce = 0 <-> forall vy, In vy (combine X Y) -> own vy = 1)).
Proof.
  intros Hlen Hne own.
  assert (Enll : take_along_axis
                   (map (fun p => (log (fst p), log (snd p)))
                      (map (fun v => q_circuit v params) X)) Y
                 = Some (map log (map own (combine X Y)))).
  { unfold take_along_axis.
    rewrite broadcast2_same by (rewrite !length_map; exact Hlen).
    f_equal. unfold vmap2. clear. revert Y.
    induction X as [|v X IH]; intros [|y Y]; try reflexivity.
    cbn [map combine fst snd]. f_equal; [|apply IH].
    unfold own. cbn [fst snd]. destruct y; reflexivity. }
  assert (Hl : length (map own (combine X Y)) = length X).
  { rewrite length_map, length_combine. lia. }
  assert (Hlne : map own (combine X Y) <> []).
  { intros E. rewrite E in Hl. destruct X; [congruence | discriminate]. }
  unfold cross_entropy. rewrite Enll. split.
  - unfold mean_ext.
    destruct (finite_all (map log (map own (combine X Y)))) as [xs|] eqn:Ef.
    + split.
      * intros E. exfalso.
        assert (Hxs : length xs = length (map own (combine X Y))).
        { clear -Ef. revert xs Ef.
          induction (map own (combine X Y)) as [|p l IH]; intros xs Ef.
          - injection Ef as <-. reflexivity.
          - cbn [map finite_all] in Ef. destruct (log p); [|discriminate].
            destruct (finite_all (map log l)) as [ys|]; [|discriminate].
            injection Ef as <-. cbn [length]. f_equal. apply IH. reflexivity. }
        destruct xs as [|x xs]; [|discriminate].
        destruct (map own (combine X Y)); [congruence | discriminate].
      * intros [vy [Hin Hle]]. exfalso.
        assert (E : finite_all (map log (map own (combine X Y))) = None).
        { apply finite_all_log_None. exists (own vy).
          split; [apply in_map, Hin | exact Hle]. }
        congruence.
    + split; [|reflexivity]. intros _.
      apply finite_all_log_None in Ef. destruct Ef as [p [Hp Hle]].
      apply in_map_iff in Hp. destruct Hp as [vy [<- Hin]].
      exists vy. split; assumption.
  - intros Hown.
    assert (Hpos : forall p, In p (map own (combine X Y)) -> 0 < p).
    { intros p Hp. apply in_map_iff in Hp. destruct Hp as [vy [<- Hin]].
      apply Hown, Hin. }
    unfold mean_ext. rewrite (finite_all_log _ Hpos), mean_opp, !map_map.
    set (l := map (fun vy => - ln (own vy)) (combine X Y)).
    assert (Hl' : l <> []).
    { unfold l. intros E. apply Hlne. apply map_eq_nil in E. rewrite E.
      reflexivity. }
    assert (Hnn : forall x, In x l -> 0 <= x).
    { intros x Hx. unfold l in Hx. apply in_map_iff in Hx.
      destruct Hx as [vy [<- Hin]]. destruct (Hown vy Hin) as [H0 H1].
      destruct (Req_dec (own vy) 1) as [->|N]; [rewrite ln_1; lra|].
      assert (ln (own vy) < ln 1) by (apply ln_increasing; lra).
      rewrite ln_1 in *. lra. }
    destruct (mean_nonneg l Hl' Hnn) as [ce [Hce [H0 Hz]]].
    exists ce. split; [rewrite Hce; reflexivity|]. split; [exact Hce|].
    split; [exact H0|]. rewrite Hz. split.
    + intros Hall vy Hin. destruct (Hown vy Hin) as [Hp _].
      assert (E : - ln (own vy) = 0).
      { apply Hall. unfold l. apply in_map_iff. exists vy.
        split; [reflexivity | exact Hin]. }
      apply (ln_inv _ 1); [exact Hp | lra | rewrite ln_1; lra].
    + intros Hall x Hx. unfold l in Hx. apply in_map_iff in Hx.
      destruct Hx as [vy [<- Hin]]. rewrite (Hall vy Hin), ln_1. ring.
Qed.

Lemma pairs_map {A D : Type} (f : A -> D) (l : list A) :
  pairs (map f l) = map (fun p => (f (fst p), f (snd p))) (pairs l).
Proof.
  assert (H : forall n l, (length l <= n)%nat ->
            pairs (map f l) = map (fun p => (f (fst p), f (snd p))) (pairs l)).
  { induction n as [|n IH]; intros [|x [|y l']] Hl; try reflexivity;
      cbn [length] in Hl; try lia.
    cbn [map pairs fst snd]. f_equal. apply IH. lia. }
  apply (H (length l)). lia.
Qed.

Lemma pairs_app {A : Type} (k : nat) (a b : list A) :
  length a = (2 * k)%nat -> pairs (a ++ b) = pairs a ++ pairs b.
Proof.
  revert a. induction k as [|k IH]; intros a Ha.
  - destruct a; [reflexivity | discriminate].
  - destruct a as [|x [|y a]]; cbn [length] in Ha; try lia.
    cbn [app pairs]. f_equal. apply IH. lia.
Qed.

Lemma length_pairs {A : Type} (k : nat) (a : list A) :
  length a = (2 * k)%nat -> length (pairs a) = k.
Proof.
  revert a. induction k as [|k IH]; intros a Ha.
  - destruct a; [reflexivity | discriminate].
  - destruct a as [|x [|y a]]; cbn [length] in Ha; try lia.
    cbn [pairs length]. f_equal. apply IH. lia.
Qed.

Lemma pairs_concat {A : Type} (k : nat) (rows : list (list A)) :
  (forall row, In row rows -> length row = (2 * k)%nat) ->
  pairs (concat rows) = concat (map pairs rows).
Proof.
  induction rows as [|row rows IH]; intros H; [reflexivity|].
  cbn [concat map]. rewrite (pairs_app k) by (apply H; left; reflexivity).
  f_equal. apply IH. intros r Hr. apply H. right. exact Hr.
Qed.

Lemma length_concat_const {A : Type} (m : nat) (rows : list (list A)) :
  (forall row, In row rows -> length row = m) ->
  length (concat rows) = (length rows * m)%nat.
Proof.
  induction rows as [|row rows IH]; intros H; [reflexivity|].
  cbn [concat length]. rewrite length_app, IH, (H row).
  - reflexivity.
  - left. reflexivity.
  - intros r Hr. apply H. right. exact Hr.
Qed.

(** X21.  The cross entropy of several labels for each input.  When the
    flattened predictions are not twice as many as the flattened labels
    the reshape raises.  When every input has [k] labels and the circuit
    returns [2 * k] numbers for it, the loss is the cross entropy of the
    pairs of consecutive numbers, taken input after input, against the
    labels taken in the same order. *)
Theorem cross_entropy_multiclass_flat {V P : Type} (X : list V)
    (Y : list (list bool)) (params : P) (q_circuit : V -> P -> list R)
    (k : nat) :
  (length (concat (map (fun v => q_circuit v params) X))
     <> (2 * length (concat Y))%nat ->
   cross_entropy_multiclass X Y params q_circuit = None) /\
  (length X = length Y ->
   (forall v, In v X -> length (q_circuit v params) = (2 * k)%nat) ->
   (forall row, In row Y -> length row = k) ->
   cross_entropy_multiclass X Y params q_circuit
   = cross_entropy (concat (map (fun v => pairs (q_circuit v params)) X))
       (concat Y) params (fun pr _ => pr)).
Proof.
  split.
  - intros Hne. unfold cross_entropy_multiclass, reshape2.
    rewrite <- concat_map, length_map.
    rewrite (proj2 (Nat.eqb_neq _ _) Hne). reflexivity.
  - intros Hlen Hq HY. unfold cross_entropy_multiclass, cross_entropy, reshape2.
    assert (Erows : forall row,
              In row (map (fun v => q_circuit v params) X) ->
              length row = (2 * k)%nat).
    { intros row Hr. apply in_map_iff in Hr. destruct Hr as [v [<- Hv]].
      apply Hq, Hv. }
    assert (El : length (concat (map (map log)
                    (map (fun v => q_circuit v params) X)))
                 = (2 * length (concat Y))%nat).
    { rewrite <- concat_map, length_map.
      rewrite (length_concat_const (2 * k) _ Erows), length_map.
      rewrite (length_concat_const k Y HY). lia. }
    apply Nat.eqb_eq in El. rewrite El.
    rewrite <- concat_map, pairs_map, (pairs_concat k _ Erows), !map_map.
    reflexivity.
Qed.

End QcnnLosses.

Lemma hinge_range_witness :
  qcnn_losses.hinge [0; 1] [0; 1] tt (fun v _ => (1 - v, v)) = Some (Some 0).
Proof.
  destruct (@hinge_range R unit [0; 1] [0; 1] tt (fun v _ => (1 - v, v)))
    as [h [E [_ [_ Hz]]]].
  - reflexivity.
  - discriminate.
  - intros v [<-|[<-|[]]]; cbn [snd]; lra.
  - intros y [<-|[<-|[]]]; [left | right]; reflexivity.
  - rewrite E. do 2 f_equal. apply Hz.
    intros v y [H|[H|[]]]; injection H as <- <-; reflexivity.
Defined.

Lemma cross_entropy_nonneg_witness :
  qcnn_losses.cross_entropy [0; 1] [false; true] tt (fun v _ => (1 - v, v))
    = Some (Some 0) /\
  qcnn_losses.cross_entropy [0; 1] [true; true] tt (fun v _ => (1 - v, v))
    = Some None.
Proof.
  split.
  - destruct (@cross_entropy_nonneg R unit [0; 1] [false; true] tt
                (fun v _ => (1 - v, v)) eq_refl ltac:(discriminate))
      as [_ H].
    destruct H as [ce [E [_ [_ Hz]]]].
    + intros vy [<-|[<-|[]]]; cbn [fst snd]; lra.
    + rewrite E. do 2 f_equal. apply Hz.
      intros vy [<-|[<-|[]]]; cbn [fst snd]; lra.
  - destruct (@cross_entropy_nonneg R unit [0; 1] [true; true] tt
                (fun v _ => (1 - v, v)) eq_refl ltac:(discriminate))
      as [H _].
    apply H. exists (0, true). split; [left; reflexivity|].
    cbn [fst snd]. lra.
Defined.

Lemma cross_entropy_multiclass_flat_witness :
  qcnn_losses.cross_entropy_multiclass [0; 1] [[false]; [true]] tt
    (fun v _ => [1 - v; v])
  = qcnn_losses.cross_entropy [(1 - 0, 0); (1 - 1, 1)] [false; true] tt
      (fun pr _ => pr) /\
  qcnn_losses.cross_entropy_multiclass [0; 1] [[false]] tt
    (fun v _ => [1 - v; v]) = None.
Proof.
  split.
  - apply (proj2 (@cross_entropy_multiclass_flat R unit [0; 1]
                    [[false]; [true]] tt (fun v _ => [1 - v; v]) 1)).
    + reflexivity.
    + intros v _. reflexivity.
    + intros row [<-|[<-|[]]]; reflexivity.
  - apply (proj1 (@cross_entropy_multiclass_flat R unit [0; 1]
                    [[false]] tt (fun v _ => [1 - v; v]) 1)).
    cbn. lia.
Defined.
(** ** The loss and the recycle mode at their edges *)

Section Edges.
Context {B : Backend}.
Variable self : vqe.

(** X22.  The loss of the independent mode on a grid of a single point:
    with a regulariser it is NaN whatever the parameters, because the
    penalty is then the mean of no fidelity; without one it is the
    energy of the point. *)
Theorem loss_single_point (reg : R) (p : list R) (Hmat : list (list C)) :
  mat_Hs (vqe_Hs self) = [Hmat] ->
  (reg <> 0 -> loss self reg [p] = NaN) /\
  loss self 0 [p] = Some (compute_vqe_E self p Hmat).
Proof.
  intros HH. unfold loss. rewrite HH.
  unfold v_compute_E, v_vqe_state, vmap2. cbn [map combine fst snd].
  split.
  - intros Hreg. destruct (Req_dec_T reg 0) as [E|_]; [contradiction|].
    reflexivity.
  - destruct (Req_dec_T 0 0) as [_|N]; [|exfalso; apply N; reflexivity].
    unfold mean, Rsum. cbn [fold_right length INR]. f_equal.
    unfold compute_vqe_E. field.
Qed.

(** The loop of the recycle mode when no epoch is run: every point
    visited receives the vector it is entered with. *)
Lemma recycle_loop_no_epochs (lr reg : R) (n_epochs : Z) (rule : list nat)
    (param : list R) (prev : list C) (params params' : list (list R)) :
  (n_epochs <= 0)%Z ->
  recycle_loop self lr reg n_epochs rule param prev params = Some params' ->
  (forall i, In i rule -> nth_error params' i = Some param) /\
  (forall i, nth_error params i = Some param -> nth_error params' i = Some param).
Proof.
  intros Hn. revert prev params.
  induction rule as [|idx rule IH]; intros prev params; cbn [recycle_loop].
  - intros E. injection E as <-. split; [intros i [] | intros i H; exact H].
  - replace (Z.to_nat n_epochs) with 0%nat by lia. cbn [epochs_at].
    destruct (list_set params idx param) as [ps|] eqn:Es; [|discriminate].
    intros E.
    replace 0%nat with (Z.to_nat n_epochs) in E by lia.
    destruct (IH _ _ E) as [Hin Hkeep].
    destruct (list_set_Some _ _ _ _ Es) as [_ [_ [Hidx Ho]]].
    split.
    + intros i [<-|Hi]; [apply Hkeep, Hidx | apply Hin, Hi].
    + intros i Hi. apply Hkeep.
      destruct (Nat.eq_dec i idx) as [->|Hne]; [exact Hidx|].
      rewrite (Ho i Hne). exact Hi.
Qed.

(** X23.  The recycle mode with no epoch to run ([n_epochs <= 0]): no
    Hamiltonian is read, and row 0 and every row named after the first
    entry of the order hold the one fresh random vector. *)
Theorem train_recycle_no_epochs (lr reg : R) (n_epochs : Z) (g g' : Rng)
    (params : list (list R)) :
  (n_epochs <= 0)%Z ->
  train_recycle self lr reg n_epochs g = Some (params, g') ->
  (forall i, i = 0%nat \/ In i (tl (recycle_rule (vqe_Hs self))) ->
     nth_error params i = Some (fst (rand (n_params self) g))) /\
  train_recycle (with_mat_Hs self []) lr reg n_epochs g = Some (params, g').
Proof.
  intros Hn. unfold train_recycle.
  cbn [with_mat_Hs vqe_Hs recycle_rule n_params n_states].
  destruct (rand (n_params self) g) as [fresh g1]. cbn [fst].
  replace (Z.to_nat (10 * n_epochs)) with 0%nat by lia. cbn [epochs_at].
  destruct (list_set (repeat (repeat 0 (n_params self)) (n_states self)) 0 fresh)
    as [ps|] eqn:Es; [|discriminate].
  destruct (recycle_loop self lr reg n_epochs (tl (recycle_rule (vqe_Hs self)))
              fresh (j_vqe_state self fresh) ps) as [ps'|] eqn:El;
    [|discriminate].
  intros E. injection E as <- <-.
  destruct (recycle_loop_no_epochs _ _ _ _ _ _ _ _ Hn El) as [Hin Hkeep].
  destruct (list_set_Some _ _ _ _ Es) as [_ [_ [H0 _]]].
  split.
  - intros i [->|Hi]; [apply Hkeep, H0 | apply Hin, Hi].
  - assert (Eloop : forall rule param prev params0,
              recycle_loop (with_mat_Hs self []) lr reg n_epochs rule param prev
                params0
              = recycle_loop self lr reg n_epochs rule param prev params0).
    { induction rule as [|idx rule IH]; intros param prev params0;
        [reflexivity|].
      cbn [recycle_loop]. replace (Z.to_nat n_epochs) with 0%nat by lia.
      cbn [epochs_at].
      destruct (list_set params0 idx param) as [ps0|]; [|reflexivity].
      replace 0%nat with (Z.to_nat n_epochs) by lia. apply IH. }
    change (j_vqe_state (with_mat_Hs self []) fresh)
      with (j_vqe_state self fresh).
    rewrite Eloop, El. reflexivity.
Qed.

End Edges.

Lemma loss_single_point_witness :
  @loss (OneQubit.backend OneQubit.never) (OneQubit.flat 0) 1 [[0]] = NaN.
Proof.
  apply (proj1 (@loss_single_point (OneQubit.backend OneQubit.never)
                  (OneQubit.flat 0) 1 [0] (OneQubit.diag 0 0) eq_refl)).
  lra.
Defined.

Lemma train_recycle_no_epochs_witness :
  exists params g',
    @train_recycle (OneQubit.backend OneQubit.never)
      (four_points [2; 0; 3; 1]%nat) 1 1 0 [true] = Some (params, g') /\
    nth_error params 3 = Some [1 / 2] /\
    nth_error params 2 = Some [0].
Proof.
  destruct (@train_recycle (OneQubit.backend OneQubit.never)
              (four_points [2; 0; 3; 1]%nat) 1 1 0 [true])
    as [[params g']|] eqn:E.
  - exists params, g'. split; [reflexivity|].
    destruct (@train_recycle_no_epochs (OneQubit.backend OneQubit.never)
                (four_points [2; 0; 3; 1]%nat) 1 1 0%Z [true] g' params
                ltac:(lia) E) as [Hrows _].
    split.
    + apply (Hrows 3%nat). right. cbn. lia.
    + destruct (train_recycle_inv _ _ _ _ _ _ _ E) as [_ [_ [_ [_ Hz]]]].
      apply (Hz 2%nat).
      * discriminate.
      * cbn. intros H. lia.
      * cbn. lia.
  - exfalso. revert E. apply train_recycle_in_range.
    + cbn. lia.
    + cbn. lia.
    + cbn. intros idx H. lia.
Defined.
(** ** What the plots compute *)

Section Visualization.
Import visualization.

Lemma Re_matmul_conj_r (a b : list C) :
  Re (matmul_vv a (conj b)) = Re (matmul_vv (conj a) b).
Proof.
  rewrite <- (conj_conj b) at 2. rewrite <- matmul_vv_conj.
  generalize (matmul_vv a (conj b)). intros z. cx. reflexivity.
Qed.

Lemma confusion_entry (vectors : list (list C)) (i j : nat) :
  (i < length vectors)%nat -> (j < length vectors)%nat ->
  nth j (nth i (create_confusion_matrix vectors) []) 0
  = square (Re (matmul_vv (nth i vectors []) (conj (nth j vectors [])))).
Proof.
  intros Hi Hj. unfold create_confusion_matrix.
  rewrite (nth_indep _ [] (map (fun vj => square (Re (matmul_vv [] (conj vj))))
                             vectors))
    by (rewrite length_map; exact Hi).
  rewrite (map_nth (fun vi => map (fun vj => square (Re (matmul_vv vi (conj vj))))
                                vectors) vectors [] i).
  rewrite (nth_indep _ 0 (square (Re (matmul_vv (nth i vectors []) (conj [])))))
    by (rewrite length_map; exact Hj).
  apply (map_nth (fun vj => square (Re (matmul_vv (nth i vectors []) (conj vj))))
           vectors [] j).
Qed.

(** X24.  The matrix that [create_confusion_matrix] returns for the
    rows of an array is symmetric, and each entry is at most the
    fidelity of the two states:
    it is the square of the real part of their overlap, not of its
    modulus.  So it depends on the global phases: a unit state and the
    same state multiplied by [i] have fidelity 1 and the entry 0. *)
Theorem confusion_matrix_real_part (vectors : list (list C)) (i j : nat)
    (v : list C) :
  (i < length vectors)%nat -> (j < length vectors)%nat -> unit_norm v ->
  let M := create_confusion_matrix vectors in
  nth j (nth i M []) 0 = nth i (nth j M []) 0 /\
  nth j (nth i M []) 0 <= vqe_fidelty (nth i vectors []) (nth j vectors []) /\
  create_confusion_matrix [v; scale Ci v] = [[1; 0]; [0; 1]] /\
  vqe_fidelty v (scale Ci v) = 1.
Proof.
  intros Hi Hj Hu M. unfold M.
  rewrite !confusion_entry by assumption.
  split; [|split; [|split]].
  - f_equal. rewrite Re_matmul_conj_r, matmul_vv_comm. reflexivity.
  - rewrite vqe_fidelty_norm2, Re_matmul_conj_r.
    generalize (matmul_vv (conj (nth i vectors [])) (nth j vectors [])).
    intros z. unfold square, Cnorm2.
    pose proof (Rle_0_sqr (Im z)) as H. unfold Rsqr in H. lra.
  - unfold create_confusion_matrix. cbn [map].
    rewrite !Re_matmul_conj_r, !conj_scale, !matmul_vv_scale_l,
      !matmul_vv_scale_r, !matmul_vv_conj_self, Hu.
    unfold square, Cmul, Cconj, Ci, RtoC, Re, Im. cbn [fst snd].
    repeat (apply f_equal2; try reflexivity); ring.
  - rewrite vqe_fidelty_phase_r by apply Cabs_Ci.
    apply vqe_fidelty_self, Hu.
Qed.

(** X25.  The mark of the training point, on a grid of at least two
    columns and three rows and for a point of the grid: it is strictly
    inside the picture; it is the cell of the point, column
    [trainingpoint // sidey] and row [sidey - trainingpoint % sidey],
    unless that cell lies on the first column or on the last row, from
    where it is moved inside.  A grid without rows divides by zero. *)
Theorem training_mark_inside (sidex sidey trainingpoint : Z) :
  (2 <= sidex)%Z -> (3 <= sidey)%Z ->
  (0 <= trainingpoint < sidex * sidey)%Z ->
  exists x y,
    training_mark sidey trainingpoint = Some (x, y) /\
    (1 <= x <= sidex - 1)%Z /\ (1 <= y <= sidey - 1)%Z /\
    (x = if (trainingpoint / sidey =? 0)%Z then 1
         else trainingpoint / sidey)%Z /\
    (y = if (trainingpoint mod sidey =? 0)%Z then sidey - 2
         else sidey - trainingpoint mod sidey)%Z /\
    training_mark 0 trainingpoint = None.
Proof.
  intros Hx Hy Htp. unfold training_mark.
  destruct (Z.eqb_spec sidey 0) as [E|_]; [lia|].
  pose proof (Z.mod_pos_bound trainingpoint sidey ltac:(lia)) as Hm.
  assert (Hd : (0 <= trainingpoint / sidey < sidex)%Z).
  { split; [apply Z.div_pos; lia|].
    apply Z.div_lt_upper_bound; lia. }
  eexists. eexists. split; [reflexivity|].
  assert (Ey : ((sidey - trainingpoint mod sidey =? sidey)
                = (trainingpoint mod sidey =? 0))%Z).
  { destruct (Z.eqb_spec (trainingpoint mod sidey) 0) as [E|N].
    - apply Z.eqb_eq. lia.
    - apply Z.eqb_neq. lia. }
  rewrite Ey.
  destruct (Z.eqb_spec (trainingpoint / sidey) 0) as [E0|N0];
    destruct (Z.eqb_spec (trainingpoint mod sidey) 0) as [E1|N1];
    repeat split; try reflexivity; lia.
Qed.

End Visualization.

Lemma confusion_matrix_real_part_witness :
  visualization.create_confusion_matrix [[C1; C0]; scale Ci [C1; C0]]
    = [[1; 0]; [0; 1]] /\
  vqe_fidelty [C1; C0] (scale Ci [C1; C0]) = 1.
Proof.
  destruct (confusion_matrix_real_part [[C1; C0]] 0 0 [C1; C0])
    as [_ [_ [HM HF]]].
  - cbn. lia.
  - cbn. lia.
  - unfold unit_norm, norm2, Rsum, Cnorm2, C1, C0, Re, Im.
    cbn [map fold_right fst snd]. lra.
  - split; [exact HM | exact HF].
Defined.

Lemma training_mark_inside_witness :
  visualization.training_mark 10 0 = Some (1, 8)%Z /\
  visualization.training_mark 10 37 = Some (3, 3)%Z.
Proof.
  split.
  - destruct (training_mark_inside 10 10 0) as [x [y [E [_ [_ [Ex [Ey _]]]]]]];
      try lia.
    rewrite E, Ex, Ey. reflexivity.
  - destruct (training_mark_inside 10 10 37) as [x [y [E [_ [_ [Ex [Ey _]]]]]]];
      try lia.
    rewrite E, Ex, Ey. reflexivity.
Defined.
Section Classification.
Import visualization.

Lemma existsb_eqb_In (i : nat) (l : list nat) :
  existsb (Nat.eqb i) l = true <-> In i l.
Proof.
  rewrite existsb_exists. split.
  - intros [x [Hx E]]. apply Nat.eqb_eq in E. subst x. exact Hx.
  - intros H. exists i. split; [exact H | apply Nat.eqb_refl].
Qed.

(** The loop, from index [i] on. *)
Lemma classify_spec (train_index : list nat) (labels : list Z)
    (predictions : list R) (i : nat) (acc : split) :
  (i + length predictions <= length labels)%nat ->
  let is_train k := existsb (Nat.eqb k) train_index in
  let at_ k := nth (k - i) predictions 0 in
  let col k := colour_of (at_ k) (nth k labels 0%Z) in
  classify train_index labels i predictions acc
  = Some (mk_split
            (predictions_train acc
               ++ map at_ (filter is_train (seq i (length predictions))))
            (colors_train acc
               ++ map col (filter is_train (seq i (length predictions))))
            (predictions_test acc
               ++ map at_ (filter (fun k => negb (is_train k))
                             (seq i (length predictions))))
            (colors_test acc
               ++ map col (filter (fun k => negb (is_train k))
                             (seq i (length predictions))))).
Proof.
  revert i acc. induction predictions as [|p predictions IH]; intros i acc Hlen.
  - cbn. rewrite !app_nil_r. destruct acc; reflexivity.
  - intros is_train at_ col. cbn [classify].
    cbn [length] in Hlen.
    destruct (nth_error labels i) as [label|] eqn:El;
      [|apply nth_error_None in El; lia].
    assert (Elab : nth i labels 0%Z = label).
    { apply nth_error_nth. exact El. }
    rewrite IH by lia.
    assert (Eat : forall k, In k (seq (S i) (length predictions)) ->
              nth (k - S i) predictions 0 = at_ k).
    { intros k Hk. apply in_seq in Hk. unfold at_.
      replace (k - i)%nat with (S (k - S i)) by lia. reflexivity. }
    assert (Emap : forall (f : nat -> bool),
              map (fun k => nth (k - S i) predictions 0)
                  (filter f (seq (S i) (length predictions)))
              = map at_ (filter f (seq (S i) (length predictions)))).
    { intros f. apply map_ext_in. intros k Hk. apply filter_In in Hk.
      apply Eat, Hk. }
    assert (Ecol : forall (f : nat -> bool),
              map (fun k => colour_of (nth (k - S i) predictions 0)
                              (nth k labels 0%Z))
                  (filter f (seq (S i) (length predictions)))
              = map col (filter f (seq (S i) (length predictions)))).
    { intros f. apply map_ext_in. intros k Hk. apply filter_In in Hk.
      unfold col. rewrite Eat by apply Hk. reflexivity. }
    rewrite !Emap, !Ecol.
    assert (Ep : at_ i = p) by (unfold at_; rewrite Nat.sub_diag; reflexivity).
    assert (Ec : col i = colour_of p label)
      by (unfold col; rewrite Ep, Elab; reflexivity).
    cbn [length seq filter]. fold (is_train i).
    destruct (is_train i); cbn [negb map predictions_train colors_train
                                 predictions_test colors_test];
      rewrite Ep, Ec, <- ?app_assoc; reflexivity.
Qed.

(** X26.  The loop of [QCNN_classification_ising], with a label for
    each prediction: the training samples are the predictions at the
    indices that occur in [train_index], in increasing order of index,
    and the test samples the others, which are the ones at
    [np.setdiff1d(np.arange(n), train_index)]; each sample comes with
    its colour, green when the prediction rounds to 0 and the label is
    0 or when it rounds to something else and the label is not 0, so
    that a probability of exactly one half counts as class 0. *)
Theorem QCNN_classification_split (train_index : list nat) (labels : list Z)
    (predictions : list R) :
  length labels = length predictions ->
  let n := length predictions in
  let is_train k := existsb (Nat.eqb k) train_index in
  let col k := colour_of (nth k predictions 0) (nth k labels 0%Z) in
  exists out,
    QCNN_classification_ising train_index labels predictions = Some out /\
    predictions_train out
      = map (fun k => nth k predictions 0) (filter is_train (seq 0 n)) /\
    colors_train out = map col (filter is_train (seq 0 n)) /\
    predictions_test out
      = map (fun k => nth k predictions 0) (test_index n train_index) /\
    colors_test out = map col (test_index n train_index) /\
    (forall k, col k = green <->
       (- (1 / 2) <= nth k predictions 0 <= 1 / 2 <-> nth k labels 0%Z = 0%Z)).
Proof.
  intros Hlen n is_train col. unfold QCNN_classification_ising.
  rewrite classify_spec by (cbn; lia).
  eexists. split; [reflexivity|].
  cbn [predictions_train colors_train predictions_test colors_test app].
  assert (E : forall (f : nat -> bool),
            map (fun k => nth (k - 0) predictions 0) (filter f (seq 0 n))
            = map (fun k => nth k predictions 0) (filter f (seq 0 n))).
  { intros f. apply map_ext. intros k. rewrite Nat.sub_0_r. reflexivity. }
  assert (E' : forall (f : nat -> bool),
            map (fun k => colour_of (nth (k - 0) predictions 0)
                            (nth k labels 0%Z)) (filter f (seq 0 n))
            = map col (filter f (seq 0 n))).
  { intros f. apply map_ext. intros k. unfold col. rewrite Nat.sub_0_r.
    reflexivity. }
  fold n. rewrite !E, !E'.
  split; [reflexivity|]. split; [reflexivity|]. split; [reflexivity|].
  split; [reflexivity|].
  intros k. unfold col, colour_of, rounds_to_zero.
  destruct (Rle_dec (- (1 / 2)) (nth k predictions 0)) as [H1|H1];
    [destruct (Rle_dec (nth k predictions 0) (1 / 2)) as [H2|H2]|];
    destruct (Z.eqb_spec (nth k labels 0%Z) 0) as [E0|N0];
    split; intros H;
    first [reflexivity | discriminate | tauto | exfalso; tauto].
Qed.

(** X27.  The sizes that [scatter] is given.  The test samples are
    always as many as their abscissas [np.sort(test_index)].  The
    training samples are as many as their abscissas
    [np.sort(train_index)] exactly when [train_index] has no repeated
    entry and names only indices of predictions: otherwise there are
    fewer samples than abscissas. *)
Theorem QCNN_classification_sizes (train_index : list nat) (labels : list Z)
    (predictions : list R) (out : split) :
  length labels = length predictions ->
  QCNN_classification_ising train_index labels predictions = Some out ->
  length (predictions_test out)
    = length (test_index (length predictions) train_index) /\
  length (colors_train out) = length (predictions_train out) /\
  length (colors_test out) = length (predictions_test out) /\
  (length (predictions_train out) <= length train_index)%nat /\
  (length (predictions_train out) = length train_index <->
   NoDup train_index /\
   forall i, In i train_index -> (i < length predictions)%nat).
Proof.
  intros Hlen. unfold QCNN_classification_ising.
  rewrite classify_spec by (cbn; lia).
  intros E. injection E as <-.
  cbn [predictions_train colors_train predictions_test colors_test app].
  rewrite !length_map. fold (test_index (length predictions) train_index).
  split; [reflexivity|]. split; [reflexivity|]. split; [reflexivity|].
  set (F := filter (fun k => existsb (Nat.eqb k) train_index)
              (seq 0 (length predictions))).
  assert (HF : NoDup F) by (apply NoDup_filter, seq_NoDup).
  assert (Hincl : incl F train_index).
  { intros k Hk. apply filter_In in Hk. apply existsb_eqb_In, Hk. }
  assert (Hle : (length F <= length train_index)%nat)
    by (apply NoDup_incl_length; assumption).
  split; [exact Hle|]. split.
  - intros Heq.
    assert (Hback : incl train_index F)
      by (apply NoDup_length_incl; [exact HF | lia | exact Hincl]).
    split.
    + apply (NoDup_incl_NoDup HF); [lia | exact Hincl].
    + intros i Hi. apply Hback in Hi. apply filter_In in Hi.
      destruct Hi as [Hi _]. apply in_seq in Hi. lia.
  - intros [Hnd Hrange].
    assert (Hback : incl train_index F).
    { intros i Hi. apply filter_In. split.
      - apply in_seq. specialize (Hrange i Hi). lia.
      - apply existsb_eqb_In, Hi. }
    pose proof (NoDup_incl_length Hnd Hback). lia.
Qed.

End Classification.

Lemma QCNN_classification_split_witness :
  exists out,
    visualization.QCNN_classification_ising [2; 0]%nat [0; 0; 1]%Z
      [1 / 2; 1; 1] = Some out /\
    visualization.predictions_train out = [1 / 2; 1] /\
    visualization.colors_train out
      = [visualization.green; visualization.green].
Proof.
  destruct (QCNN_classification_split [2; 0]%nat [0; 0; 1]%Z [1 / 2; 1; 1]
              eq_refl) as [out [E [Hp [Hc [_ [_ Hcol]]]]]].
  exists out. split; [exact E|]. split; [exact Hp|].
  rewrite Hc. cbn [length seq filter existsb Nat.eqb orb map nth].
  f_equal; [|f_equal].
  - apply (Hcol 0%nat). cbn [nth]. split; [reflexivity | intros _; lra].
  - apply (Hcol 2%nat). cbn [nth]. split; [intros [_ H]; lra | discriminate].
Defined.

Lemma QCNN_classification_sizes_witness :
  exists out,
    visualization.QCNN_classification_ising [2; 2; 7]%nat [0; 0; 1]%Z
      [1 / 2; 1; 1] = Some out /\
    (length (visualization.predictions_train out) < 3)%nat.
Proof.
  destruct (QCNN_classification_split [2; 2; 7]%nat [0; 0; 1]%Z [1 / 2; 1; 1]
              eq_refl) as [out [E _]].
  exists out. split; [exact E|].
  destruct (QCNN_classification_sizes [2; 2; 7]%nat [0; 0; 1]%Z [1 / 2; 1; 1]
              out eq_refl E) as [_ [_ [_ [Hle Hiff]]]].
  cbn [length] in Hle, Hiff.
  destruct (Nat.eq_dec (length (visualization.predictions_train out)) 3)
    as [Heq|Hne]; [|lia].
  exfalso. apply Hiff in Heq. destruct Heq as [_ Hr].
  specialize (Hr 7%nat). cbn in Hr. lia.
Defined.
